(** * Maps scraper: the /api/scrape handlers of server.js and its variants

    The repository holds four evolutions of one Express handler,
    [app.post("/api/scrape", auth, ...)]:

    - [V1]: server.js, first handler (lines 118-307): stall counter in the
      feed loader, re-query by index, last-accepted-name cursor; as written
      it is not JavaScript that loads (a type cast on line 217, a [try]
      closed on line 306 without [catch] or [finally]), so no request reaches
      it: it is read statement by statement, for what the later handlers kept
      of it and what they dropped;
    - [V2]: server.js, second handler (lines 401-506, "FAST");
    - [V3]: unnamed/part_000 (lines 118-271): with the e-mail crawl;
    - [V4]: unnamed/part_001 (lines 118-250).

    The handlers are embedded in a state-and-exception monad over an abstract
    browser (the Puppeteer calls the handlers make); the code that runs inside
    [page.evaluate] is embedded as pure functions of a snapshot of the DOM. *)

From Stdlib Require Import String Ascii List ZArith Bool Arith Lia DecimalString.
Import ListNotations.
Local Open Scope string_scope.
Local Open Scope list_scope.

(* ===================================================================== *)
(** ** JavaScript values *)
(* ===================================================================== *)

(** Numbers: NaN, an integer, or a number that is not an integer. [max]
    comes from a JSON body and may be any number, 2.5 as well as 2; every
    other number of the handlers is a count, an index or the result of
    [parseInt]. [Frac whole num rest] is [whole + num / (num + rest)]: the
    fraction lies strictly between 0 and 1, so that no integer is written with
    [Frac] (2.5 is [Frac 2 1 1], -0.5 is [Frac (-1) 1 1]). A double is read as
    the rational it denotes: rounding and the two infinities are left out. *)
Inductive JsNumber : Type :=
| NaN
| Num (z : Z)
| Frac (whole : Z) (num rest : positive).

Inductive JsValue : Type :=
| VUndefined
| VNull
| VBool (b : bool)
| VNumber (n : JsNumber)
| VString (s : string).

(** A JS object literal, as the ordered list of its keys and values. *)
Definition JsObject : Type := list (string * JsValue).

Fixpoint field (k : string) (o : JsObject) : JsValue :=
  match o with
  | [] => VUndefined
  | (k', v) :: o' => if String.eqb k k' then v else field k o'
  end.

(** Builtins of the language that the handlers call and the repository does
    not define. *)
Class Builtins : Type := {
  (** the StringToNumber conversion of ECMAScript *)
  StringToNumber : string -> JsNumber;
  (** [encodeURIComponent(v)] *)
  encodeURIComponent : JsValue -> string
}.

(** ToBoolean *)
Definition truthy (v : JsValue) : bool :=
  match v with
  | VUndefined | VNull => false
  | VBool b => b
  | VNumber NaN => false
  | VNumber (Num z) => negb (Z.eqb z 0)
  | VNumber (Frac _ _ _) => true
  | VString s => negb (String.eqb s "")
  end.

(** [Number(v)] *)
Definition Number `{Builtins} (v : JsValue) : JsNumber :=
  match v with
  | VUndefined => NaN
  | VNull => Num 0
  | VBool b => Num (if b then 1 else 0)
  | VNumber n => n
  | VString s => StringToNumber s
  end.

(** [a || b] on numbers *)
Definition num_or (a b : JsNumber) : JsNumber :=
  if truthy (VNumber a) then a else b.

(** [a <= b] on numbers, [None] when one of them is NaN. An integer [x] is
    at most [z + f], with [0 < f < 1], when [x <= z], and [z + f] is at most
    [y] when [z < y]; two fractions of one whole part are compared crosswise. *)
Definition num_le (a b : JsNumber) : option bool :=
  match a, b with
  | NaN, _ | _, NaN => None
  | Num x, Num y => Some (Z.leb x y)
  | Num x, Frac z _ _ => Some (Z.leb x z)
  | Frac z _ _, Num y => Some (Z.ltb z y)
  | Frac z p q, Frac z' p' q' =>
      Some (Z.ltb z z' || (Z.eqb z z' && Pos.leb (p * (p' + q')) (p' * (p + q))))
  end.

(** [Math.min(a, b)]: NaN as soon as one side is NaN *)
Definition Math_min (a b : JsNumber) : JsNumber :=
  match num_le a b with
  | None => NaN
  | Some true => a
  | Some false => b
  end.

(** [a >= b]: false as soon as one side is NaN *)
Definition js_ge (a b : JsNumber) : bool :=
  match num_le b a with
  | None => false
  | Some le => le
  end.

(** [const { query, max = 20 } = req.body]: the default replaces [undefined]
    only. *)
Definition with_default (v d : JsValue) : JsValue :=
  match v with
  | VUndefined => d
  | _ => v
  end.

Record Body : Type := {
  body_query : JsValue;
  body_max : JsValue
}.

(** [Math.min(Number(max) || 20, ceiling)] with [max] already defaulted *)
Definition limit_of `{Builtins} (ceiling : Z) (b : Body) : JsNumber :=
  let max := with_default (body_max b) (VNumber (Num 20)) in
  Math_min (num_or (Number max) (Num 20)) (Num ceiling).

(** Number of rounds of [for (let i = 0; i < take; i++)]: the integers
    from 0 that are below [take], none for NaN, [whole + 1] of them below
    [whole + f] with [0 < f < 1] (three rounds for 2.5). *)
Definition rounds (take : JsNumber) : nat :=
  match take with
  | NaN => 0
  | Num z => Z.to_nat z
  | Frac whole _ _ => Z.to_nat (whole + 1)
  end.

(* ===================================================================== *)
(** ** Strings *)
(* ===================================================================== *)

(** Characters are the 8-bit code units of [ascii]. *)

Definition code (c : ascii) : nat := nat_of_ascii c.

Definition in_range (lo hi : nat) (c : ascii) : bool :=
  Nat.leb lo (code c) && Nat.leb (code c) hi.

(** [\d] *)
Definition is_digit (c : ascii) : bool := in_range 48 57 c.
Definition is_upper (c : ascii) : bool := in_range 65 90 c.
Definition is_lower (c : ascii) : bool := in_range 97 122 c.
(** [[a-zA-Z]] *)
Definition is_alpha (c : ascii) : bool := is_upper c || is_lower c.

Definition is_char (x : ascii) (c : ascii) : bool := Ascii.eqb x c.

Fixpoint one_of (s : string) (c : ascii) : bool :=
  match s with
  | EmptyString => false
  | String x s' => Ascii.eqb x c || one_of s' c
  end.

(** [\s]: tab, line feed, vertical tab, form feed, carriage return, space,
    no-break space *)
Definition is_space (c : ascii) : bool :=
  in_range 9 13 c || Nat.eqb (code c) 32 || Nat.eqb (code c) 160.

(** Lower case, of the letters A to Z. *)
Definition lower_char (c : ascii) : ascii :=
  if is_upper c then ascii_of_nat (code c + 32) else c.

Fixpoint toLowerCase (s : string) : string :=
  match s with
  | EmptyString => EmptyString
  | String c s' => String (lower_char c) (toLowerCase s')
  end.

(** [s.startsWith(sub)] *)
Fixpoint startsWith (s sub : string) {struct sub} : bool :=
  match sub, s with
  | EmptyString, _ => true
  | String a sub', String b s' => Ascii.eqb a b && startsWith s' sub'
  | String _ _, EmptyString => false
  end.

(** [s.includes(sub)] *)
Fixpoint includes (s sub : string) : bool :=
  startsWith s sub ||
  match s with
  | EmptyString => false
  | String _ s' => includes s' sub
  end.

Fixpoint drop (n : nat) (s : string) : string :=
  match n, s with
  | S n', String _ s' => drop n' s'
  | _, _ => s
  end.

Fixpoint take (n : nat) (s : string) : string :=
  match n, s with
  | S n', String c s' => String c (take n' s')
  | _, _ => EmptyString
  end.

Fixpoint trimStart (s : string) : string :=
  match s with
  | String c s' => if is_space c then trimStart s' else s
  | EmptyString => EmptyString
  end.

(** the string without its trailing white space *)
Fixpoint trimEnd (s : string) : string :=
  match s with
  | EmptyString => EmptyString
  | String c s' =>
      match trimEnd s' with
      | EmptyString => if is_space c then EmptyString else String c EmptyString
      | t => String c t
      end
  end.

Definition trim (s : string) : string := trimEnd (trimStart s).

(** [s.replace(/[...]/g, "")] for a character class: the characters of the
    class are removed *)
Fixpoint remove_class (cls : ascii -> bool) (s : string) : string :=
  match s with
  | EmptyString => EmptyString
  | String c s' =>
      if cls c then remove_class cls s' else String c (remove_class cls s')
  end.

Definition nonempty (s : string) : bool := negb (String.eqb s "").

(** [a || ""] for [a] a string, null or undefined, as an [option string] *)
Definition or_empty (a : option string) : string :=
  match a with
  | Some s => s
  | None => ""
  end.

(** The value of a digit: 0 to 9, then the letters in either case. *)
Definition digit_value (c : ascii) : option nat :=
  if is_digit c then Some (code c - 48)
  else if is_lower c then Some (code c - 87)
  else if is_upper c then Some (code c - 55)
  else None.

(** The longest prefix of digits of the radix, read most significant first;
    [None] when the prefix is empty. *)
Fixpoint digits_prefix (radix : nat) (acc : option Z) (s : string) : option Z :=
  match s with
  | EmptyString => acc
  | String c s' =>
      match digit_value c with
      | Some d =>
          if Nat.ltb d radix
          then digits_prefix radix
                 (Some (Z.of_nat radix * match acc with Some a => a | None => 0 end
                        + Z.of_nat d)%Z) s'
          else acc
      | None => acc
      end
  end.

Definition strip_hex_prefix (s : string) : option string :=
  match s with
  | String "0" (String x s') =>
      if one_of "xX" x then Some s' else None
  | _ => None
  end.

(** A leading sign and the rest of the string. *)
Definition split_sign (s : string) : bool * string :=
  match s with
  | String "-" r => (true, r)
  | String "+" r => (false, r)
  | _ => (false, s)
  end.

(** [parseInt(s, radix)] with [radix] 10 or absent: white space, a sign,
    [0x] when no radix is given, then the longest prefix of digits. *)
Definition parseInt (s : string) (radix : option nat) : JsNumber :=
  let '(neg, s2) := split_sign (trimStart s) in
  let '(r, s3) :=
    match radix, strip_hex_prefix s2 with
    | None, Some s' => (16, s')
    | None, None => (10, s2)
    | Some r, _ => (r, s2)
    end in
  match digits_prefix r None s3 with
  | None => NaN
  | Some z => Num (if neg then - z else z)%Z
  end.

(** The digits of [a / den] after the point, [0 <= a < den], [fuel] of them
    at most. *)
Fixpoint decimals (fuel : nat) (a den : Z) : string :=
  match fuel with
  | 0 => ""
  | S fuel' =>
      if (a =? 0)%Z then ""
      else String (ascii_of_nat (48 + Z.to_nat (10 * a / den)))
                  (decimals fuel' ((10 * a) mod den) den)
  end.

(** [String(n)] for a number that is not an integer: its decimal
    expansion, cut after 17 digits. This is what [String] gives for a number
    whose expansion ends by then and is written without an exponent, as 2.5.
    No handler applies [String] to a number: the rating, the website and the
    token that it is applied to are strings. *)
Definition fraction_to_string (whole : Z) (num rest : positive) : string :=
  let den := Z.pos (num + rest) in
  if (0 <=? whole)%Z
  then NilZero.string_of_int (Z.to_int whole) ++ "."
       ++ decimals 17 (Z.pos num) den
  else "-" ++ NilZero.string_of_int (Z.to_int (- whole - 1)) ++ "."
       ++ decimals 17 (Z.pos rest) den.

(** [String(v)] *)
Definition to_String (v : JsValue) : string :=
  match v with
  | VUndefined => "undefined"
  | VNull => "null"
  | VBool b => if b then "true" else "false"
  | VNumber NaN => "NaN"
  | VNumber (Num z) => NilZero.string_of_int (Z.to_int z)
  | VNumber (Frac whole num rest) => fraction_to_string whole num rest
  | VString s => s
  end.

(** [a || b] *)
Definition js_or (a b : JsValue) : JsValue :=
  if truthy a then a else b.

(** [el?.textContent?.trim()]: undefined when the element is missing *)
Definition opt_trim (o : option string) : JsValue :=
  match o with
  | Some s => VString (trim s)
  | None => VUndefined
  end.

Definition of_option (o : option string) : JsValue :=
  match o with
  | Some s => VString s
  | None => VNull
  end.

(* ===================================================================== *)
(** ** The regular expressions of the handlers *)
(* ===================================================================== *)

(** Every pattern of the source is a sequence of character classes, each
    with a greedy quantifier. [match_here] is the backtracking matcher of
    such a sequence: each class first takes the longest run it can and gives
    characters back one at a time until the rest of the pattern matches. *)
Module Regex.

Record Atom : Type := {
  cls : ascii -> bool;
  rmin : nat;
  rmax : option nat
}.

Definition chr (c : ascii) : Atom :=
  {| cls := is_char c; rmin := 1; rmax := Some 1 |}.
Definition opt (c : ascii) : Atom :=
  {| cls := is_char c; rmin := 0; rmax := Some 1 |}.
Definition at_least (n : nat) (f : ascii -> bool) : Atom :=
  {| cls := f; rmin := n; rmax := None |}.

(** Length of the longest prefix in the class, within the bound. *)
Fixpoint span (f : ascii -> bool) (bound : option nat) (s : string) : nat :=
  match s with
  | EmptyString => 0
  | String c s' =>
      if f c then
        match bound with
        | Some 0 => 0
        | Some (S b) => S (span f (Some b) s')
        | None => S (span f None s')
        end
      else 0
  end.

(** A class that took [k] characters gives them back one at a time, down
    to [least], until [next] matches what follows. *)
Fixpoint back (least : nat) (next : string -> option nat) (s : string) (k : nat)
  : option nat :=
  if Nat.ltb k least then None
  else
    match next (drop k s) with
    | Some r => Some (k + r)
    | None =>
        match k with
        | 0 => None
        | S k' => back least next s k'
        end
    end.

(** Length of the match of the pattern at the start of [s]. *)
Fixpoint match_here (p : list Atom) (s : string) : option nat :=
  match p with
  | [] => Some 0
  | a :: rest => back (rmin a) (match_here rest) s (span (cls a) (rmax a) s)
  end.

(** [s.match(p)]: the leftmost match, [None] for null. *)
Fixpoint match_first (p : list Atom) (s : string) : option string :=
  match match_here p s with
  | Some n => Some (take n s)
  | None =>
      match s with
      | EmptyString => None
      | String _ s' => match_first p s'
      end
  end.

(** The matches of [p] from left to right without overlap; [skip] characters
    belong to the match just found. *)
Fixpoint match_all_from (p : list Atom) (skip : nat) (s : string) : list string :=
  match skip with
  | S k =>
      match s with
      | EmptyString => []
      | String _ s' => match_all_from p k s'
      end
  | 0 =>
      match match_here p s with
      | Some n =>
          take n s ::
          match s with
          | EmptyString => []
          | String _ s' => match_all_from p (pred n) s'
          end
      | None =>
          match s with
          | EmptyString => []
          | String _ s' => match_all_from p 0 s'
          end
      end
  end.

(** [s.match(p)] for a pattern with the g flag: null when nothing matches. *)
Definition match_global (p : list Atom) (s : string) : option (list string) :=
  match match_all_from p 0 s with
  | [] => None
  | l => Some l
  end.

Definition dquote : ascii := ascii_of_nat 34.

(** The pattern [https?:\/\/] followed by one or more characters that are
    neither white space nor a double quote. *)
Definition url_char (c : ascii) : bool := negb (is_space c || is_char dquote c).

Definition url_re : list Atom :=
  [chr "h"; chr "t"; chr "t"; chr "p"; opt "s"; chr ":"; chr "/"; chr "/";
   at_least 1 url_char].

(** [/[\d,\.]+/] *)
Definition count_char (c : ascii) : bool := is_digit c || one_of ",." c.

Definition count_re : list Atom := [at_least 1 count_char].

(** [/[a-zA-Z0-9._%+-]+@[a-zA-Z0-9.-]+\.[a-zA-Z]{2,}/] *)
Definition email_re : list Atom :=
  [at_least 1 (fun c => is_alpha c || is_digit c || one_of "._%+-" c);
   chr "@";
   at_least 1 (fun c => is_alpha c || is_digit c || one_of ".-" c);
   chr ".";
   at_least 2 is_alpha].

End Regex.

(* ===================================================================== *)
(** ** extractEmailFromHtml *)
(* ===================================================================== *)

(** [Array.from(new Set(l))]: first occurrences, in order. *)
Fixpoint uniq_from (seen l : list string) : list string :=
  match l with
  | [] => []
  | x :: l' =>
      if existsb (String.eqb x) seen then uniq_from seen l'
      else x :: uniq_from (x :: seen) l'
  end.

Definition not_placeholder (e : string) : bool :=
  negb (includes (toLowerCase e) "example.").

Definition extractEmailFromHtml (html : string) : option string :=
  match Regex.match_global Regex.email_re html with
  | None => None
  | Some matches =>
      let uniq := filter not_placeholder (uniq_from [] matches) in
      match uniq with
      | e :: _ => if nonempty e then Some e else None
      | [] => None
      end
  end.

Example email_first :
  extractEmailFromHtml "<p>info@example.com</p><a href='mailto:sales@realbiz.com'>"
  = Some "sales@realbiz.com".
Proof. reflexivity. Qed.

Example website_direct :
  Regex.match_first Regex.url_re "/url?q=https://acme.test/ x"
  = Some "https://acme.test/".
Proof. reflexivity. Qed.

(* ===================================================================== *)
(** ** The detail pane and the field extractors *)
(* ===================================================================== *)

(** A selector of the source, written with a backquote where the source has
    a double quote. *)
Fixpoint sel (s : string) : string :=
  match s with
  | EmptyString => EmptyString
  | String c s' => String (if Ascii.eqb c "`" then Regex.dquote else c) (sel s')
  end.

Record Button : Type := {
  aria_label : option string;      (* getAttribute of aria-label *)
  data_item_id : option string;    (* getAttribute of data-item-id *)
  button_text : string             (* textContent *)
}.

Record Anchor : Type := {
  anchor_item_id : option string;  (* getAttribute of data-item-id *)
  anchor_href : option string;     (* getAttribute of href *)
  anchor_text : string             (* textContent *)
}.

(** What the code run by [page.evaluate] reads from the document: for a
    selector, the first element it matches, [None] when there is none. *)
Record Dom : Type := {
  textContent : string -> option string;
  innerText : string -> option string;
  hrefAttribute : string -> option string;  (* getAttribute of href, of the first match *)
  hrefProperty : string -> option string;   (* the href property of the first match *)
  buttons : list Button;                    (* querySelectorAll of button *)
  anchors : list Anchor                     (* querySelectorAll of a *)
}.

(** [qs(a) || qs(b)] on elements: the first that exists *)
Definition or_first (a b : option string) : option string :=
  match a with
  | Some _ => a
  | None => b
  end.

Definition str_or (a b : string) : string :=
  if nonempty a then a else b.

(** [pickText]: server.js line 252 *)
Definition pickText (el : option string) : string :=
  match el with
  | Some t => trim t
  | None => ""
  end.

(** [website.match(...)] guarded by [website && website.includes("http")],
    as server.js lines 264-267 write it. *)
Definition clean_website_v1 (website : string) : string :=
  if nonempty website && includes website "http" then
    match Regex.match_first Regex.url_re website with
    | Some m => m
    | None => website
    end
  else website.

(** [website.match(...)?.[0] || website] under the same guard, as the other
    three handlers write it. *)
Definition clean_website (website : JsValue) : JsValue :=
  match website with
  | VString w =>
      if nonempty w && includes w "http" then
        js_or (of_option (Regex.match_first Regex.url_re w)) website
      else website
  | _ => website
  end.

Definition is_reviews_button (b : Button) : bool :=
  includes (toLowerCase (or_empty (aria_label b))) "reviews".

(** server.js lines 275-280 *)
Definition reviews_v1 (bs : list Button) : JsNumber :=
  match find is_reviews_button bs with
  | Some revBtn =>
      match Regex.match_first Regex.count_re (or_empty (aria_label revBtn)) with
      | Some m =>
          parseInt (remove_class (fun c => one_of ",." c || is_space c) m) (Some 10)
      | None => Num 0
      end
  | None => Num 0
  end.

(** server.js lines 482-489: the digits as a string *)
Definition reviews_v2 (bs : list Button) : JsValue :=
  match find is_reviews_button bs with
  | Some reviewsBtn =>
      match Regex.match_first Regex.count_re (or_empty (aria_label reviewsBtn)) with
      | Some m => VString (remove_class (one_of ",.") m)
      | None => VString ""
      end
  | None => VString ""
  end.

(** part_000 lines 203-210 and part_001 lines 214-221 *)
Definition reviews_v3 (bs : list Button) : JsValue :=
  match find is_reviews_button bs with
  | Some reviewsBtn =>
      match Regex.match_first Regex.count_re (or_empty (aria_label reviewsBtn)) with
      | Some m => VNumber (parseInt (remove_class (one_of ",.") m) None)
      | None => VNull
      end
  | None => VNull
  end.

(** The first [page.evaluate] of a round of V1: server.js lines 231-235 *)
Definition read_name_v1 (d : Dom) : JsValue :=
  let a := opt_trim (textContent d "h1.DUwDvf") in
  let b := opt_trim (textContent d (sel "h1[aria-level=`1`]")) in
  js_or (js_or a b) (VString "").

(** server.js lines 248-288 *)
Definition extract_v1 (d : Dom) : JsObject :=
  let name := str_or (pickText (textContent d "h1.DUwDvf"))
                     (pickText (textContent d (sel "h1[aria-level=`1`]"))) in
  let address := pickText (textContent d (sel "button[data-item-id*=`address`]")) in
  let phone := pickText (textContent d (sel "button[data-item-id*=`phone`]")) in
  let website :=
    clean_website_v1 (or_empty (hrefAttribute d (sel "a[data-item-id=`authority`]"))) in
  let rating :=
    match textContent d "span.F7nice" with
    | Some t => trim t
    | None => ""
    end in
  let reviews := reviews_v1 (buttons d) in
  let desc :=
    str_or (pickText (textContent d "div[jsaction*='pane'] div[aria-label][jsan*='description']"))
           (pickText (textContent d "div[jsname='bN97Pc']")) in
  [("name", VString name); ("address", VString address); ("phone", VString phone);
   ("website", VString website); ("description", VString desc);
   ("rating", VString rating); ("reviews", VNumber reviews)].

(** server.js lines 459-492 *)
Definition extract_v2 (d : Dom) : JsObject :=
  let name :=
    js_or (js_or (opt_trim (innerText d "h1[aria-level='1']"))
                 (opt_trim (innerText d "h1.DUwDvf"))) (VString "") in
  let address :=
    js_or (opt_trim (textContent d "button[data-item-id*='address']")) (VString "") in
  let phone :=
    js_or (opt_trim (textContent d "button[data-item-id*='phone']")) (VString "") in
  let website :=
    clean_website
      (js_or (of_option (hrefProperty d "a[data-item-id='authority']")) (VString "")) in
  let rating :=
    js_or (js_or (opt_trim (textContent d "span.F7nice"))
                 (opt_trim (textContent d "div.F7nice span[aria-hidden='true']")))
          (VString "") in
  let reviews := reviews_v2 (buttons d) in
  [("name", name); ("address", address); ("phone", phone); ("website", website);
   ("rating", rating); ("reviews", reviews)].

(** [getBtnText] and [getAnchorText]: part_000 lines 178-189 *)
Definition getBtnText (d : Dom) (attrVal : string) : JsValue :=
  match find (fun b => includes (or_empty (data_item_id b)) attrVal) (buttons d) with
  | Some btn => VString (trim (button_text btn))
  | None => VNull
  end.

Definition getAnchorText (d : Dom) (attrVal : string) : JsValue :=
  match find (fun a => String.eqb (or_empty (anchor_item_id a)) attrVal) (anchors d) with
  | Some a => js_or (of_option (anchor_href a)) (VString (trim (anchor_text a)))
  | None => VNull
  end.

(** part_000 lines 175-219 *)
Definition extract_v3 (d : Dom) : JsObject :=
  let name := js_or (opt_trim (innerText d "h1.DUwDvf")) VNull in
  let address := js_or (getBtnText d "address") VNull in
  let phone := js_or (getBtnText d "phone:tel") VNull in
  let website := clean_website (js_or (getAnchorText d "authority") VNull) in
  let rating :=
    match or_first (textContent d "div.F7nice span[aria-hidden='true']")
                   (textContent d "span.F7nice") with
    | Some t => VString (trim t)
    | None => VNull
    end in
  let reviews := reviews_v3 (buttons d) in
  let description :=
    match or_first
            (or_first (textContent d "div[jsaction*='pane'] div[aria-label][jsan*='description']")
                      (textContent d "div[aria-level='3']+div font"))
            (textContent d "div[jsname='bN97Pc']") with
    | Some t => VString (trim t)
    | None => VNull
    end in
  [("name", name); ("address", address); ("phone", phone); ("website", website);
   ("description", description); ("rating", rating); ("reviews", reviews)].

(** part_001 lines 191-228 *)
Definition extract_v4 (d : Dom) : JsObject :=
  let name := js_or (opt_trim (innerText d "h1 span")) VNull in
  let address :=
    js_or (opt_trim (innerText d "button[data-item-id*='address']")) VNull in
  let phone :=
    js_or (opt_trim (innerText d "button[data-item-id*='phone']")) VNull in
  let website :=
    clean_website (js_or (of_option (hrefProperty d "a[data-item-id='authority']")) VNull) in
  let rating := js_or (opt_trim (innerText d "span[aria-label*='stars']")) VNull in
  let reviews := reviews_v3 (buttons d) in
  let description :=
    js_or (opt_trim (innerText d "div[jsaction*='pane'] div[aria-label]")) VNull in
  [("name", name); ("address", address); ("phone", phone); ("website", website);
   ("description", description); ("rating", rating); ("reviews", reviews)].

(** The object pushed on [data]: server.js lines 290-299, part_000 lines
    252-261. *)
Definition record_of (place : JsObject) (email : JsValue) : JsObject :=
  [("name", js_or (field "name" place) (VString ""));
   ("email", email);
   ("mobile", js_or (field "phone" place) (VString ""));
   ("address", js_or (field "address" place) (VString ""));
   ("website", js_or (field "website" place) (VString ""));
   ("description", js_or (field "description" place) (VString ""));
   ("rating", if truthy (field "rating" place)
              then VString (to_String (field "rating" place)) else VString "");
   ("reviews", js_or (field "reviews" place) (VNumber (Num 0)))].

(** part_001 lines 230-239: the rating is [place.rating || ""]. *)
Definition record_of_v4 (place : JsObject) : JsObject :=
  [("name", js_or (field "name" place) (VString ""));
   ("email", VString "");
   ("mobile", js_or (field "phone" place) (VString ""));
   ("address", js_or (field "address" place) (VString ""));
   ("website", js_or (field "website" place) (VString ""));
   ("description", js_or (field "description" place) (VString ""));
   ("rating", js_or (field "rating" place) (VString ""));
   ("reviews", js_or (field "reviews" place) (VNumber (Num 0)))].

(* ===================================================================== *)
(** ** The browser and the handler monad *)
(* ===================================================================== *)

(** A promise settles with a value or rejects with an error, of which the
    handlers read the message only. *)
Inductive Result (A : Type) : Type :=
| Ok (a : A)
| Throw (message : string).
Arguments Ok {A} a.
Arguments Throw {A} message.

(** The Puppeteer calls of the handlers, as transitions of a browser state
    [W]. Nothing is assumed of them: any call may reject and the page may
    change between any two calls. Timeouts are in milliseconds. *)
Class Puppeteer (W : Type) : Type := {
  (** [puppeteer.launch(...)], with [chromium.executablePath()] *)
  launch : W -> Result unit * W;
  (** [browser.close()] *)
  close : W -> Result unit * W;
  (** [browser.newPage()] for the maps page *)
  newPage : W -> Result unit * W;
  (** [page.goto(url, { timeout })] *)
  goto : string -> N -> W -> Result unit * W;
  (** [page.waitForSelector(selector, { timeout })] *)
  waitForSelector : string -> N -> W -> Result unit * W;
  (** [page.$$eval(selector, els => els.length)] *)
  countAll : string -> W -> Result nat * W;
  (** [page.$$(selector)]: the number of handles it returns *)
  handles : string -> W -> Result nat * W;
  (** the [page.evaluate] that scrolls the feed *)
  scrollFeed : W -> Result unit * W;
  (** the [page.evaluate] that clicks the consent button if there is one *)
  clickConsent : W -> Result unit * W;
  (** [items[i].click()] on a handle got from [handles] *)
  clickHandle : nat -> W -> Result unit * W;
  (** the [page.evaluate] that clicks the element of that index among the
      matches of the selector; whether there is one *)
  clickIndex : string -> nat -> W -> Result bool * W;
  (** a [page.evaluate] that reads the document *)
  snapshot : W -> Result Dom * W;
  (** time passing: [sleep(ms)], [page.waitForTimeout(ms)] *)
  sleep : N -> W -> W;
  (** the second page of part_000: [browser.newPage()], [site.goto],
      [site.content()], the anchors read by [site.evaluate],
      [new URL(href, site.url()).href], [site.close()] *)
  siteOpen : W -> Result unit * W;
  siteGoto : string -> N -> W -> Result unit * W;
  siteContent : W -> Result string * W;
  siteAnchors : W -> Result (list Anchor) * W;
  siteResolve : string -> W -> Result string * W;
  siteClose : W -> Result unit * W
}.

Inductive ResponseBody : Type :=
| Success (results : list JsObject)     (* { success: true, results } *)
| Failure (message : string).           (* { success: false, message } *)

(** What a run of a handler does that the properties below speak of. *)
Inductive Event : Type :=
| Launch                                      (* puppeteer.launch resolved *)
| Close                                       (* browser.close() was called *)
| Send (status : nat) (body : ResponseBody)   (* res.json(body) *)
| Count (n : nat).                            (* a measure of the feed's entries *)

Section Handlers.

Context {W : Type} `{Puppeteer W} `{Builtins}.

(** The browser, the handler's [let browser] and [let email], and the
    events so far. *)
Record St : Type := {
  world : W;
  browser : bool;        (* whether [browser] holds a browser *)
  email : JsValue;
  trace : list Event
}.

Definition M (A : Type) : Type := St -> Result A * St.

Definition ret {A} (a : A) : M A := fun st => (Ok a, st).

Definition bind {A B} (m : M A) (k : A -> M B) : M B :=
  fun st =>
    match m st with
    | (Ok a, st') => k a st'
    | (Throw e, st') => (Throw e, st')
    end.

Notation "x <- c ;; k" := (bind c (fun x => k))
  (at level 61, c at next level, right associativity).
Notation "c ;; k" := (bind c (fun _ => k))
  (at level 61, right associativity).

(** [try { m } catch (err) { h err }] *)
Definition try_catch {A} (m : M A) (h : string -> M A) : M A :=
  fun st =>
    match m st with
    | (Ok a, st') => (Ok a, st')
    | (Throw e, st') => h e st'
    end.

(** [try { m } finally { f }] *)
Definition try_finally {A} (m : M A) (f : M unit) : M A :=
  fun st =>
    let (r, st') := m st in
    match f st' with
    | (Ok _, st'') => (r, st'')
    | (Throw e, st'') => (Throw e, st'')
    end.

Definition call {A} (op : W -> Result A * W) : M A :=
  fun st =>
    let (r, w) := op (world st) in
    (r, {| world := w; browser := browser st; email := email st; trace := trace st |}).

Definition wait (ms : N) : M unit :=
  fun st =>
    (Ok tt, {| world := sleep ms (world st); browser := browser st;
               email := email st; trace := trace st |}).

Definition emit (e : Event) : M unit :=
  fun st =>
    (Ok tt, {| world := world st; browser := browser st; email := email st;
               trace := trace st ++ [e] |}).

Definition set_email (v : JsValue) : M unit :=
  fun st =>
    (Ok tt, {| world := world st; browser := browser st; email := v;
               trace := trace st |}).

Definition get_email : M JsValue := fun st => (Ok (email st), st).

(** [browser = await puppeteer.launch(...)] *)
Definition launch_browser : M unit :=
  call launch ;;
  (fun st =>
     (Ok tt, {| world := world st; browser := true; email := email st;
                trace := trace st ++ [Launch] |})).

(** [if (browser) await browser.close().catch(() => {})] *)
Definition close_browser : M unit :=
  fun st =>
    if browser st
    then (emit Close ;; try_catch (call close) (fun _ => ret tt)) st
    else (Ok tt, st).

(** [res.json(body)] *)
Definition res_json (body : ResponseBody) : M unit := emit (Send 200 body).

Definition count_cards (selector : string) : M nat :=
  n <- call (countAll selector) ;;
  emit (Count n) ;;
  ret n.

Definition get_handles (selector : string) : M nat :=
  n <- call (handles selector) ;;
  emit (Count n) ;;
  ret n.

(** [for (let i = from; i < from + n; i++) s = body(i, s)] *)
Fixpoint for_each {T : Type} (n : nat) (from : nat) (body : nat -> T -> M T) (s : T)
  : M T :=
  match n with
  | 0 => ret s
  | S n' => s' <- body from s ;; for_each n' (S from) body s'
  end.

Definition of_nat (n : nat) : JsNumber := Num (Z.of_nat n).

Definition mapsUrl (query : JsValue) : string :=
  "https://www.google.com/maps/search/" ++ encodeURIComponent query.

Definition FEED : string := "div[role='feed']".

(** [a === b] *)
Definition strict_eq (a b : JsValue) : bool :=
  match a, b with
  | VUndefined, VUndefined => true
  | VNull, VNull => true
  | VBool x, VBool y => Bool.eqb x y
  | VNumber (Num x), VNumber (Num y) => Z.eqb x y
  | VNumber (Frac z p q), VNumber (Frac z' p' q') =>
      Z.eqb z z' && Pos.eqb (p * (p' + q')) (p' * (p + q))
  | VString x, VString y => String.eqb x y
  | _, _ => false
  end.

(* --------------------------------------------------------------------- *)
(** *** V1: server.js lines 118-307 *)
(* --------------------------------------------------------------------- *)

Definition cards_v1 : string := FEED ++ sel " a[href*=`/maps/place/`]".

(** [loadEnough], lines 173-194; [k] rounds of the loop are left. *)
Fixpoint loadEnough_v1_loop (k : nat) (count : JsNumber) (seen stagnant : nat)
  : M unit :=
  match k with
  | 0 => ret tt
  | S k' =>
      n <- count_cards cards_v1 ;;
      if js_ge (of_nat n) count then ret tt
      else
        call scrollFeed ;;
        wait 1200%N ;;
        let stagnant' := if Nat.eqb n seen then S stagnant else 0 in
        if Nat.leb 6 stagnant' then ret tt
        else loadEnough_v1_loop k' count n stagnant'
  end.

Definition loadEnough_v1 (count : JsNumber) : M unit :=
  loadEnough_v1_loop 40 count 0 0.

(** One round of the loop of lines 208-300 on [data] and [lastName]. *)
Definition round_v1 (i : nat) (s : list JsObject * JsValue)
  : M (list JsObject * JsValue) :=
  let '(data, lastName) := s in
  clicked <- call (clickIndex cards_v1 i) ;;
  if negb clicked then ret s
  else
    wait 1500%N ;;
    found <- try_catch
               (call (waitForSelector "h1.DUwDvf, h1[aria-level='1']" 15000%N) ;;
                d <- call snapshot ;;
                ret (Some (read_name_v1 d)))
               (fun _ => ret None) ;;
    match found with
    | None => ret s
    | Some name =>
        if negb (truthy name) || strict_eq name lastName then ret s
        else
          d <- call snapshot ;;
          let place := extract_v1 d in
          ret (data ++ [record_of place (VString "")], name)
    end.

(** The handler. Its [try] block has neither [catch] nor [finally]: an
    error leaves the handler. *)
Definition scrape_v1 (b : Body) : M unit :=
  let query := body_query b in
  if negb (truthy query) then res_json (Failure "query is required")
  else
    let limit := limit_of 100 b in
    launch_browser ;;
    call newPage ;;
    call (goto (mapsUrl query) 120000%N) ;;
    try_catch
      (call (waitForSelector
               (sel "form[action*=`consent`] button, button[aria-label*=`Accept`]") 5000%N) ;;
       call clickConsent)
      (fun _ => ret tt) ;;
    call (waitForSelector FEED 60000%N) ;;
    loadEnough_v1 limit ;;
    n <- count_cards cards_v1 ;;
    let take := Math_min (of_nat n) limit in
    s <- for_each (rounds take) 0 round_v1 ([], VNull) ;;
    res_json (Success (fst s)) ;;
    close_browser.

(* --------------------------------------------------------------------- *)
(** *** The loader of the other three handlers *)
(* --------------------------------------------------------------------- *)

(** [for (let tries = 0; tries < k; tries++)]: measure, stop when the count
    is reached, else scroll and sleep. *)
Fixpoint loadEnough_tries (selector : string) (ms : N) (k : nat) (count : JsNumber)
  : M unit :=
  match k with
  | 0 => ret tt
  | S k' =>
      num <- count_cards selector ;;
      if js_ge (of_nat num) count then ret tt
      else
        call scrollFeed ;;
        wait ms ;;
        loadEnough_tries selector ms k' count
  end.

(** [catch (err) { res.json({ success: false, message: err.message }) }
    finally { if (browser) await browser.close().catch(() => {}) }] *)
Definition guarded (work : M unit) : M unit :=
  try_finally
    (try_catch work (fun message => res_json (Failure message)))
    close_browser.

(* --------------------------------------------------------------------- *)
(** *** V2: server.js lines 401-506 *)
(* --------------------------------------------------------------------- *)

Definition results_v2 : string := "div[role='feed'] > div[jscontroller]".

Definition loadEnough_v2 : JsNumber -> M unit :=
  loadEnough_tries results_v2 1000%N 15.

Definition round_v2 (i : nat) (data : list JsObject) : M (list JsObject) :=
  call (clickHandle i) ;;
  call (waitForSelector "h1[aria-level='1'], h1.DUwDvf" 15000%N) ;;
  d <- call snapshot ;;
  let place := extract_v2 d in
  wait 1000%N ;;
  ret (data ++ [place]).

Definition scrape_v2 (b : Body) : M unit :=
  let query := body_query b in
  if negb (truthy query) then res_json (Failure "query is required")
  else
    let limit := limit_of 50 b in
    guarded
      (launch_browser ;;
       call newPage ;;
       call (goto (mapsUrl query) 60000%N) ;;
       call (waitForSelector "div[role='feed']" 60000%N) ;;
       loadEnough_v2 limit ;;
       items <- get_handles results_v2 ;;
       let take := Math_min (of_nat items) limit in
       data <- for_each (rounds take) 0 round_v2 [] ;;
       res_json (Success data)).

(* --------------------------------------------------------------------- *)
(** *** V3: unnamed/part_000 lines 118-271 *)
(* --------------------------------------------------------------------- *)

Definition results_v3 : string := "div[role='feed'] > div:not([jscontroller*='lxa'])".

Definition loadEnough_v3 : JsNumber -> M unit :=
  loadEnough_tries results_v3 800%N 20.

(** The anchor chosen on the site's home page, lines 231-239: null when
    there is none. *)
Definition is_contact_anchor (a : Anchor) : bool :=
  let text := toLowerCase (anchor_text a) in
  let href := toLowerCase (or_empty (anchor_href a)) in
  (includes text "contact" || includes text "support" || includes text "about")
  || (includes href "contact" || includes href "support").

Definition contactHref_of (l : list Anchor) : JsValue :=
  match find is_contact_anchor l with
  | Some cand => js_or (of_option (anchor_href cand)) (VString "")
  | None => VNull
  end.

(** Lines 222-250 *)
Definition resolve_email (website : JsValue) : M unit :=
  set_email VNull ;;
  if truthy website then
    try_catch
      (call siteOpen ;;
       call (siteGoto (to_String website) 20000%N) ;;
       html <- call siteContent ;;
       set_email (of_option (extractEmailFromHtml html)) ;;
       e <- get_email ;;
       (if negb (truthy e) then
          l <- call siteAnchors ;;
          let contactHref := contactHref_of l in
          if truthy contactHref then
            url <- call (siteResolve (to_String contactHref)) ;;
            call (siteGoto url 20000%N) ;;
            html2 <- call siteContent ;;
            set_email (of_option (extractEmailFromHtml html2))
          else ret tt
        else ret tt) ;;
       call siteClose)
      (fun _ => ret tt)
  else ret tt.

Definition round_v3 (i : nat) (data : list JsObject) : M (list JsObject) :=
  try_catch (call (clickHandle i))
            (fun _ => call (clickIndex results_v3 i) ;; ret tt) ;;
  wait 2000%N ;;
  d <- call snapshot ;;
  let place := extract_v3 d in
  resolve_email (field "website" place) ;;
  e <- get_email ;;
  ret (data ++ [record_of place (js_or e (VString ""))]).

Definition scrape_v3 (b : Body) : M unit :=
  let query := body_query b in
  if negb (truthy query) then res_json (Failure "query is required")
  else
    let limit := limit_of 100 b in
    guarded
      (launch_browser ;;
       call newPage ;;
       call (goto (mapsUrl query) 120000%N) ;;
       call (waitForSelector "div[role='feed']" 30000%N) ;;
       loadEnough_v3 limit ;;
       items <- get_handles results_v3 ;;
       let take := Math_min (of_nat items) limit in
       data <- for_each (rounds take) 0 round_v3 [] ;;
       res_json (Success data)).

(* --------------------------------------------------------------------- *)
(** *** V4: unnamed/part_001 lines 118-250 *)
(* --------------------------------------------------------------------- *)

Definition loadEnough_v4 : JsNumber -> M unit :=
  loadEnough_tries results_v3 1200%N 20.

Definition round_v4 (i : nat) (data : list JsObject) : M (list JsObject) :=
  call (clickHandle i) ;;
  try_catch (call (waitForSelector "h1 span" 8000%N)) (fun _ => ret tt) ;;
  d <- call snapshot ;;
  let place := extract_v4 d in
  ret (data ++ [record_of_v4 place]).

Definition scrape_v4 (b : Body) : M unit :=
  let query := body_query b in
  if negb (truthy query) then res_json (Failure "query is required")
  else
    let limit := limit_of 100 b in
    guarded
      (launch_browser ;;
       call newPage ;;
       call (goto (mapsUrl query) 0%N) ;;
       call (waitForSelector "div[role='feed']" 60000%N) ;;
       loadEnough_v4 limit ;;
       items <- get_handles results_v3 ;;
       let take := Math_min (of_nat items) limit in
       data <- for_each (rounds take) 0 round_v4 [] ;;
       res_json (Success data)).

(* --------------------------------------------------------------------- *)
(** *** The four handlers together *)
(* --------------------------------------------------------------------- *)

Inductive Variant : Type := V1 | V2 | V3 | V4.

Definition scrape (v : Variant) : Body -> M unit :=
  match v with
  | V1 => scrape_v1
  | V2 => scrape_v2
  | V3 => scrape_v3
  | V4 => scrape_v4
  end.

(** The second argument of [Math.min] in the handler's [limit]. *)
Definition ceiling (v : Variant) : Z :=
  match v with
  | V2 => 50
  | V1 | V3 | V4 => 100
  end.

Definition limit (v : Variant) (b : Body) : JsNumber := limit_of (ceiling v) b.

(** A request starts with no event, [browser] undefined. *)
Definition start (w : W) : St :=
  {| world := w; browser := false; email := VUndefined; trace := [] |}.

Definition run (v : Variant) (b : Body) (w : W) : Result unit * St :=
  scrape v b (start w).

(** The bodies sent, the counts measured. *)
Fixpoint sent (t : list Event) : list ResponseBody :=
  match t with
  | [] => []
  | Send _ body :: t' => body :: sent t'
  | _ :: t' => sent t'
  end.

Fixpoint counts (t : list Event) : list nat :=
  match t with
  | [] => []
  | Count n :: t' => n :: counts t'
  | _ :: t' => counts t'
  end.

End Handlers.

Arguments St W : clear implicits.

(* ===================================================================== *)
(** ** A scripted browser, to run the handlers on *)
(* ===================================================================== *)

(** A feed whose entries render a batch at a time on each scroll; a click
    on a rendered entry shows its detail pane. [sim_online] says whether
    navigation succeeds, [sim_feed] whether the feed ever appears. *)
Module Sim.

Record World : Type := {
  sim_entries : list Dom;      (* the pane of each entry of the feed *)
  sim_loaded : nat;            (* entries rendered so far *)
  sim_batch : nat;             (* entries rendered by one scroll *)
  sim_pane : option Dom;       (* the pane shown *)
  sim_online : bool;
  sim_feed : bool;
  sim_sites : list (string * string);  (* the markup served at a URL *)
  sim_site : string            (* the markup of the second page *)
}.

Definition empty_dom : Dom :=
  {| textContent := fun _ => None; innerText := fun _ => None;
     hrefAttribute := fun _ => None; hrefProperty := fun _ => None;
     buttons := []; anchors := [] |}.

Definition visible (w : World) : nat :=
  Nat.min (sim_loaded w) (length (sim_entries w)).

Definition show (w : World) (d : option Dom) : World :=
  {| sim_entries := sim_entries w; sim_loaded := sim_loaded w;
     sim_batch := sim_batch w; sim_pane := d; sim_online := sim_online w;
     sim_feed := sim_feed w; sim_sites := sim_sites w; sim_site := sim_site w |}.

Definition scrolled (w : World) : World :=
  {| sim_entries := sim_entries w; sim_loaded := sim_loaded w + sim_batch w;
     sim_batch := sim_batch w; sim_pane := sim_pane w; sim_online := sim_online w;
     sim_feed := sim_feed w; sim_sites := sim_sites w; sim_site := sim_site w |}.

Definition served (w : World) (html : string) : World :=
  {| sim_entries := sim_entries w; sim_loaded := sim_loaded w;
     sim_batch := sim_batch w; sim_pane := sim_pane w; sim_online := sim_online w;
     sim_feed := sim_feed w; sim_sites := sim_sites w; sim_site := html |}.

Definition entry (w : World) (i : nat) : option Dom :=
  if Nat.ltb i (visible w) then nth_error (sim_entries w) i else None.

Fixpoint lookup (url : string) (l : list (string * string)) : option string :=
  match l with
  | [] => None
  | (u, html) :: l' => if String.eqb url u then Some html else lookup url l'
  end.

#[global] Instance browser : Puppeteer World := {
  launch w := (Ok tt, w);
  close w := (Ok tt, w);
  newPage w := (Ok tt, w);
  goto _ _ w :=
    if sim_online w then (Ok tt, w) else (Throw "net::ERR_INTERNET_DISCONNECTED", w);
  waitForSelector selector _ w :=
    if String.prefix "div[role='feed']" selector then
      if sim_feed w then (Ok tt, w)
      else (Throw "Waiting for selector failed: timeout exceeded", w)
    else if String.prefix "h1" selector then
      match sim_pane w with
      | Some _ => (Ok tt, w)
      | None => (Throw "Waiting for selector failed: timeout exceeded", w)
      end
    else (Throw "Waiting for selector failed: timeout exceeded", w);
  countAll _ w := (Ok (visible w), w);
  handles _ w := (Ok (visible w), w);
  scrollFeed w := (Ok tt, scrolled w);
  clickConsent w := (Ok tt, w);
  clickHandle i w :=
    match entry w i with
    | Some d => (Ok tt, show w (Some d))
    | None => (Throw "Node is detached from document", w)
    end;
  clickIndex _ i w :=
    match entry w i with
    | Some d => (Ok true, show w (Some d))
    | None => (Ok false, w)
    end;
  snapshot w :=
    (Ok match sim_pane w with Some d => d | None => empty_dom end, w);
  sleep _ w := w;
  siteOpen w := (Ok tt, w);
  siteGoto url _ w :=
    match lookup url (sim_sites w) with
    | Some html => (Ok tt, served w html)
    | None => (Throw "net::ERR_NAME_NOT_RESOLVED", w)
    end;
  siteContent w := (Ok (sim_site w), w);
  siteAnchors w := (Ok [], w);
  siteResolve href w := (Ok href, w);
  siteClose w := (Ok tt, w)
}.

(** Builtins for the runs below: exact on strings of decimal digits and on
    queries made of unreserved characters. *)
Fixpoint all_digits (s : string) : bool :=
  match s with
  | EmptyString => true
  | String c s' => is_digit c && all_digits s'
  end.

#[global] Instance builtins : Builtins := {
  StringToNumber s :=
    if String.eqb s "" then Num 0
    else if all_digits s then parseInt s (Some 10) else NaN;
  encodeURIComponent v := to_String v
}.

(** A pane that shows a heading and nothing else. *)
Definition pane (name : string) : Dom :=
  {| textContent := fun s =>
       if String.eqb s "h1.DUwDvf" then Some name else None;
     innerText := fun s =>
       if String.eqb s "h1.DUwDvf" || String.eqb s "h1[aria-level='1']"
          || String.eqb s "h1 span"
       then Some name else None;
     hrefAttribute := fun _ => None; hrefProperty := fun _ => None;
     buttons := []; anchors := [] |}.

(** A pane with a heading and an authority anchor of that href. *)
Definition pane_with_website (name href : string) : Dom :=
  {| textContent := textContent (pane name); innerText := innerText (pane name);
     hrefAttribute := fun s =>
       if String.eqb s (sel "a[data-item-id=`authority`]") then Some href else None;
     hrefProperty := fun s =>
       if String.eqb s "a[data-item-id='authority']" then Some href else None;
     buttons := [];
     anchors := [ {| anchor_item_id := Some "authority"; anchor_href := Some href;
                     anchor_text := "Website" |} ] |}.

(** A pane with a heading and a review-count button of that label. *)
Definition pane_with_reviews (name label : string) : Dom :=
  {| textContent := textContent (pane name); innerText := innerText (pane name);
     hrefAttribute := fun _ => None; hrefProperty := fun _ => None;
     buttons := [ {| aria_label := Some label; data_item_id := None;
                     button_text := label |} ];
     anchors := [] |}.

Definition feed (entries : list Dom) (batch : nat) : World :=
  {| sim_entries := entries; sim_loaded := batch; sim_batch := batch;
     sim_pane := None; sim_online := true; sim_feed := true;
     sim_sites := []; sim_site := "" |}.

Definition offline : World :=
  {| sim_entries := []; sim_loaded := 0; sim_batch := 0; sim_pane := None;
     sim_online := false; sim_feed := false; sim_sites := []; sim_site := "" |}.


Definition request (query : string) (max : JsValue) : Body :=
  {| body_query := VString query; body_max := max |}.

End Sim.

(* ===================================================================== *)
(** ** Reasoning about runs *)
(* ===================================================================== *)

(** The properties below read a run through the [browser] variable and the
    events only, so they hold whatever the browser answers. [run_from b t m Q]:
    from a state with that variable and those events, [m] ends with a
    result, a variable and events that satisfy [Q]. *)
Section Runs.

Context {W : Type} `{Puppeteer W} `{Builtins}.

Definition Post (A : Type) : Type := Result A -> bool -> list Event -> Prop.

Definition run_from {A} (b : bool) (t : list Event) (m : M A) (Q : Post A) : Prop :=
  forall st : St W, browser st = b -> trace st = t ->
    Q (fst (m st)) (browser (snd (m st))) (trace (snd (m st))).

Lemma run_ret {A} b t (a : A) (Q : Post A) :
  Q (Ok a) b t -> run_from b t (ret a) Q.
Proof. intros HQ st <- <-. exact HQ. Qed.

Lemma run_bind {A B} b t (m : M A) (k : A -> M B) (Q : Post B) :
  run_from b t m
    (fun r b' t' =>
       match r with
       | Ok a => run_from b' t' (k a) Q
       | Throw e => Q (Throw e) b' t'
       end) ->
  run_from b t (bind m k) Q.
Proof.
  intros Hm st Hb Ht. specialize (Hm st Hb Ht). unfold bind.
  destruct (m st) as [[a | e] st']; cbn in *.
  - apply Hm; reflexivity.
  - exact Hm.
Qed.

Lemma run_weaken {A} b t (m : M A) (P Q : Post A) :
  run_from b t m P -> (forall r b' t', P r b' t' -> Q r b' t') -> run_from b t m Q.
Proof. intros Hm HPQ st Hb Ht. apply HPQ, Hm; assumption. Qed.

Lemma run_call {A} b t (op : W -> Result A * W) (Q : Post A) :
  (forall r, Q r b t) -> run_from b t (call op) Q.
Proof.
  intros HQ st <- <-. unfold call. destruct (op (world st)) as [r w]. apply HQ.
Qed.

Lemma run_wait b t ms (Q : Post unit) :
  Q (Ok tt) b t -> run_from b t (wait ms) Q.
Proof. intros HQ st <- <-. exact HQ. Qed.

Lemma run_emit b t e (Q : Post unit) :
  Q (Ok tt) b (t ++ [e]) -> run_from b t (emit e) Q.
Proof. intros HQ st <- <-. exact HQ. Qed.

Lemma run_set_email b t v (Q : Post unit) :
  Q (Ok tt) b t -> run_from b t (set_email v) Q.
Proof. intros HQ st <- <-. exact HQ. Qed.

Lemma run_get_email b t (Q : Post JsValue) :
  (forall v, Q (Ok v) b t) -> run_from b t get_email Q.
Proof. intros HQ st <- <-. apply HQ. Qed.

Lemma run_try_catch {A} b t (m : M A) (h : string -> M A) (Q : Post A) :
  run_from b t m
    (fun r b' t' =>
       match r with
       | Ok a => Q (Ok a) b' t'
       | Throw e => run_from b' t' (h e) Q
       end) ->
  run_from b t (try_catch m h) Q.
Proof.
  intros Hm st Hb Ht. specialize (Hm st Hb Ht). unfold try_catch.
  destruct (m st) as [[a | e] st']; cbn in *.
  - exact Hm.
  - apply Hm; reflexivity.
Qed.

Lemma run_try_finally {A} b t (m : M A) (f : M unit) (Q : Post A) :
  run_from b t m
    (fun r b' t' =>
       run_from b' t' f
         (fun rf b'' t'' =>
            match rf with
            | Ok _ => Q r b'' t''
            | Throw e => Q (Throw e) b'' t''
            end)) ->
  run_from b t (try_finally m f) Q.
Proof.
  intros Hm st Hb Ht. specialize (Hm st Hb Ht). unfold try_finally.
  destruct (m st) as [r st']; cbn in *.
  specialize (Hm st' eq_refl eq_refl).
  destruct (f st') as [[u | e] st'']; cbn in *; exact Hm.
Qed.

Lemma run_launch b t (Q : Post unit) :
  Q (Ok tt) true (t ++ [Launch]) -> (forall e, Q (Throw e) b t) ->
  run_from b t launch_browser Q.
Proof.
  intros Hok Hth. unfold launch_browser. apply run_bind, run_call.
  intros [[] | e]; [| apply Hth].
  intros st <- <-. exact Hok.
Qed.

Lemma run_close b t (Q : Post unit) :
  Q (Ok tt) b (if b then t ++ [Close] else t) -> run_from b t close_browser Q.
Proof.
  intros HQ st Hb Ht. unfold close_browser. rewrite Hb.
  destruct b.
  - revert st Hb Ht. apply run_bind, run_emit, run_try_catch, run_call.
    intros [[] | e]; [exact HQ | apply run_ret, HQ].
  - subst t. cbn. rewrite Hb. exact HQ.
Qed.

(** Computations that leave [browser] and the events as they are. *)
Definition mute {A} (m : M A) (Q : A -> Prop) : Prop :=
  forall b t,
    run_from b t m
      (fun r b' t' =>
         b' = b /\ t' = t /\ match r with Ok a => Q a | Throw _ => True end).

Lemma mute_ret {A} (a : A) (Q : A -> Prop) : Q a -> mute (ret a) Q.
Proof. intros HQ b t. apply run_ret. auto. Qed.

Lemma mute_bind {A B} (m : M A) (k : A -> M B) P (Q : B -> Prop) :
  mute m P -> (forall a, P a -> mute (k a) Q) -> mute (bind m k) Q.
Proof.
  intros Hm Hk b t. apply run_bind. eapply run_weaken; [apply Hm |].
  intros [a | e] b' t' (-> & -> & HP); [| auto].
  apply (Hk a HP).
Qed.

Lemma mute_weaken {A} (m : M A) (P Q : A -> Prop) :
  mute m P -> (forall a, P a -> Q a) -> mute m Q.
Proof.
  intros Hm HPQ b t. eapply run_weaken; [apply Hm |].
  intros [a | e] b' t' (-> & -> & HP); auto.
Qed.

Lemma mute_call {A} (op : W -> Result A * W) (Q : A -> Prop) :
  (forall a, Q a) -> mute (call op) Q.
Proof. intros HQ b t. apply run_call. intros [a | e]; auto. Qed.

Lemma mute_wait ms (Q : unit -> Prop) : Q tt -> mute (wait ms) Q.
Proof. intros HQ b t. apply run_wait. auto. Qed.

Lemma mute_set_email v (Q : unit -> Prop) : Q tt -> mute (set_email v) Q.
Proof. intros HQ b t. apply run_set_email. auto. Qed.

Lemma mute_get_email (Q : JsValue -> Prop) : (forall v, Q v) -> mute get_email Q.
Proof. intros HQ b t. apply run_get_email. auto. Qed.

Lemma mute_try_catch {A} (m : M A) (h : string -> M A) (Q : A -> Prop) :
  mute m Q -> (forall e, mute (h e) Q) -> mute (try_catch m h) Q.
Proof.
  intros Hm Hh b t. apply run_try_catch. eapply run_weaken; [apply Hm |].
  intros [a | e] b' t' (-> & -> & HP); [auto |].
  apply Hh.
Qed.

(** The loop rule: [I k] holds after [k] rounds. *)
Lemma mute_for_each {T} (I : nat -> T -> Prop) (body : nat -> T -> M T) :
  (forall k i s, I k s -> mute (body i s) (I (S k))) ->
  forall n k i s, I k s -> mute (for_each n i body s) (I (k + n)).
Proof.
  intros Hbody. induction n as [| n IH]; intros k i s HI; cbn [for_each].
  - apply mute_ret. now rewrite Nat.add_0_r.
  - eapply mute_bind; [apply (Hbody k i s HI) |].
    intros s' HI'. rewrite <- Nat.add_succ_comm. apply IH, HI'.
Qed.

Ltac mute_step :=
  eapply mute_bind with (P := fun _ => True);
  [ first [ apply mute_call | apply mute_wait | apply mute_set_email
          | apply mute_get_email ]; intros; exact I
  | intros ? _ ].

(* --------------------------------------------------------------------- *)
(** *** The rounds: a round appends at most one record *)
(* --------------------------------------------------------------------- *)

Lemma round_v1_mute i (s : list JsObject * JsValue) :
  mute (round_v1 i s) (fun s' => length (fst s') <= S (length (fst s))).
Proof.
  destruct s as [data lastName]. unfold round_v1.
  eapply mute_bind with (P := fun _ => True);
    [apply mute_call; intros; exact I | intros clicked _].
  destruct clicked; cbn [negb].
  2: { apply mute_ret. cbn. lia. }
  mute_step.
  eapply mute_bind with (P := fun _ => True).
  { apply mute_try_catch.
    - mute_step. mute_step. apply mute_ret. exact I.
    - intros e. apply mute_ret. exact I. }
  intros [name |] _.
  2: { apply mute_ret. cbn. lia. }
  destruct (negb (truthy name) || strict_eq name lastName).
  { apply mute_ret. cbn. lia. }
  mute_step. apply mute_ret. cbn. rewrite length_app. cbn. lia.
Qed.

Lemma round_v2_mute i (data : list JsObject) :
  mute (round_v2 i data) (fun data' => length data' <= S (length data)).
Proof.
  unfold round_v2. do 3 mute_step. mute_step.
  apply mute_ret. rewrite length_app. cbn. lia.
Qed.

Lemma resolve_email_mute website : mute (resolve_email website) (fun _ => True).
Proof.
  unfold resolve_email. mute_step.
  destruct (truthy website); [| apply mute_ret; exact I].
  apply mute_try_catch; [| intros e; apply mute_ret; exact I].
  do 5 mute_step.
  eapply mute_bind with (P := fun _ => True).
  2: { intros _ _. apply mute_call. intros; exact I. }
  match goal with |- context [negb (truthy ?v)] => destruct (negb (truthy v)) end;
    [| apply mute_ret; exact I].
  mute_step.
  match goal with |- context [truthy ?v] => destruct (truthy v) end;
    [| apply mute_ret; exact I].
  do 3 mute_step. apply mute_set_email. exact I.
Qed.

Lemma round_v3_mute i (data : list JsObject) :
  mute (round_v3 i data) (fun data' => length data' <= S (length data)).
Proof.
  unfold round_v3.
  eapply mute_bind with (P := fun _ => True).
  { apply mute_try_catch; [apply mute_call; intros; exact I |].
    intros e. mute_step. apply mute_ret. exact I. }
  intros _ _. do 2 mute_step.
  eapply mute_bind; [apply resolve_email_mute | intros _ _].
  mute_step. apply mute_ret. rewrite length_app. cbn. lia.
Qed.

Lemma round_v4_mute i (data : list JsObject) :
  mute (round_v4 i data) (fun data' => length data' <= S (length data)).
Proof.
  unfold round_v4. mute_step.
  eapply mute_bind with (P := fun _ => True).
  { apply mute_try_catch; [apply mute_call; intros; exact I |].
    intros e. apply mute_ret. exact I. }
  intros _ _. mute_step. apply mute_ret. rewrite length_app. cbn. lia.
Qed.

(** A loop of [n] such rounds appends at most [n] records. *)
Lemma rounds_bound {T} (size : T -> nat) (body : nat -> T -> M T) :
  (forall i s, mute (body i s) (fun s' => size s' <= S (size s))) ->
  forall n i s, mute (for_each n i body s) (fun s' => size s' <= size s + n).
Proof.
  intros Hbody n i s.
  eapply mute_weaken.
  - apply (mute_for_each (fun k s' => size s' <= size s + k) body) with (k := 0).
    + intros k j s1 Hk. eapply mute_weaken; [apply Hbody |].
      cbn. intros s2 Hs2. lia.
    + lia.
  - cbn. intros s' Hs'. exact Hs'.
Qed.

(* --------------------------------------------------------------------- *)
(** *** The loaders *)
(* --------------------------------------------------------------------- *)

(** Poll [i] of a loader found the count of the poll before it ([seen] for
    the first poll). *)
Definition unchanged_from (seen : nat) (polls : list nat) (i : nat) : Prop :=
  nth_error polls i = nth_error (seen :: polls) i.

(** Six polls in a row that found the count unchanged are the last six. *)
Definition stops_at_stall_from (seen stagnant : nat) (polls : list nat) : Prop :=
  (forall j, j + 6 <= length polls ->
             (forall i, j <= i < j + 6 -> unchanged_from seen polls i) ->
             length polls = j + 6)
  /\ (forall m, m + stagnant = 6 -> m <= length polls ->
             (forall i, i < m -> unchanged_from seen polls i) ->
             length polls = m).

Definition stops_at_stall (polls : list nat) : Prop :=
  forall j, j + 6 <= length polls ->
            (forall i, j <= i < j + 6 -> unchanged_from 0 polls i) ->
            length polls = j + 6.

Lemma stall_one seen stagnant n :
  stagnant < 6 -> stops_at_stall_from seen stagnant [n].
Proof.
  intros Hs. split.
  - intros j Hj. cbn in Hj. lia.
  - intros m Hm Hlen _. cbn in *. lia.
Qed.

Lemma stall_nil seen stagnant :
  stagnant < 6 -> stops_at_stall_from seen stagnant [].
Proof.
  intros Hs. split.
  - intros j Hj. cbn in Hj. lia.
  - intros m Hm Hlen _. cbn in *. lia.
Qed.

Lemma stall_cons seen stagnant n polls :
  stagnant < 6 ->
  stops_at_stall_from n (if Nat.eqb n seen then S stagnant else 0) polls ->
  stops_at_stall_from seen stagnant (n :: polls).
Proof.
  intros Hs [Hrun Hfirst]. split.
  - intros [| j] Hlen Hun.
    + assert (Heq : n = seen).
      { specialize (Hun 0 ltac:(lia)). unfold unchanged_from in Hun. cbn in Hun.
        congruence. }
      rewrite (proj2 (Nat.eqb_eq n seen) Heq) in Hfirst.
      cbn [length] in *.
      assert (Hl : length polls = 5 - stagnant).
      { apply Hfirst; [lia | lia |].
        intros i Hi. apply (Hun (S i)). lia. }
      lia.
    + cbn [length] in *.
      assert (Hl : length polls = j + 6).
      { apply Hrun; [lia |]. intros i Hi. apply (Hun (S i)). lia. }
      lia.
  - intros m Hm Hlen Hun. cbn [length] in *.
    destruct m as [| m]; [lia |].
    assert (Heq : n = seen).
    { specialize (Hun 0 ltac:(lia)). unfold unchanged_from in Hun. cbn in Hun.
      congruence. }
    rewrite (proj2 (Nat.eqb_eq n seen) Heq) in Hfirst.
    f_equal. apply Hfirst; [lia | lia |].
    intros i Hi. apply (Hun (S i)). lia.
Qed.

(** What a loader leaves: [browser] as it was, and its polls after the
    events there were. *)
Definition polled (b : bool) (t : list Event) (P : list nat -> Prop) : Post unit :=
  fun _ b' t' => b' = b /\ exists polls, t' = t ++ map Count polls /\ P polls.

Lemma polled_nil b t (P : list nat -> Prop) r : P [] -> polled b t P r b t.
Proof.
  intros HP. split; [reflexivity |]. exists []. cbn. now rewrite app_nil_r.
Qed.

Lemma polled_one b t (P : list nat -> Prop) r n :
  P [n] -> polled b t P r b (t ++ [Count n]).
Proof. intros HP. split; [reflexivity |]. now exists [n]. Qed.

Lemma run_count_cards b t selector (Q : Post nat) :
  (forall n, Q (Ok n) b (t ++ [Count n])) -> (forall e, Q (Throw e) b t) ->
  run_from b t (count_cards selector) Q.
Proof.
  intros Hok Hth. unfold count_cards. apply run_bind, run_call.
  intros [n | e]; [| apply Hth].
  apply run_bind, run_emit, run_ret, Hok.
Qed.

Lemma run_get_handles b t selector (Q : Post nat) :
  (forall n, Q (Ok n) b (t ++ [Count n])) -> (forall e, Q (Throw e) b t) ->
  run_from b t (get_handles selector) Q.
Proof.
  intros Hok Hth. unfold get_handles. apply run_bind, run_call.
  intros [n | e]; [| apply Hth].
  apply run_bind, run_emit, run_ret, Hok.
Qed.

Lemma loadEnough_v1_loop_run count k :
  forall seen stagnant b t, stagnant < 6 ->
    run_from b t (loadEnough_v1_loop k count seen stagnant)
      (polled b t (fun polls =>
         length polls <= k /\ stops_at_stall_from seen stagnant polls)).
Proof.
  induction k as [| k IH]; intros seen stagnant b t Hs; cbn [loadEnough_v1_loop].
  - apply run_ret, polled_nil. split; [cbn; lia | now apply stall_nil].
  - assert (Hone : forall r n, polled b t (fun polls =>
               length polls <= S k /\ stops_at_stall_from seen stagnant polls)
               r b (t ++ [Count n])).
    { intros r n. apply polled_one. split; [cbn; lia | now apply stall_one]. }
    apply run_bind, run_count_cards.
    2: { intros e. apply polled_nil. split; [cbn; lia | now apply stall_nil]. }
    intros n. destruct (js_ge (of_nat n) count); [apply run_ret, Hone |].
    apply run_bind, run_call. intros [[] | e]; [| apply Hone].
    apply run_bind, run_wait.
    destruct (Nat.leb 6 (if Nat.eqb n seen then S stagnant else 0)) eqn:Hstop;
      [apply run_ret, Hone |].
    apply Nat.leb_gt in Hstop.
    eapply run_weaken; [apply (IH n _ b (t ++ [Count n]) Hstop) |].
    intros r b' t' (-> & polls & -> & Hlen & Hstall).
    split; [reflexivity |]. exists (n :: polls). cbn [map].
    rewrite <- app_assoc. cbn. split; [reflexivity |].
    split; [cbn; lia | now apply stall_cons].
Qed.

Lemma loadEnough_v1_run count b t :
  run_from b t (loadEnough_v1 count)
    (polled b t (fun polls => length polls <= 40 /\ stops_at_stall polls)).
Proof.
  eapply run_weaken; [apply (loadEnough_v1_loop_run count 40 0 0 b t); lia |].
  intros r b' t' (-> & polls & -> & Hlen & Hstall & _).
  split; [reflexivity |]. exists polls. auto.
Qed.

Lemma loadEnough_tries_run selector ms count k :
  forall b t,
    run_from b t (loadEnough_tries selector ms k count)
      (polled b t (fun polls => length polls <= k)).
Proof.
  induction k as [| k IH]; intros b t; cbn [loadEnough_tries].
  - apply run_ret, polled_nil. cbn; lia.
  - assert (Hone : forall r n, polled b t (fun polls => length polls <= S k)
               r b (t ++ [Count n])).
    { intros r n. apply polled_one. cbn; lia. }
    apply run_bind, run_count_cards.
    2: { intros e. apply polled_nil. cbn; lia. }
    intros n. destruct (js_ge (of_nat n) count); [apply run_ret, Hone |].
    apply run_bind, run_call. intros [[] | e]; [| apply Hone].
    apply run_bind, run_wait.
    eapply run_weaken; [apply (IH b (t ++ [Count n])) |].
    intros r b' t' (-> & polls & -> & Hlen).
    split; [reflexivity |]. exists (n :: polls). cbn [map].
    rewrite <- app_assoc. cbn. split; [reflexivity | lia].
Qed.

(* --------------------------------------------------------------------- *)
(** *** What a run of a handler leaves *)
(* --------------------------------------------------------------------- *)

(** Whether the handler's [try] has a [catch] and a [finally]. *)
Definition guards (v : Variant) : bool :=
  match v with
  | V1 => false
  | V2 | V3 | V4 => true
  end.

(** The bound of the loader's loop. *)
Definition tries (v : Variant) : nat :=
  match v with
  | V1 => 40
  | V2 => 15
  | V3 | V4 => 20
  end.

Definition polls_ok (v : Variant) (polls : list nat) : Prop :=
  length polls <= tries v /\ (v = V1 -> stops_at_stall polls).

(** The result and the events of a run, case by case. *)
Inductive Shape (v : Variant) (b : Body) : Result unit -> list Event -> Prop :=
| Refused :
    Shape v b (Ok tt) [Send 200 (Failure "query is required")]
| NoBrowser e :
    guards v = true ->
    Shape v b (Ok tt) [Send 200 (Failure e)]
| NoBrowserEscaped e :
    guards v = false ->
    Shape v b (Throw e) []
| Failed e cs :
    guards v = true -> length cs <= S (tries v) ->
    Shape v b (Ok tt) (Launch :: map Count cs ++ [Send 200 (Failure e); Close])
| Escaped e cs :
    guards v = false -> length cs <= S (tries v) ->
    Shape v b (Throw e) (Launch :: map Count cs)
| Done polls n data :
    polls_ok v polls ->
    length data <= rounds (Math_min (of_nat n) (limit v b)) ->
    Shape v b (Ok tt)
      (Launch :: map Count (polls ++ [n]) ++ [Send 200 (Success data); Close]).

(** The [try] block up to its [res.json]. *)
Definition Worked (v : Variant) (b : Body) : Post unit :=
  fun r br t =>
    match r with
    | Throw e =>
        (br = false /\ t = []) \/
        (br = true /\ exists cs, t = Launch :: map Count cs /\ length cs <= S (tries v))
    | Ok _ =>
        br = true /\
        exists polls n data,
          t = Launch :: map Count (polls ++ [n]) ++ [Send 200 (Success data)] /\
          polls_ok v polls /\
          length data <= rounds (Math_min (of_nat n) (limit v b))
    end.

Lemma guarded_run v b (work : M unit) :
  guards v = true ->
  run_from false [] work (Worked v b) ->
  run_from false [] (guarded work) (fun r _ t => Shape v b r t).
Proof.
  intros Hg Hwork. unfold guarded.
  apply run_try_finally, run_try_catch.
  eapply run_weaken; [exact Hwork |].
  intros [[] | e] br t HW; cbn in HW.
  - destruct HW as (-> & polls & n & data & -> & Hp & Hd).
    apply run_close. cbn. rewrite <- app_assoc. cbn.
    now apply Done.
  - apply run_emit, run_close.
    destruct HW as [(-> & ->) | (-> & cs & -> & Hcs)]; cbn.
    + now apply NoBrowser.
    + rewrite <- !app_assoc. cbn. now apply Failed.
Qed.

(** After the launch: the events are the launch and the counts so far. *)
Lemma worked_throw v b e cs t :
  t = Launch :: map Count cs -> length cs <= S (tries v) ->
  Worked v b (Throw e) true t.
Proof. intros -> Hlen. right. split; [reflexivity |]. now exists cs. Qed.

Ltac failed_with cs :=
  apply worked_throw with cs;
  [ cbn; rewrite ?map_app, <- ?app_assoc; reflexivity
  | cbn; rewrite ?length_app; cbn; lia ].

Ltac call_or_fail cs :=
  apply run_bind, run_call; intros [? | ?]; [| failed_with cs].

Lemma scrape_v2_run b :
  run_from false [] (scrape_v2 b) (fun r _ t => Shape V2 b r t).
Proof.
  unfold scrape_v2.
  destruct (negb (truthy (body_query b))).
  { apply run_emit. apply Refused. }
  apply guarded_run; [reflexivity |].
  apply run_bind, run_launch; [| intros e; left; auto].
  call_or_fail (@nil nat). call_or_fail (@nil nat). call_or_fail (@nil nat).
  apply run_bind. eapply run_weaken; [apply loadEnough_tries_run |].
  intros r br t (-> & polls & -> & Hlen).
  destruct r as [[] | e]; [| failed_with polls].
  apply run_bind, run_get_handles; [intros n | intros e; failed_with polls].
  apply run_bind. eapply run_weaken;
    [apply (rounds_bound (@length JsObject) round_v2 round_v2_mute) |].
  intros r br t (-> & -> & Hdata).
  destruct r as [data | e]; [| failed_with (polls ++ [n])].
  apply run_emit. split; [reflexivity |]. exists polls, n, data.
  split; [cbn; rewrite ?map_app, <- ?app_assoc; reflexivity |].
  split; [split; [exact Hlen | discriminate] | exact Hdata].
Qed.

Lemma scrape_v3_run b :
  run_from false [] (scrape_v3 b) (fun r _ t => Shape V3 b r t).
Proof.
  unfold scrape_v3.
  destruct (negb (truthy (body_query b))).
  { apply run_emit. apply Refused. }
  apply guarded_run; [reflexivity |].
  apply run_bind, run_launch; [| intros e; left; auto].
  call_or_fail (@nil nat). call_or_fail (@nil nat). call_or_fail (@nil nat).
  apply run_bind. eapply run_weaken; [apply loadEnough_tries_run |].
  intros r br t (-> & polls & -> & Hlen).
  destruct r as [[] | e]; [| failed_with polls].
  apply run_bind, run_get_handles; [intros n | intros e; failed_with polls].
  apply run_bind. eapply run_weaken;
    [apply (rounds_bound (@length JsObject) round_v3 round_v3_mute) |].
  intros r br t (-> & -> & Hdata).
  destruct r as [data | e]; [| failed_with (polls ++ [n])].
  apply run_emit. split; [reflexivity |]. exists polls, n, data.
  split; [cbn; rewrite ?map_app, <- ?app_assoc; reflexivity |].
  split; [split; [exact Hlen | discriminate] | exact Hdata].
Qed.

Lemma scrape_v4_run b :
  run_from false [] (scrape_v4 b) (fun r _ t => Shape V4 b r t).
Proof.
  unfold scrape_v4.
  destruct (negb (truthy (body_query b))).
  { apply run_emit. apply Refused. }
  apply guarded_run; [reflexivity |].
  apply run_bind, run_launch; [| intros e; left; auto].
  call_or_fail (@nil nat). call_or_fail (@nil nat). call_or_fail (@nil nat).
  apply run_bind. eapply run_weaken; [apply loadEnough_tries_run |].
  intros r br t (-> & polls & -> & Hlen).
  destruct r as [[] | e]; [| failed_with polls].
  apply run_bind, run_get_handles; [intros n | intros e; failed_with polls].
  apply run_bind. eapply run_weaken;
    [apply (rounds_bound (@length JsObject) round_v4 round_v4_mute) |].
  intros r br t (-> & -> & Hdata).
  destruct r as [data | e]; [| failed_with (polls ++ [n])].
  apply run_emit. split; [reflexivity |]. exists polls, n, data.
  split; [cbn; rewrite ?map_app, <- ?app_assoc; reflexivity |].
  split; [split; [exact Hlen | discriminate] | exact Hdata].
Qed.

Lemma escaped_with b e cs t :
  t = Launch :: map Count cs -> length cs <= 41 ->
  Shape V1 b (Throw e) t.
Proof. intros -> Hlen. now apply Escaped. Qed.

Ltac escaped cs :=
  apply escaped_with with cs;
  [ cbn; rewrite ?map_app, <- ?app_assoc; reflexivity
  | cbn; rewrite ?length_app; cbn; lia ].

Ltac call_or_escape cs :=
  apply run_bind, run_call; intros [? | ?]; [| escaped cs].

Lemma scrape_v1_run b :
  run_from false [] (scrape_v1 b) (fun r _ t => Shape V1 b r t).
Proof.
  unfold scrape_v1.
  destruct (negb (truthy (body_query b))).
  { apply run_emit. apply Refused. }
  apply run_bind, run_launch; [| intros e; now apply NoBrowserEscaped].
  call_or_escape (@nil nat). call_or_escape (@nil nat).
  apply run_bind. eapply run_weaken.
  { apply (mute_try_catch _ _ (fun _ => True)).
    - mute_step. apply mute_call. intros; exact I.
    - intros e. apply mute_ret. exact I. }
  intros r br t (-> & -> & _).
  destruct r as [[] | e]; [| escaped (@nil nat)].
  call_or_escape (@nil nat).
  apply run_bind. eapply run_weaken; [apply loadEnough_v1_run |].
  intros r br t (-> & polls & -> & Hlen & Hstall).
  destruct r as [[] | e]; [| escaped polls].
  apply run_bind, run_count_cards; [intros n | intros e; escaped polls].
  apply run_bind. eapply run_weaken;
    [apply (rounds_bound (fun s : list JsObject * JsValue => length (fst s))
              round_v1 round_v1_mute) |].
  intros r br t (-> & -> & Hdata).
  destruct r as [s | e]; [| escaped (polls ++ [n])].
  apply run_bind, run_emit, run_close. cbn [fst] in Hdata.
  replace ((((([] ++ [Launch]) ++ map Count polls) ++ [Count n]) ++
            [Send 200 (Success (fst s))]) ++ [Close])
    with (Launch :: map Count (polls ++ [n]) ++ [Send 200 (Success (fst s)); Close]).
  2: { cbn. rewrite ?map_app, <- ?app_assoc. reflexivity. }
  apply Done; [split; [exact Hlen | intros _; exact Hstall] | exact Hdata].
Qed.

(** Every run of every handler has one of the six shapes. *)
Lemma run_shape v b w :
  Shape v b (fst (run v b w)) (trace (snd (run v b w))).
Proof.
  unfold run.
  destruct v; cbn [scrape].
  - apply (scrape_v1_run b (start w)); reflexivity.
  - apply (scrape_v2_run b (start w)); reflexivity.
  - apply (scrape_v3_run b (start w)); reflexivity.
  - apply (scrape_v4_run b (start w)); reflexivity.
Qed.

(* --------------------------------------------------------------------- *)
(** *** Reading a shape *)
(* --------------------------------------------------------------------- *)

Lemma sent_counts cs t : sent (map Count cs ++ t) = sent t.
Proof. induction cs as [| c cs IH]; [reflexivity | exact IH]. Qed.

Lemma counts_counts cs t : counts (map Count cs ++ t) = cs ++ counts t.
Proof. induction cs as [| c cs IH]; [reflexivity | cbn; now rewrite IH]. Qed.

Lemma sent_only_counts cs : sent (map Count cs) = [].
Proof. rewrite <- (app_nil_r (map Count cs)). apply sent_counts. Qed.

Lemma counts_only_counts cs : counts (map Count cs) = cs.
Proof.
  rewrite <- (app_nil_r (map Count cs)), counts_counts. cbn. apply app_nil_r.
Qed.


(** A results array was gathered after a last count of the feed, in a loop
    of at most that count and at most [limit] rounds. *)
Lemma shape_results v b r t data :
  Shape v b r t -> In (Success data) (sent t) ->
  r = Ok tt /\
  exists polls n,
    counts t = polls ++ [n] /\ polls_ok v polls /\
    length data <= rounds (Math_min (of_nat n) (limit v b)).
Proof.
  intros [| e Hg | e Hg | e cs Hg Hcs | e cs Hg Hcs | polls n data' Hp Hd] Hin;
    cbn [sent] in Hin.
  - destruct Hin as [Hin | []]. discriminate.
  - destruct Hin as [Hin | []]. discriminate.
  - destruct Hin.
  - rewrite sent_counts in Hin. destruct Hin as [Hin | []]. discriminate.
  - rewrite sent_only_counts in Hin. destruct Hin.
  - rewrite sent_counts in Hin. destruct Hin as [Hin | []].
    injection Hin as ->. split; [reflexivity |].
    exists polls, n. cbn [counts]. rewrite counts_counts. cbn.
    rewrite app_nil_r. auto.
Qed.

Lemma shape_counts v b r t :
  Shape v b r t -> length (counts t) <= S (tries v).
Proof.
  intros [| e Hg | e Hg | e cs Hg Hcs | e cs Hg Hcs | polls n data Hp Hd];
    cbn [counts length]; try lia.
  - rewrite counts_counts. cbn. now rewrite app_nil_r.
  - now rewrite counts_only_counts.
  - rewrite counts_counts. cbn. rewrite app_nil_r, length_app. cbn.
    destruct Hp as [Hp _]. lia.
Qed.



(** A call that always resolves. *)
Definition resolves {A} (op : W -> Result A * W) : Prop :=
  forall w, exists a w', op w = (Ok a, w').

(** The loader of each handler. *)
Definition loader (v : Variant) : JsNumber -> M unit :=
  match v with
  | V1 => loadEnough_v1
  | V2 => loadEnough_v2
  | V3 => loadEnough_v3
  | V4 => loadEnough_v4
  end.








(** A number, and at most [c]. *)
Definition at_most (l : JsNumber) (c : Z) : Prop :=
  match l with
  | NaN => False
  | Num z => (z <= c)%Z
  | Frac whole _ _ => (whole < c)%Z
  end.

Lemma min_at_most x c : x <> NaN -> at_most (Math_min x (Num c)) c.
Proof.
  intros Hx. destruct x as [| m | whole num rest]; [congruence | |];
    unfold Math_min; cbn [num_le].
  - destruct (Z.leb m c) eqn:Hle; cbn [at_most];
      [now apply Z.leb_le | lia].
  - destruct (Z.ltb whole c) eqn:Hlt; cbn [at_most];
      [now apply Z.ltb_lt | lia].
Qed.

Lemma or_20_is_a_number x : num_or x (Num 20) <> NaN.
Proof.
  unfold num_or. destruct x as [| m | whole num rest]; cbn [truthy];
    [discriminate | | discriminate].
  now destruct (negb (m =? 0)%Z).
Qed.

Lemma limit_is_number v b : at_most (limit v b) (ceiling v).
Proof. unfold limit, limit_of. apply min_at_most, or_20_is_a_number. Qed.

Lemma limit_not_nan v b : limit v b <> NaN.
Proof.
  intros E. pose proof (limit_is_number v b) as Hl. now rewrite E in Hl.
Qed.

(** The rounds of a loop to the smaller of a count and a number. *)
Lemma rounds_min n l :
  l <> NaN -> rounds (Math_min (of_nat n) l) = Nat.min n (rounds l).
Proof.
  intros Hl. destruct l as [| z | whole num rest]; [congruence | |];
    unfold of_nat, Math_min; cbn [num_le].
  - destruct (Z.leb (Z.of_nat n) z) eqn:Hle; cbn [rounds];
      [apply Z.leb_le in Hle | apply Z.leb_gt in Hle]; lia.
  - destruct (Z.leb (Z.of_nat n) whole) eqn:Hle; cbn [rounds];
      [apply Z.leb_le in Hle | apply Z.leb_gt in Hle]; lia.
Qed.


End Runs.

(* ===================================================================== *)
(** ** The request: query guard and limit *)
(* ===================================================================== *)

Section Request.

Context {W : Type} `{Puppeteer W} `{Builtins}.

(** C9. A request whose body has no query (or a falsy one) is answered with
    [{ success: false, message: "query is required" }] and nothing else
    happens: no browser is launched, the browser state is the one the handler
    found. This holds for the four handlers. *)
Theorem missing_query_refused (v : Variant) (b : Body) (w : W) :
  truthy (body_query b) = false ->
  run v b w =
    (Ok tt, {| world := w; browser := false; email := VUndefined;
               trace := [Send 200 (Failure "query is required")] |}).
Proof.
  intros Hq. unfold run.
  destruct v; cbn [scrape];
    unfold scrape_v1, scrape_v2, scrape_v3, scrape_v4;
    rewrite Hq; reflexivity.
Qed.

(** C10. When [max] is absent, or [Number(max)] is NaN or zero, the limit
    is 20 in the four handlers, and a results array has at most 20 records. *)
Theorem default_limit_is_20 (v : Variant) (b : Body) :
  body_max b = VUndefined \/ Number (body_max b) = NaN \/ Number (body_max b) = Num 0 ->
  limit v b = Num 20 /\
  forall (w : W) data,
    In (Success data) (sent (trace (snd (run v b w)))) -> length data <= 20.
Proof.
  intros Hmax.
  assert (Hlimit : limit v b = Num 20).
  { unfold limit, limit_of, num_or.
    destruct Hmax as [-> | [Hnan | Hzero]].
    - destruct v; reflexivity.
    - destruct (body_max b) eqn:Hb; cbn [with_default];
        first [rewrite Hnan | idtac]; destruct v; reflexivity.
    - destruct (body_max b) eqn:Hb; cbn [with_default];
        first [rewrite Hzero | idtac]; destruct v; reflexivity. }
  split; [exact Hlimit |].
  intros w data Hin.
  destruct (shape_results v b _ _ data (run_shape v b w) Hin)
    as (_ & polls & n & _ & _ & Hlen).
  rewrite Hlimit, rounds_min in Hlen by discriminate. cbn [rounds] in Hlen. lia.
Qed.


End Request.

Lemma missing_query_refused_witness :
  run V3 {| body_query := VUndefined; body_max := VNumber (Num 5) |}
      (Sim.feed [Sim.pane "Acme"] 1)
  = (Ok tt, {| world := Sim.feed [Sim.pane "Acme"] 1; browser := false;
               email := VUndefined;
               trace := [Send 200 (Failure "query is required")] |}).
Proof. apply missing_query_refused. reflexivity. Defined.

Lemma default_limit_is_20_witness :
  limit V1 (Sim.request "coffee shops" (VString "many")) = Num 20 /\
  forall (w : Sim.World) data,
    In (Success data)
       (sent (trace (snd (run V1 (Sim.request "coffee shops" (VString "many")) w)))) ->
    length data <= 20.
Proof. apply default_limit_is_20. right; left. reflexivity. Defined.



(* ===================================================================== *)
(** ** Errors and the browser session *)
(* ===================================================================== *)

(** The records of the results arrays sent, and their names. *)
Definition results (t : list Event) : list JsObject :=
  flat_map (fun body => match body with Success data => data | Failure _ => [] end)
           (sent t).

Definition names (t : list Event) : list JsValue :=
  map (field "name") (results t).





(* ===================================================================== *)
(** ** Facts about strings and patterns *)
(* ===================================================================== *)

Section Patterns.

Import Regex.

(** Every character of the string is in the class. *)
Fixpoint all_in (f : ascii -> bool) (s : string) : bool :=
  match s with
  | EmptyString => true
  | String c s' => f c && all_in f s'
  end.

Lemma span_zero f s : span f (Some 0) s = 0.
Proof. destruct s as [| c s]; cbn; [| destruct (f c)]; reflexivity. Qed.

Lemma span_le_length f bound s : span f bound s <= String.length s.
Proof.
  revert bound. induction s as [| c s IH]; intros bound; cbn; [lia |].
  destruct (f c); [| lia].
  destruct bound as [[| n] |]; [lia | |].
  - specialize (IH (Some n)). lia.
  - specialize (IH None). lia.
Qed.

Lemma take_span_all_in f bound s n :
  n <= span f bound s -> all_in f (take n s) = true.
Proof.
  revert bound n. induction s as [| c s IH]; intros bound n Hn.
  - destruct n; reflexivity.
  - destruct n as [| n]; [reflexivity |]. cbn in *.
    destruct (f c); [| lia]. cbn.
    destruct bound as [[| b] |]; [lia | |].
    + apply (IH (Some b)). lia.
    + apply (IH None). lia.
Qed.

(** The longest run stops at the first character outside the class. *)
Definition stops_here (f : ascii -> bool) (s : string) : bool :=
  match s with
  | EmptyString => true
  | String c _ => negb (f c)
  end.

Lemma span_app f s u :
  all_in f s = true -> stops_here f u = true ->
  span f None (s ++ u) = String.length s.
Proof.
  intros Hs Hu. induction s as [| c s IH]; cbn in *.
  - destruct u as [| c u]; [reflexivity |]. cbn in *.
    now destruct (f c).
  - apply andb_true_iff in Hs. destruct Hs as [Hc Hs]. rewrite Hc.
    now rewrite IH.
Qed.

Lemma take_app s u : take (String.length s) (s ++ u) = s.
Proof. induction s as [| c s IH]; cbn; [now destruct u | now rewrite IH]. Qed.

Lemma back_inv least next s k n :
  back least next s k = Some n ->
  exists j r, j <= k /\ least <= j /\ next (drop j s) = Some r /\ n = j + r.
Proof.
  induction k as [| k IH]; cbn [back].
  - destruct (Nat.ltb 0 least) eqn:Hl; [discriminate |].
    apply Nat.ltb_ge in Hl.
    destruct (next (drop 0 s)) as [r |] eqn:Hn; [| discriminate].
    intros [= <-]. exists 0, r. auto.
  - destruct (Nat.ltb (S k) least) eqn:Hl; [discriminate |].
    apply Nat.ltb_ge in Hl.
    destruct (next (drop (S k) s)) as [r |] eqn:Hn.
    + intros [= <-]. exists (S k), r. auto.
    + intros Hb. destruct (IH Hb) as (j & r & Hj & Hleast & Hr & ->).
      exists j, r. auto.
Qed.

Lemma back_first least next s k r :
  least <= k -> next (drop k s) = Some r -> back least next s k = Some (k + r).
Proof.
  intros Hl Hn. destruct k; cbn [back];
    rewrite (proj2 (Nat.ltb_ge _ _) Hl), Hn; reflexivity.
Qed.

Lemma match_chr c rest s :
  match_here (chr c :: rest) (String c s) = option_map S (match_here rest s).
Proof.
  cbn [match_here chr cls rmin rmax span]. unfold is_char.
  rewrite Ascii.eqb_refl, span_zero. cbn.
  destruct (match_here rest s); reflexivity.
Qed.

Lemma match_chr_other c rest c' s :
  c <> c' -> match_here (chr c :: rest) (String c' s) = None.
Proof.
  intros Hc. cbn [match_here chr cls rmin rmax span]. unfold is_char.
  rewrite (proj2 (Ascii.eqb_neq c c') Hc). reflexivity.
Qed.

Lemma match_chr_empty c rest : match_here (chr c :: rest) EmptyString = None.
Proof. reflexivity. Qed.

Lemma match_opt_taken c rest s r :
  match_here rest s = Some r ->
  match_here (opt c :: rest) (String c s) = Some (S r).
Proof.
  intros Hr. cbn [match_here opt cls rmin rmax span]. unfold is_char.
  rewrite Ascii.eqb_refl, span_zero. cbn. now rewrite Hr.
Qed.

Lemma match_opt_other c rest c' s :
  c <> c' ->
  match_here (opt c :: rest) (String c' s) = match_here rest (String c' s).
Proof.
  intros Hc. cbn [match_here opt cls rmin rmax span]. unfold is_char.
  rewrite (proj2 (Ascii.eqb_neq c c') Hc). cbn.
  destruct (match_here rest (String c' s)); reflexivity.
Qed.

Lemma match_class f s u :
  all_in f s = true -> stops_here f u = true -> s <> EmptyString ->
  match_here [at_least 1 f] (s ++ u) = Some (String.length s).
Proof.
  intros Hs Hu Hne. cbn [match_here at_least cls rmin rmax].
  rewrite (span_app f s u Hs Hu).
  rewrite (back_first 1 _ (s ++ u) (String.length s) 0).
  - now rewrite Nat.add_0_r.
  - destruct s; [congruence | cbn; lia].
  - reflexivity.
Qed.

(* --------------------------------------------------------------------- *)
(** *** The website pattern *)
(* --------------------------------------------------------------------- *)

Lemma url_match_https rest u :
  all_in url_char rest = true -> stops_here url_char u = true ->
  rest <> EmptyString ->
  match_here url_re ("https://" ++ rest ++ u) = Some (8 + String.length rest).
Proof.
  intros Hr Hu Hne. unfold url_re. cbn [append].
  rewrite !match_chr.
  rewrite (match_opt_taken "s" _ _ (3 + String.length rest)).
  - reflexivity.
  - rewrite !match_chr. now rewrite (match_class url_char rest u Hr Hu Hne).
Qed.

Lemma url_match_http rest u :
  all_in url_char rest = true -> stops_here url_char u = true ->
  rest <> EmptyString ->
  match_here url_re ("http://" ++ rest ++ u) = Some (7 + String.length rest).
Proof.
  intros Hr Hu Hne. unfold url_re. cbn [append].
  rewrite !match_chr.
  rewrite match_opt_other by discriminate.
  rewrite !match_chr. now rewrite (match_class url_char rest u Hr Hu Hne).
Qed.

Lemma url_match_starts s n :
  match_here url_re s = Some n -> startsWith s "http" = true.
Proof.
  unfold url_re.
  destruct s as [| c1 s]; [discriminate |].
  destruct (ascii_dec "h" c1) as [<- | N]; [| now rewrite match_chr_other].
  rewrite match_chr.
  destruct s as [| c2 s]; [discriminate |].
  destruct (ascii_dec "t" c2) as [<- | N]; [| now rewrite match_chr_other].
  rewrite match_chr.
  destruct s as [| c3 s]; [discriminate |].
  destruct (ascii_dec "t" c3) as [<- | N]; [| now rewrite match_chr_other].
  rewrite match_chr.
  destruct s as [| c4 s]; [discriminate |].
  destruct (ascii_dec "p" c4) as [<- | N]; [| now rewrite match_chr_other].
  intros _. reflexivity.
Qed.

Lemma includes_tail c s sub :
  includes (String c s) sub = false -> includes s sub = false.
Proof.
  cbn [includes]. intros Hi. apply orb_false_iff in Hi as [_ Hi]. exact Hi.
Qed.

Lemma includes_head s sub :
  includes s sub = false -> startsWith s sub = false.
Proof.
  destruct s; cbn [includes]; intros Hi; apply orb_false_iff in Hi as [Hi _];
    exact Hi.
Qed.

Lemma includes_app pre s sub :
  includes s sub = true -> includes (pre ++ s) sub = true.
Proof.
  intros Hs. induction pre as [| c pre IH]; [exact Hs |].
  cbn [append includes]. rewrite IH. apply orb_true_r.
Qed.

Ltac split_ascii :=
  repeat match goal with
         | |- context [Ascii.eqb ?a ?b] =>
             destruct (Ascii.eqb_spec a b); try subst; cbn [andb] in *
         | H : context [Ascii.eqb ?a ?b] |- _ =>
             destruct (Ascii.eqb_spec a b); try subst; cbn [andb] in *
         end.

(** No match starts in a prefix that does not contain [http], when [http]
    follows it. *)
Lemma no_http_across pre s :
  pre <> EmptyString -> includes pre "http" = false ->
  startsWith s "http" = true ->
  startsWith (pre ++ s) "http" = false.
Proof.
  intros Hne Hpre Hs.
  apply includes_head in Hpre.
  destruct s as [| a1 [| a2 [| a3 [| a4 s]]]]; cbn [startsWith] in Hs;
    split_ascii; try discriminate.
  destruct pre as [| c1 [| c2 [| c3 [| c4 pre]]]]; [congruence | | | |];
    cbn [startsWith append] in Hpre |- *; split_ascii;
    try reflexivity; try discriminate; try congruence.
Qed.

Lemma match_first_skips pre s :
  includes pre "http" = false -> startsWith s "http" = true ->
  match_first url_re (pre ++ s) = match_first url_re s.
Proof.
  intros Hpre Hs. induction pre as [| c pre IH]; [reflexivity |].
  cbn [append]. cbn [match_first].
  destruct (match_here url_re (String c (pre ++ s))) as [n |] eqn:Hm.
  - apply url_match_starts in Hm.
    change (String c (pre ++ s)) with (String c pre ++ s)%string in Hm.
    rewrite no_http_across in Hm; [discriminate | discriminate | exact Hpre | exact Hs].
  - apply IH. now apply includes_tail in Hpre.
Qed.

(** The first match of the pattern in a string where the first [http] is
    that of [http://] or [https://] and is followed by characters of a URL. *)
Lemma url_first_match pre scheme rest u :
  includes pre "http" = false ->
  scheme = "http://" \/ scheme = "https://" ->
  rest <> EmptyString -> all_in url_char rest = true ->
  stops_here url_char u = true ->
  match_first url_re (pre ++ scheme ++ rest ++ u)%string
  = Some (scheme ++ rest)%string.
Proof.
  intros Hpre Hscheme Hne Hr Hu.
  rewrite match_first_skips; [| exact Hpre | now destruct Hscheme as [-> | ->]].
  destruct Hscheme as [-> | ->].
  - destruct rest as [| c rest]; [congruence |].
    cbn [match_first append].
    change (String "h" (String "t" (String "t" (String "p" (String ":" (String "/"
              (String "/" (String c (rest ++ u)))))))))
      with ("http://" ++ String c rest ++ u)%string.
    rewrite (url_match_http (String c rest) u Hr Hu Hne).
    f_equal.
    exact (take_app ("http://" ++ String c rest)%string u).
  - destruct rest as [| c rest]; [congruence |].
    cbn [match_first append].
    change (String "h" (String "t" (String "t" (String "p" (String "s" (String ":"
              (String "/" (String "/" (String c (rest ++ u))))))))))
      with ("https://" ++ String c rest ++ u)%string.
    rewrite (url_match_https (String c rest) u Hr Hu Hne).
    f_equal.
    exact (take_app ("https://" ++ String c rest)%string u).
Qed.

End Patterns.

Section Emails.

Import Regex.

Lemma match_here_nonempty a rest s n :
  1 <= rmin a -> match_here (a :: rest) s = Some n -> take n s <> EmptyString.
Proof.
  intros Hmin Hm. cbn [match_here] in Hm.
  apply back_inv in Hm. destruct Hm as (j & r & Hj & Hleast & _ & ->).
  pose proof (span_le_length (cls a) (rmax a) s) as Hlen.
  destruct s as [| c s]; [cbn in Hj; lia |].
  destruct j as [| j]; [lia |]. discriminate.
Qed.

Lemma match_all_nonempty p :
  (forall s n, match_here p s = Some n -> take n s <> EmptyString) ->
  forall s skip, Forall (fun m => nonempty m = true) (match_all_from p skip s).
Proof.
  intros Hp.
  assert (Hne : forall m, m <> EmptyString -> nonempty m = true).
  { intros [| c m] Hm; [congruence | reflexivity]. }
  induction s as [| c s IH]; intros skip.
  - destruct skip; cbn [match_all_from]; [| constructor].
    destruct (match_here p EmptyString) as [n |] eqn:Hm; [| constructor].
    constructor; [| constructor]. apply Hne, (Hp _ _ Hm).
  - destruct skip; cbn [match_all_from]; [| apply IH].
    destruct (match_here p (String c s)) as [n |] eqn:Hm; [| apply IH].
    constructor; [| apply IH]. apply Hne, (Hp _ _ Hm).
Qed.

(** Removing the repeats does not change which address comes first among
    those that pass the filter. *)
Lemma first_kept_uniq (keep : string -> bool) l :
  forall seen, (forall x, In x seen -> keep x = false) ->
    hd_error (filter keep (uniq_from seen l)) = hd_error (filter keep l).
Proof.
  induction l as [| x l IH]; intros seen Hseen; [reflexivity |].
  cbn [uniq_from filter].
  destruct (existsb (String.eqb x) seen) eqn:Hex.
  - apply existsb_exists in Hex. destruct Hex as (y & Hy & Hxy).
    apply String.eqb_eq in Hxy. subst y.
    rewrite (Hseen x Hy). now apply IH.
  - cbn [filter]. destruct (keep x) eqn:Hk; [reflexivity |].
    apply IH. intros y [<- | Hy]; [exact Hk | now apply Hseen].
Qed.

Lemma email_match_nonempty s n :
  match_here email_re s = Some n -> take n s <> EmptyString.
Proof. unfold email_re. apply match_here_nonempty. cbn. lia. Qed.

Lemma uniq_from_incl l :
  forall seen x, In x (uniq_from seen l) -> In x l.
Proof.
  induction l as [| y l IH]; intros seen x Hin; [destruct Hin |].
  cbn [uniq_from] in Hin.
  destruct (existsb (String.eqb y) seen).
  - right. now apply IH in Hin.
  - destruct Hin as [<- | Hin]; [now left | right; now apply IH in Hin].
Qed.

Lemma extractEmail_first html :
  extractEmailFromHtml html
  = hd_error (filter not_placeholder (match_all_from email_re 0 html)).
Proof.
  unfold extractEmailFromHtml, match_global.
  pose proof (match_all_nonempty email_re email_match_nonempty html 0) as Hne.
  rewrite Forall_forall in Hne.
  destruct (match_all_from email_re 0 html) as [| m l] eqn:Hall; [reflexivity |].
  rewrite <- (first_kept_uniq not_placeholder (m :: l) []) by (intros x []).
  destruct (filter not_placeholder (uniq_from [] (m :: l))) as [| e l'] eqn:Hf;
    [reflexivity |].
  assert (Hin : In e (filter not_placeholder (uniq_from [] (m :: l))))
    by (rewrite Hf; now left).
  apply filter_In in Hin. destruct Hin as [Hin _].
  apply uniq_from_incl in Hin.
  now rewrite (Hne e Hin).
Qed.

End Emails.

Section Reviews.

Import Regex.

Ltac each_char c :=
  destruct c as [[] [] [] [] [] [] [] []]; try reflexivity; try discriminate.

Lemma digit_not_space c : is_digit c = true -> is_space c = false.
Proof. each_char c. Qed.

Lemma digit_not_x c : is_digit c = true -> one_of "xX" c = false.
Proof. each_char c. Qed.

Lemma digit_split_sign c s :
  is_digit c = true -> split_sign (String c s) = (false, String c s).
Proof. each_char c. Qed.

Lemma digits_no_hex_prefix s :
  all_in is_digit s = true -> strip_hex_prefix s = None.
Proof.
  destruct s as [| c [| x s]]; [reflexivity | each_char c |].
  cbn [all_in]. intros Hs.
  apply andb_true_iff in Hs as [_ Hs]. apply andb_true_iff in Hs as [Hx _].
  each_char c. unfold strip_hex_prefix. cbv iota. now rewrite (digit_not_x x Hx).
Qed.

Lemma digits_prefix_nonneg radix s :
  forall acc z,
    (forall a, acc = Some a -> (0 <= a)%Z) ->
    digits_prefix radix acc s = Some z -> (0 <= z)%Z.
Proof.
  induction s as [| c s IH]; intros acc z Hacc; cbn [digits_prefix].
  - intros ->. now apply Hacc.
  - destruct (digit_value c) as [d |]; [| intros ->; now apply Hacc].
    destruct (Nat.ltb d radix); [| intros ->; now apply Hacc].
    apply IH. intros a [= <-].
    destruct acc as [a0 |]; [specialize (Hacc a0 eq_refl) |]; lia.
Qed.

(** [parseInt] of a string of digits is NaN (the empty string) or a
    non-negative integer, with the radix 10 or none. *)
Lemma parseInt_digits s radix :
  all_in is_digit s = true -> radix = Some 10 \/ radix = None ->
  match parseInt s radix with
  | NaN => True
  | Num z => (0 <= z)%Z
  | Frac _ _ _ => False
  end.
Proof.
  intros Hs Hradix. unfold parseInt.
  assert (Hsplit : split_sign (trimStart s) = (false, s)).
  { destruct s as [| c s]; [reflexivity |].
    cbn [all_in] in Hs. apply andb_true_iff in Hs as [Hc _].
    cbn [trimStart]. rewrite (digit_not_space c Hc).
    now apply digit_split_sign. }
  rewrite Hsplit, (digits_no_hex_prefix s Hs).
  destruct Hradix as [-> | ->];
    (destruct (digits_prefix 10 None s) as [z |] eqn:Hd; [| exact I]);
    apply (digits_prefix_nonneg 10 s None z); [discriminate | exact Hd
                                              | discriminate | exact Hd].
Qed.

Lemma count_match_chars label m :
  match_first count_re label = Some m -> all_in count_char m = true.
Proof.
  assert (Hhere : forall s n, match_here count_re s = Some n ->
                              all_in count_char (take n s) = true).
  { intros s n Hm. unfold count_re in Hm. cbn [match_here] in Hm.
    apply back_inv in Hm. destruct Hm as (j & r & Hj & _ & Hr & ->).
    cbn in Hr. injection Hr as <-. rewrite Nat.add_0_r.
    now apply (take_span_all_in count_char None). }
  induction label as [| c label IH]; cbn [match_first].
  - destruct (match_here count_re EmptyString) as [n |] eqn:Hm; [| discriminate].
    intros [= <-]. now apply Hhere.
  - destruct (match_here count_re (String c label)) as [n |] eqn:Hm; [| exact IH].
    intros [= <-]. now apply Hhere.
Qed.

Lemma remove_leaves_digits (rm : ascii -> bool) m :
  (forall c, count_char c = true -> rm c = false -> is_digit c = true) ->
  all_in count_char m = true -> all_in is_digit (remove_class rm m) = true.
Proof.
  intros Hrm. induction m as [| c m IH]; [reflexivity |].
  cbn [all_in remove_class]. intros Hm.
  apply andb_true_iff in Hm as [Hc Hm].
  destruct (rm c) eqn:Hr; [now apply IH |].
  cbn [all_in]. now rewrite (Hrm c Hc Hr), IH.
Qed.

Lemma separators_removed c :
  count_char c = true -> one_of ",." c = false -> is_digit c = true.
Proof.
  unfold count_char. intros Hc Hs. rewrite Hs in Hc. now rewrite orb_false_r in Hc.
Qed.

(** What [place.reviews || 0] is, for the three handlers that write it. *)
Definition is_count (v : JsValue) : Prop :=
  exists z, v = VNumber (Num z) /\ (0 <= z)%Z.

Lemma count_or_zero n :
  match n with NaN => True | Num z => (0 <= z)%Z | Frac _ _ _ => False end ->
  is_count (js_or (VNumber n) (VNumber (Num 0))).
Proof.
  intros Hn. unfold js_or. destruct n as [| z | whole num rest]; cbn [truthy].
  - exists 0%Z. split; [reflexivity | lia].
  - destruct (negb (z =? 0)%Z); [exists z | exists 0%Z]; split;
      try reflexivity; lia.
  - destruct Hn.
Qed.

Lemma reviews_v1_count bs :
  is_count (js_or (VNumber (reviews_v1 bs)) (VNumber (Num 0))).
Proof.
  apply count_or_zero. unfold reviews_v1.
  destruct (find is_reviews_button bs) as [revBtn |]; [| cbn; lia].
  destruct (match_first count_re (or_empty (aria_label revBtn))) as [m |] eqn:Hm;
    [| cbn; lia].
  apply parseInt_digits; [| now left].
  apply remove_leaves_digits; [| exact (count_match_chars _ _ Hm)].
  intros c Hc Hr. apply orb_false_iff in Hr as [Hr _].
  now apply separators_removed.
Qed.

Lemma reviews_v3_count bs :
  is_count (js_or (reviews_v3 bs) (VNumber (Num 0))).
Proof.
  unfold reviews_v3.
  destruct (find is_reviews_button bs) as [reviewsBtn |];
    [| exists 0%Z; split; [reflexivity | lia]].
  destruct (match_first count_re (or_empty (aria_label reviewsBtn))) as [m |] eqn:Hm;
    [| exists 0%Z; split; [reflexivity | lia]].
  apply count_or_zero, parseInt_digits; [| now right].
  apply remove_leaves_digits; [| exact (count_match_chars _ _ Hm)].
  intros c Hc Hr. now apply separators_removed.
Qed.

End Reviews.

(* ===================================================================== *)
(** ** The fields *)
(* ===================================================================== *)

(** C5, as the code has it. The website is the leftmost match of the
    pattern in the href: when the first [http] of the href opens [http://]
    or [https://] followed by one character at least that is neither white
    space nor a double quote, the website starts there and runs to the next
    white space or double quote, or to the end. What precedes that first
    [http] is dropped; what follows it is kept, a wrapped URL included. *)
Theorem website_is_first_url (pre scheme rest u : string) :
  includes pre "http" = false ->
  scheme = "http://" \/ scheme = "https://" ->
  rest <> EmptyString ->
  all_in Regex.url_char rest = true ->
  stops_here Regex.url_char u = true ->
  clean_website_v1 (pre ++ scheme ++ rest ++ u) = (scheme ++ rest)%string /\
  clean_website (VString (pre ++ scheme ++ rest ++ u)) = VString (scheme ++ rest).
Proof.
  intros Hpre Hscheme Hne Hr Hu.
  assert (Hfull : nonempty (pre ++ scheme ++ rest ++ u) = true).
  { destruct pre; [| reflexivity]. now destruct Hscheme as [-> | ->]. }
  assert (Hhttp : includes (pre ++ scheme ++ rest ++ u) "http" = true).
  { apply includes_app. now destruct Hscheme as [-> | ->]. }
  assert (Hm : nonempty (scheme ++ rest) = true).
  { now destruct Hscheme as [-> | ->]. }
  unfold clean_website_v1, clean_website.
  rewrite Hfull, Hhttp. cbn [andb].
  rewrite (url_first_match pre scheme rest u Hpre Hscheme Hne Hr Hu).
  split; [reflexivity |].
  unfold js_or. cbn [of_option truthy]. fold (nonempty (scheme ++ rest)).
  now rewrite Hm.
Qed.

Lemma website_is_first_url_witness :
  clean_website_v1 "/url?q=https://acme.test/menu x" = "https://acme.test/menu" /\
  clean_website (VString "/url?q=https://acme.test/menu x")
  = VString "https://acme.test/menu".
Proof.
  apply (website_is_first_url "/url?q=" "https://" "acme.test/menu" " x").
  - reflexivity.
  - right. reflexivity.
  - discriminate.
  - reflexivity.
  - reflexivity.
Defined.

(** C5 as stated fails on its own example: the href starts with
    [https://], so the first match is the whole href, and the website of the
    record is the wrapper, in the four handlers. *)
Lemma wrapper_is_returned :
  let href := "https://track.example/redirect?u=https://acme.test/" in
  let pane := Sim.pane_with_website "Acme" href in
  clean_website_v1 href = href /\
  clean_website (VString href) = VString href /\
  href <> "https://acme.test/" /\
  field "website" (record_of (extract_v1 pane) (VString "")) = VString href /\
  field "website" (extract_v2 pane) = VString href /\
  field "website" (record_of (extract_v3 pane) (VString "")) = VString href /\
  field "website" (record_of_v4 (extract_v4 pane)) = VString href.
Proof.
  cbv zeta. repeat split; try (vm_compute; reflexivity). discriminate.
Qed.

(** C7. The extractor returns the first address, in document order, that
    matches the pattern and does not contain [example.] once in lower case;
    so no address it returns contains [example.] in any case, and markup
    with info@example.com before sales@realbiz.com gives sales@realbiz.com. *)
Theorem extractEmail_skips_placeholders :
  (forall html,
      extractEmailFromHtml html
      = hd_error (filter not_placeholder
                         (Regex.match_all_from Regex.email_re 0 html)))
  /\
  (forall html,
      match extractEmailFromHtml html with
      | Some e => includes (toLowerCase e) "example." = false
      | None => True
      end)
  /\
  extractEmailFromHtml
    "<a href='mailto:Info@Example.com'>Info@Example.com</a> <p>sales@realbiz.com</p>"
  = Some "sales@realbiz.com".
Proof.
  split; [exact extractEmail_first |]. split; [| reflexivity].
  intros html. rewrite extractEmail_first.
  destruct (filter not_placeholder (Regex.match_all_from Regex.email_re 0 html))
    as [| e l] eqn:Hf; [exact I |].
  assert (Hin : In e (filter not_placeholder
                        (Regex.match_all_from Regex.email_re 0 html)))
    by (rewrite Hf; now left).
  apply filter_In in Hin. destruct Hin as [_ Hkeep].
  unfold not_placeholder in Hkeep. cbn [hd_error].
  now apply negb_true_iff in Hkeep.
Qed.

(** C6. V1, V3 and V4 write [reviews] as a non-negative integer: the first
    run of digits, commas and dots of the label, without its commas and dots,
    read by [parseInt], and 0 when there is no label or no digit. V2 pushes
    the place as read: its [reviews] is the string of digits, and the empty
    string when there is no label. *)
Theorem reviews_is_a_string_in_v2 :
  let feed :=
    Sim.feed [Sim.pane_with_reviews "Acme" "1,234 reviews"; Sim.pane "Bolt"] 2 in
  let request := Sim.request "coffee shops" (VNumber (Num 5)) in
  let reviews v := map (field "reviews") (results (trace (snd (run v request feed)))) in
  reviews V2 = [VString "1234"; VString ""] /\
  reviews V1 = [VNumber (Num 1234); VNumber (Num 0)] /\
  reviews V3 = [VNumber (Num 1234); VNumber (Num 0)] /\
  reviews V4 = [VNumber (Num 1234); VNumber (Num 0)] /\
  (forall d e, is_count (field "reviews" (record_of (extract_v1 d) e))) /\
  (forall d e, is_count (field "reviews" (record_of (extract_v3 d) e))) /\
  (forall d, is_count (field "reviews" (record_of_v4 (extract_v4 d)))).
Proof.
  cbv zeta.
  split; [vm_compute; reflexivity |].
  split; [vm_compute; reflexivity |].
  split; [vm_compute; reflexivity |].
  split; [vm_compute; reflexivity |].
  split; [| split].
  - intros d e.
    change (field "reviews" (record_of (extract_v1 d) e))
      with (js_or (VNumber (reviews_v1 (buttons d))) (VNumber (Num 0))).
    apply reviews_v1_count.
  - intros d e.
    change (field "reviews" (record_of (extract_v3 d) e))
      with (js_or (reviews_v3 (buttons d)) (VNumber (Num 0))).
    apply reviews_v3_count.
  - intros d.
    change (field "reviews" (record_of_v4 (extract_v4 d)))
      with (js_or (reviews_v3 (buttons d)) (VNumber (Num 0))).
    apply reviews_v3_count.
Qed.

(* ===================================================================== *)
(** ** The cursor of V1 *)
(* ===================================================================== *)

(** V1 reads the pane twice in a round: once for the name it compares with
    [lastName], once for the record. [settled] says that reading the
    document does not change it: a read that follows a read finds the same
    document. *)
Section Cursor.

Context {W : Type} `{Puppeteer W} `{Builtins}.

Definition settled : Prop :=
  forall (w : W) d w', snapshot w = (Ok d, w') ->
                       exists w'', snapshot w' = (Ok d, w'').

(** [leads m st Q]: run from [st], [m] ends with a result and a state that
    satisfy [Q]. *)
Definition leads {A} (m : M A) (st : St W) (Q : Result A -> St W -> Prop) : Prop :=
  Q (fst (m st)) (snd (m st)).

Lemma leads_ret {A} (a : A) st (Q : Result A -> St W -> Prop) :
  Q (Ok a) st -> leads (ret a) st Q.
Proof. exact (fun HQ => HQ). Qed.

Lemma leads_bind {A B} (m : M A) (k : A -> M B) st (Q : Result B -> St W -> Prop) :
  leads m st
    (fun r st' =>
       match r with
       | Ok a => leads (k a) st' Q
       | Throw e => Q (Throw e) st'
       end) ->
  leads (bind m k) st Q.
Proof.
  unfold leads, bind. destruct (m st) as [[a | e] st']; cbn; exact (fun HQ => HQ).
Qed.

Lemma leads_call {A} (op : W -> Result A * W) st (Q : Result A -> St W -> Prop) :
  (forall r w', op (world st) = (r, w') ->
                Q r {| world := w'; browser := browser st; email := email st;
                       trace := trace st |}) ->
  leads (call op) st Q.
Proof.
  intros HQ. unfold leads, call.
  destruct (op (world st)) as [r w'] eqn:E. cbn. now apply HQ.
Qed.

Lemma leads_wait ms st (Q : Result unit -> St W -> Prop) :
  Q (Ok tt) {| world := sleep ms (world st); browser := browser st;
               email := email st; trace := trace st |} ->
  leads (wait ms) st Q.
Proof. exact (fun HQ => HQ). Qed.

Lemma leads_emit e st (Q : Result unit -> St W -> Prop) :
  Q (Ok tt) {| world := world st; browser := browser st; email := email st;
               trace := trace st ++ [e] |} ->
  leads (emit e) st Q.
Proof. exact (fun HQ => HQ). Qed.

Lemma leads_try_catch {A} (m : M A) (h : string -> M A) st
      (Q : Result A -> St W -> Prop) :
  leads m st
    (fun r st' =>
       match r with
       | Ok a => Q (Ok a) st'
       | Throw e => leads (h e) st' Q
       end) ->
  leads (try_catch m h) st Q.
Proof.
  unfold leads, try_catch. destruct (m st) as [[a | e] st']; cbn;
    exact (fun HQ => HQ).
Qed.

Lemma leads_weaken {A} (m : M A) st (P Q : Result A -> St W -> Prop) :
  leads m st P -> (forall r st', P r st' -> Q r st') -> leads m st Q.
Proof. unfold leads. intros HP HPQ. now apply HPQ. Qed.

(** What is known of a run through [browser] and the events holds of it. *)
Lemma leads_of_run {A} (m : M A) st (P : Post A) :
  run_from (browser st) (trace st) m P ->
  leads m st (fun r st' => P r (browser st') (trace st')).
Proof. intros Hm. now apply Hm. Qed.

(** No two neighbours of the list are equal. *)
Fixpoint no_repeat (l : list JsValue) : Prop :=
  match l with
  | a :: (b :: _) as l' => a <> b /\ no_repeat l'
  | _ => True
  end.

(** A non-empty string. *)
Definition named (v : JsValue) : Prop :=
  exists s, v = VString s /\ s <> EmptyString.

Lemma no_repeat_snoc l x :
  no_repeat l -> last l VNull <> x -> no_repeat (l ++ [x]).
Proof.
  induction l as [| a [| b l] IH]; intros Hl Hx.
  - exact I.
  - cbn in *. auto.
  - destruct Hl as [Hab Hl]. split; [exact Hab |].
    apply IH; [exact Hl | exact Hx].
Qed.

(** The names of [data] are non-empty strings, no two neighbours equal, and
    [lastName] is the last of them (null when there is none). *)
Definition cursor_ok (s : list JsObject * JsValue) : Prop :=
  no_repeat (map (field "name") (fst s)) /\
  Forall named (map (field "name") (fst s)) /\
  last (map (field "name") (fst s)) VNull = snd s.

(** The name compared and the name recorded are read the same way. *)
Lemma name_of_record d e :
  field "name" (record_of (extract_v1 d) e) = read_name_v1 d.
Proof.
  change (field "name" (record_of (extract_v1 d) e))
    with (js_or (VString (str_or (pickText (textContent d "h1.DUwDvf"))
                                 (pickText (textContent d (sel "h1[aria-level=`1`]")))))
                (VString "")).
  unfold read_name_v1, pickText, opt_trim.
  destruct (textContent d "h1.DUwDvf") as [a |];
    destruct (textContent d (sel "h1[aria-level=`1`]")) as [b |];
    repeat match goal with
           | |- context [trim ?x] => generalize (trim x); intros [| ? ?]
           end; reflexivity.
Qed.

Lemma read_name_is_string d : exists s, read_name_v1 d = VString s.
Proof.
  unfold read_name_v1, opt_trim.
  destruct (textContent d "h1.DUwDvf") as [a |];
    destruct (textContent d (sel "h1[aria-level=`1`]")) as [b |];
    repeat match goal with
           | |- context [trim ?x] => generalize (trim x); intros [| ? ?]
           end; cbn; eauto.
Qed.

Lemma strict_eq_neq s v : strict_eq (VString s) v = false -> v <> VString s.
Proof.
  intros Hs ->. cbn in Hs. now rewrite String.eqb_refl in Hs.
Qed.

Definition unchanged_but (st : St W) (Q : list JsObject * JsValue -> Prop)
  : Result (list JsObject * JsValue) -> St W -> Prop :=
  fun r st' =>
    browser st' = browser st /\ trace st' = trace st /\
    match r with Ok s' => Q s' | Throw _ => True end.

Lemma round_v1_cursor i s st :
  settled -> cursor_ok s -> leads (round_v1 i s) st (unchanged_but st cursor_ok).
Proof.
  intros Hsettled Hok. destruct s as [data lastName]. unfold round_v1.
  assert (Hskip : forall w e,
             unchanged_but st cursor_ok (Ok (data, lastName))
               {| world := w; browser := browser st; email := e; trace := trace st |}).
  { intros w e. split; [reflexivity | split; [reflexivity | exact Hok]]. }
  apply leads_bind, leads_call. intros [[|] | e] w1 _; cbn [negb].
  3: { split; [reflexivity | split; [reflexivity | exact I]]. }
  2: { apply leads_ret, Hskip. }
  apply leads_bind, leads_wait. apply leads_bind, leads_try_catch.
  apply leads_bind, leads_call. intros [[] | e] w2 _.
  2: { apply leads_ret. apply leads_ret, Hskip. }
  apply leads_bind, leads_call. intros [d | e] w3 Hsnap.
  2: { apply leads_ret. apply leads_ret, Hskip. }
  apply leads_ret.
  destruct (negb (truthy (read_name_v1 d)) || strict_eq (read_name_v1 d) lastName)
    eqn:Hc.
  { apply leads_ret, Hskip. }
  apply orb_false_iff in Hc as [Htruthy Hstrict].
  apply negb_false_iff in Htruthy.
  apply leads_bind, leads_call. intros r w4 Hsnap2. cbn [world] in Hsnap, Hsnap2.
  destruct (Hsettled _ _ _ Hsnap) as (w5 & Hagain).
  rewrite Hagain in Hsnap2. injection Hsnap2 as <- <-.
  apply leads_ret. split; [reflexivity |]. split; [reflexivity |].
  destruct Hok as (Hrep & Hnamed & Hlast). cbn [fst snd] in *.
  destruct (read_name_is_string d) as (name & Hname).
  unfold cursor_ok. cbn [fst snd]. rewrite map_app. cbn [map].
  rewrite (name_of_record d (VString "")), Hname.
  rewrite Hname in Htruthy, Hstrict.
  split; [| split].
  - apply no_repeat_snoc; [exact Hrep |].
    rewrite Hlast. now apply strict_eq_neq.
  - apply Forall_app. split; [exact Hnamed |].
    constructor; [| constructor]. exists name. split; [reflexivity |].
    intros ->. discriminate.
  - apply last_last.
Qed.

Lemma loop_v1_cursor n :
  settled ->
  forall i s st, cursor_ok s ->
    leads (for_each n i round_v1 s) st (unchanged_but st cursor_ok).
Proof.
  intros Hsettled. induction n as [| n IH]; intros i s st Hok; cbn [for_each].
  - apply leads_ret. split; [reflexivity | split; [reflexivity | exact Hok]].
  - apply leads_bind.
    eapply leads_weaken; [apply (round_v1_cursor i s st Hsettled Hok) |].
    intros [s' | e] st' (Hb & Ht & Hs');
      [| split; [exact Hb | split; [exact Ht | exact I]]].
    eapply leads_weaken; [apply (IH (S i) s' st' Hs') |].
    intros r st'' (Hb' & Ht' & Hr).
    split; [congruence | split; [congruence | exact Hr]].
Qed.

Lemma sent_app t u : sent (t ++ u) = sent t ++ sent u.
Proof.
  induction t as [| e t IH]; [reflexivity |].
  destruct e; cbn; now rewrite IH.
Qed.

(** The names of a results array: non-empty strings, no two neighbours
    equal. *)
Definition deduplicated (data : list JsObject) : Prop :=
  no_repeat (map (field "name") data) /\ Forall named (map (field "name") data).

Definition results_deduplicated : Result unit -> St W -> Prop :=
  fun _ st' => forall data, In (Success data) (sent (trace st')) -> deduplicated data.

Lemma nothing_sent r (st : St W) :
  sent (trace st) = [] -> results_deduplicated r st.
Proof. intros Hs data Hin. rewrite Hs in Hin. destruct Hin. Qed.

Lemma leads_launch st (Q : Result unit -> St W -> Prop) :
  (forall w', Q (Ok tt) {| world := w'; browser := true; email := email st;
                           trace := trace st ++ [Launch] |}) ->
  (forall e w', Q (Throw e) {| world := w'; browser := browser st;
                               email := email st; trace := trace st |}) ->
  leads launch_browser st Q.
Proof.
  intros Hok Hth. unfold launch_browser. apply leads_bind, leads_call.
  intros [[] | e] w' _; [apply Hok | apply Hth].
Qed.

Lemma scrape_v1_cursor b st :
  settled -> sent (trace st) = [] ->
  leads (scrape_v1 b) st results_deduplicated.
Proof.
  intros Hsettled Hsent. unfold scrape_v1.
  destruct (negb (truthy (body_query b))).
  { apply leads_emit. intros data Hin. cbn [trace] in Hin.
    rewrite sent_app, Hsent in Hin. destruct Hin as [Hin | []]. discriminate. }
  apply leads_bind, leads_launch; [intros w1 | intros e w1; now apply nothing_sent].
  assert (Hsent1 : sent (trace st ++ [Launch]) = []).
  { now rewrite sent_app, Hsent. }
  apply leads_bind, leads_call. intros [[] | e] w2 _; [| now apply nothing_sent].
  apply leads_bind, leads_call. intros [[] | e] w3 _; [| now apply nothing_sent].
  cbn [world browser email trace].
  apply leads_bind. eapply leads_weaken.
  { apply leads_of_run.
    apply (mute_try_catch _ _ (fun _ => True)).
    - eapply mute_bind with (P := fun _ => True);
        [apply mute_call; intros; exact I | intros ? _].
      apply mute_call. intros; exact I.
    - intros e. apply mute_ret. exact I. }
  cbn beta. intros r st4 (Hb4 & Ht4 & _). cbn [browser trace] in Hb4, Ht4.
  destruct r as [[] | e]; [| apply nothing_sent; now rewrite Ht4].
  apply leads_bind, leads_call. intros [[] | e] w5 _;
    [| apply nothing_sent; cbn [trace]; now rewrite Ht4].
  apply leads_bind. eapply leads_weaken.
  { apply leads_of_run, loadEnough_v1_run. }
  cbn beta. intros r st6 (Hb6 & polls & Ht6 & _). cbn [browser trace] in Hb6, Ht6.
  assert (Hsent6 : sent (trace st6) = []).
  { rewrite Ht6, Ht4, sent_app, Hsent1. apply sent_only_counts. }
  destruct r as [[] | e]; [| now apply nothing_sent].
  apply leads_bind. eapply leads_weaken.
  { apply leads_of_run.
    apply (run_count_cards _ _ _
             (fun r b' t' => b' = browser st6 /\
                             exists cs, t' = trace st6 ++ map Count cs)).
    - intros n. split; [reflexivity |]. now exists [n].
    - intros e. split; [reflexivity |]. exists []. cbn. now rewrite app_nil_r. }
  cbn beta. intros r st7 (Hb7 & cs & Ht7).
  assert (Hsent7 : sent (trace st7) = []).
  { rewrite Ht7, sent_app, Hsent6. apply sent_only_counts. }
  destruct r as [n | e]; [| now apply nothing_sent].
  apply leads_bind. eapply leads_weaken.
  { apply (loop_v1_cursor _ Hsettled 0 ([], VNull) st7).
    split; [exact I | split; [constructor | reflexivity]]. }
  intros r st8 (Hb8 & Ht8 & Hs).
  destruct r as [s | e]; [| apply nothing_sent; now rewrite Ht8].
  apply leads_bind, leads_emit. eapply leads_weaken.
  { apply leads_of_run.
    apply (run_close _ _
             (fun _ _ t' => exists u, t' = (trace st8 ++ [Send 200 (Success (fst s))]) ++ u
                                      /\ sent u = [])).
    cbn [browser trace]. destruct (browser st8).
    - exists [Close]. auto.
    - exists []. now rewrite app_nil_r. }
  cbn beta. intros r st9 (u & Ht9 & Hu) data Hin.
  rewrite Ht9, !sent_app, Hu, Ht8, Hsent7 in Hin. cbn in Hin.
  destruct Hin as [[= <-] | []].
  destruct Hs as (Hrep & Hnamed & _). now split.
Qed.

End Cursor.

(** The scripted browser is settled. *)
Lemma sim_settled : @settled Sim.World Sim.browser.
Proof. intros w d w' [= <- <-]. eexists. reflexivity. Qed.

(** C3. V2, V3 and V4 push one record per entry and compare no names: two
    entries in a row whose panes show the same name give two records in a
    row of that name. V1, on the same feed, keeps the first of them; and
    whenever the browser is settled, every results array of V1 has non-empty
    names of which no two neighbours are equal. *)
Theorem consecutive_duplicates_kept :
  (let feed := Sim.feed [Sim.pane "Acme"; Sim.pane "Acme"; Sim.pane "Bolt"] 3 in
   let request := Sim.request "coffee shops" (VNumber (Num 5)) in
   names (trace (snd (run V3 request feed)))
     = [VString "Acme"; VString "Acme"; VString "Bolt"] /\
   names (trace (snd (run V2 request feed)))
     = [VString "Acme"; VString "Acme"; VString "Bolt"] /\
   names (trace (snd (run V4 request feed)))
     = [VString "Acme"; VString "Acme"; VString "Bolt"] /\
   names (trace (snd (run V1 request feed))) = [VString "Acme"; VString "Bolt"])
  /\
  (forall (W : Type) (P : Puppeteer W) (B : Builtins),
      settled ->
      forall b (w : W) data,
        In (Success data) (sent (trace (snd (run V1 b w)))) -> deduplicated data).
Proof.
  split.
  - cbv zeta. repeat split; vm_compute; reflexivity.
  - intros W P B Hsettled b w data Hin.
    exact (scrape_v1_cursor b (start w) Hsettled eq_refl data Hin).
Qed.

(* ===================================================================== *)
(** ** More on the patterns: what a match is made of *)
(* ===================================================================== *)

Section Matches.

Import Regex.

(** The characters some class of the pattern accepts. *)
Definition any_class (p : list Atom) (c : ascii) : bool :=
  existsb (fun a => cls a c) p.

Lemma all_in_app f s u : all_in f (s ++ u) = all_in f s && all_in f u.
Proof.
  induction s as [| c s IH]; [reflexivity |].
  cbn [append all_in]. rewrite IH. apply andb_assoc.
Qed.

Lemma all_in_weaken (f g : ascii -> bool) s :
  (forall c, f c = true -> g c = true) -> all_in f s = true -> all_in g s = true.
Proof.
  intros Hfg. induction s as [| c s IH]; [reflexivity |].
  cbn [all_in]. intros Hs. apply andb_true_iff in Hs as [Hc Hs].
  now rewrite (Hfg c Hc), IH.
Qed.

Lemma take_add j r s : take (j + r) s = (take j s ++ take r (drop j s))%string.
Proof.
  revert s. induction j as [| j IH]; intros s.
  - reflexivity.
  - destruct s as [| c s]; cbn [Nat.add take drop append].
    + now destruct r.
    + now rewrite IH.
Qed.

Lemma drop_drop j k s : drop j (drop k s) = drop (k + j) s.
Proof.
  revert s. induction k as [| k IH]; intros s; [reflexivity |].
  destruct s as [| c s]; cbn [Nat.add drop]; [now destruct j | apply IH].
Qed.

(** A match is made of characters of the classes of the pattern. *)
Lemma match_here_chars p :
  forall s n, match_here p s = Some n -> all_in (any_class p) (take n s) = true.
Proof.
  induction p as [| a rest IH]; intros s n Hm.
  - injection Hm as <-. now destruct s.
  - cbn [match_here] in Hm. apply back_inv in Hm.
    destruct Hm as (j & r & Hj & _ & Hr & ->).
    rewrite take_add, all_in_app. apply andb_true_iff. split.
    + apply (all_in_weaken (cls a)).
      * intros c Hc. unfold any_class. cbn [existsb]. now rewrite Hc.
      * now apply (take_span_all_in (cls a) (rmax a)).
    + apply (all_in_weaken (any_class rest)).
      * intros c Hc. unfold any_class in *. cbn [existsb]. rewrite Hc.
        apply orb_true_r.
      * now apply IH.
Qed.

(** The leftmost match is the match at some position of the string. *)
Lemma match_first_inv p :
  forall s m, match_first p s = Some m ->
    exists k n, match_here p (drop k s) = Some n /\ m = take n (drop k s).
Proof.
  induction s as [| c s IH]; intros m; cbn [match_first].
  - destruct (match_here p EmptyString) as [n |] eqn:Hm; [| discriminate].
    intros [= <-]. now exists 0, n.
  - destruct (match_here p (String c s)) as [n |] eqn:Hm.
    + intros [= <-]. now exists 0, n.
    + intros Hf. destruct (IH m Hf) as (k & n & Hk & ->). now exists (S k), n.
Qed.

Lemma match_all_inv p :
  forall s skip m, In m (match_all_from p skip s) ->
    exists k n, match_here p (drop k s) = Some n /\ m = take n (drop k s).
Proof.
  induction s as [| c s IH]; intros skip m.
  - destruct skip; cbn [match_all_from]; [| intros []].
    destruct (match_here p EmptyString) as [n |] eqn:Hm; [| intros []].
    intros [<- | []]. now exists 0, n.
  - assert (Hrest : forall skip', In m (match_all_from p skip' s) ->
                exists k n, match_here p (drop k (String c s)) = Some n /\
                            m = take n (drop k (String c s))).
    { intros skip' Hin. destruct (IH skip' m Hin) as (k & n & Hk & ->).
      now exists (S k), n. }
    destruct skip; cbn [match_all_from]; [| apply Hrest].
    destruct (match_here p (String c s)) as [n |] eqn:Hm; [| apply Hrest].
    intros [<- | Hin]; [now exists 0, n | now apply Hrest in Hin].
Qed.

(** [includes] and [startsWith], as the strings they speak of. *)
Lemma startsWith_app sub u : startsWith (sub ++ u) sub = true.
Proof.
  induction sub as [| c sub IH]; [reflexivity |].
  cbn [append startsWith]. now rewrite Ascii.eqb_refl, IH.
Qed.

Lemma startsWith_inv s sub :
  startsWith s sub = true -> exists u, s = (sub ++ u)%string.
Proof.
  revert s. induction sub as [| c sub IH]; intros s Hs.
  - now exists s.
  - destruct s as [| c' s]; [discriminate |]. cbn [startsWith] in Hs.
    apply andb_true_iff in Hs as [Hc Hs]. apply Ascii.eqb_eq in Hc. subst c'.
    destruct (IH s Hs) as (u & ->). now exists u.
Qed.

Lemma includes_inv s sub :
  includes s sub = true -> exists pre u, s = (pre ++ sub ++ u)%string.
Proof.
  induction s as [| c s IH]; cbn [includes]; intros Hs.
  - rewrite orb_false_r in Hs. destruct (startsWith_inv _ _ Hs) as (u & E).
    now exists EmptyString, u.
  - apply orb_true_iff in Hs as [Hs | Hs].
    + destruct (startsWith_inv _ _ Hs) as (u & E). now exists EmptyString, u.
    + destruct (IH Hs) as (pre & u & ->). now exists (String c pre), u.
Qed.

Lemma includes_intro pre sub u : includes (pre ++ sub ++ u) sub = true.
Proof.
  apply includes_app. destruct (sub ++ u)%string eqn:E; cbn [includes];
    rewrite <- E, startsWith_app; reflexivity.
Qed.

Lemma append_assoc (a b c : string) : ((a ++ b) ++ c = a ++ b ++ c)%string.
Proof. induction a as [| x a IH]; [reflexivity | cbn; now rewrite IH]. Qed.

Lemma includes_trans a b c :
  includes a b = true -> includes b c = true -> includes a c = true.
Proof.
  intros Hab Hbc.
  destruct (includes_inv _ _ Hab) as (p1 & u1 & ->).
  destruct (includes_inv _ _ Hbc) as (p2 & u2 & ->).
  replace (p1 ++ (p2 ++ c ++ u2) ++ u1)%string
    with ((p1 ++ p2) ++ c ++ (u2 ++ u1))%string.
  - apply includes_intro.
  - now rewrite !append_assoc.
Qed.

Lemma take_drop s n : s = (take n s ++ drop n s)%string.
Proof.
  revert s. induction n as [| n IH]; intros s; [reflexivity |].
  destruct s as [| c s]; [reflexivity |]. cbn [take drop append]. now rewrite <- IH.
Qed.

(** A part of a string taken at some position occurs in the string. *)
Lemma includes_slice s k n : includes s (take n (drop k s)) = true.
Proof.
  rewrite (take_drop s k) at 1. rewrite (take_drop (drop k s) n) at 1.
  apply includes_intro.
Qed.

End Matches.

(* ===================================================================== *)
(** ** More on the fields *)
(* ===================================================================== *)

Section Fields.

Import Regex.

Ltac any_char c :=
  destruct c as [[] [] [] [] [] [] [] []]; try reflexivity; try discriminate.

Lemma url_match_shape s n :
  match_here url_re s = Some n ->
  exists s4 n', s = ("http" ++ s4)%string /\ n = 4 + n'.
Proof.
  unfold url_re.
  destruct s as [| c1 s]; [discriminate |].
  destruct (ascii_dec "h" c1) as [<- | N]; [| now rewrite match_chr_other].
  rewrite match_chr.
  destruct s as [| c2 s]; [discriminate |].
  destruct (ascii_dec "t" c2) as [<- | N]; [| now rewrite match_chr_other].
  rewrite match_chr.
  destruct s as [| c3 s]; [discriminate |].
  destruct (ascii_dec "t" c3) as [<- | N]; [| now rewrite match_chr_other].
  rewrite match_chr.
  destruct s as [| c4 s]; [discriminate |].
  destruct (ascii_dec "p" c4) as [<- | N]; [| now rewrite match_chr_other].
  rewrite match_chr.
  match goal with |- context [match_here ?r s] => destruct (match_here r s) as [n' |] end;
    [| discriminate].
  intros [= <-]. now exists s, n'.
Qed.

Lemma url_classes c : any_class url_re c = true -> url_char c = true.
Proof. any_char c. Qed.

(** X1. What the website of a record is, for every href. When the pattern
    matches somewhere, the website is the leftmost match: a part of the href
    that starts with [http] and has no white space and no double quote in it.
    When it matches nowhere, the website is the href as it was read. *)
Theorem website_is_a_clean_part_of_the_href (href : string) :
  match match_first url_re href with
  | Some m =>
      clean_website_v1 href = m /\
      clean_website (VString href) = VString m /\
      includes href m = true /\
      startsWith m "http" = true /\
      all_in url_char m = true
  | None =>
      clean_website_v1 href = href /\
      clean_website (VString href) = VString href
  end.
Proof.
  destruct (match_first url_re href) as [m |] eqn:Hm.
  - destruct (match_first_inv _ _ _ Hm) as (k & n & Hk & ->).
    destruct (url_match_shape _ _ Hk) as (s4 & n' & Hs & ->).
    assert (Hpart : includes href (take (4 + n') (drop k href)) = true)
      by apply includes_slice.
    assert (Hstart : startsWith (take (4 + n') (drop k href)) "http" = true).
    { rewrite Hs. reflexivity. }
    assert (Hhttp : includes href "http" = true).
    { apply (includes_trans _ _ _ Hpart).
      destruct (startsWith_inv _ _ Hstart) as (u & ->).
      apply (includes_intro EmptyString "http" u). }
    assert (Hne : nonempty href = true).
    { destruct href; [discriminate | reflexivity]. }
    unfold clean_website_v1, clean_website. rewrite Hne, Hhttp, Hm. cbn [andb].
    repeat split; try assumption.
    + unfold js_or. cbn [of_option truthy]. rewrite Hs. reflexivity.
    + apply (all_in_weaken (any_class url_re)); [apply url_classes |].
      now apply match_here_chars.
  - unfold clean_website_v1, clean_website. rewrite Hm.
    destruct (nonempty href && includes href "http"); [| now split].
    split; [reflexivity |]. reflexivity.
Qed.

(** The characters of an address. *)
Definition email_char (c : ascii) : bool :=
  is_alpha c || is_digit c || one_of "._%+-@" c.

Lemma email_classes c : any_class email_re c = true -> email_char c = true.
Proof. any_char c. Qed.

Lemma match_here_cons a rest s :
  match_here (a :: rest) s
  = back (rmin a) (match_here rest) s (span (cls a) (rmax a) s).
Proof. reflexivity. Qed.

Lemma email_match_has_at s n :
  match_here email_re s = Some n -> includes (take n s) "@" = true.
Proof.
  unfold email_re. intros Hm. rewrite match_here_cons in Hm.
  apply back_inv in Hm. destruct Hm as (j & r & _ & _ & Hr & ->).
  rewrite take_add. apply includes_app.
  destruct (drop j s) as [| c u]; [discriminate |].
  destruct (ascii_dec "@" c) as [<- | N]; [| now rewrite match_chr_other in Hr].
  rewrite match_chr in Hr.
  match type of Hr with
  | option_map S ?x = _ => destruct x as [r' |]; [| discriminate]
  end.
  injection Hr as <-. reflexivity.
Qed.

(** X2. An address returned by [extractEmailFromHtml] is a part of the
    markup, is made of letters, digits and the characters . _ % + - @ only,
    and contains an @; markup without an @ gives null. *)
Theorem extracted_email_is_in_the_markup (html : string) :
  match extractEmailFromHtml html with
  | Some e =>
      includes html e = true /\
      all_in email_char e = true /\
      includes e "@" = true
  | None => True
  end
  /\ (includes html "@" = false -> extractEmailFromHtml html = None).
Proof.
  assert (Hsome : forall e, extractEmailFromHtml html = Some e ->
             includes html e = true /\ all_in email_char e = true /\
             includes e "@" = true).
  { intros e He. rewrite extractEmail_first in He.
    assert (Hin : In e (filter not_placeholder (match_all_from email_re 0 html))).
    { destruct (filter not_placeholder (match_all_from email_re 0 html));
        [discriminate | injection He as ->; now left]. }
    apply filter_In in Hin. destruct Hin as [Hin _].
    destruct (match_all_inv _ _ _ _ Hin) as (k & n & Hk & ->).
    split; [apply includes_slice |]. split.
    - apply (all_in_weaken (any_class email_re)); [apply email_classes |].
      now apply match_here_chars.
    - now apply email_match_has_at. }
  split.
  - destruct (extractEmailFromHtml html) as [e |]; [now apply Hsome | exact I].
  - intros Hno. destruct (extractEmailFromHtml html) as [e |] eqn:He; [| reflexivity].
    destruct (Hsome e eq_refl) as (Hpart & _ & Hat).
    rewrite (includes_trans _ _ _ Hpart Hat) in Hno. discriminate.
Qed.

(** X3. In V2 the [reviews] of a place is always a string, made of digits
    only: the first run of digits, commas and dots of the label without its
    commas and dots, or the empty string. *)
Theorem reviews_v2_is_a_string_of_digits (d : Dom) :
  exists s, field "reviews" (extract_v2 d) = VString s /\ all_in is_digit s = true.
Proof.
  change (field "reviews" (extract_v2 d)) with (reviews_v2 (buttons d)).
  unfold reviews_v2.
  destruct (find is_reviews_button (buttons d)) as [reviewsBtn |];
    [| now exists EmptyString].
  destruct (match_first count_re (or_empty (aria_label reviewsBtn))) as [m |] eqn:Hm;
    [| now exists EmptyString].
  eexists. split; [reflexivity |].
  apply remove_leaves_digits; [| exact (count_match_chars _ _ Hm)].
  intros c Hc Hr. now apply separators_removed.
Qed.

End Fields.

Section Texts.

Definition first_char (s : string) : option ascii :=
  match s with
  | EmptyString => None
  | String c _ => Some c
  end.

Fixpoint last_char (s : string) : option ascii :=
  match s with
  | EmptyString => None
  | String c EmptyString => Some c
  | String _ s' => last_char s'
  end.

(** No white space at this end of the string. *)
Definition clean_end (c : option ascii) : Prop :=
  match c with
  | Some x => is_space x = false
  | None => True
  end.

Lemma trimStart_first s : clean_end (first_char (trimStart s)).
Proof.
  induction s as [| c s IH]; [exact I |].
  cbn [trimStart]. destruct (is_space c) eqn:Hc; [exact IH | exact Hc].
Qed.

Lemma trimStart_clean c s : is_space c = false -> trimStart (String c s) = String c s.
Proof. intros Hc. cbn [trimStart]. now rewrite Hc. Qed.

Lemma trimEnd_last s : clean_end (last_char (trimEnd s)).
Proof.
  induction s as [| c s IH]; [exact I |].
  cbn [trimEnd]. destruct (trimEnd s) as [| c' t].
  - destruct (is_space c) eqn:Hc; [exact I | exact Hc].
  - exact IH.
Qed.

Lemma trimEnd_first c s :
  is_space c = false -> exists t, trimEnd (String c s) = String c t.
Proof.
  intros Hc. cbn [trimEnd]. destruct (trimEnd s) as [| c' t].
  - rewrite Hc. now exists EmptyString.
  - now exists (String c' t).
Qed.

Lemma trimEnd_again s : trimEnd (trimEnd s) = trimEnd s.
Proof.
  induction s as [| c s IH]; [reflexivity |].
  cbn [trimEnd]. destruct (trimEnd s) as [| c' t] eqn:Ht.
  - destruct (is_space c) eqn:Hc; [reflexivity |]. cbn. now rewrite Hc.
  - change (trimEnd (String c (String c' t)))
      with (match trimEnd (String c' t) with
            | EmptyString => if is_space c then EmptyString else String c EmptyString
            | String a u => String c (String a u)
            end).
    now rewrite IH.
Qed.

Lemma trim_first s : clean_end (first_char (trim s)).
Proof.
  unfold trim. pose proof (trimStart_first s) as Hs.
  destruct (trimStart s) as [| c u]; [exact I |].
  destruct (trimEnd_first c u Hs) as (t & ->). exact Hs.
Qed.

Lemma trim_blank s : all_in is_space s = true -> trim s = EmptyString.
Proof.
  intros Hs. unfold trim.
  assert (E : trimStart s = EmptyString).
  { induction s as [| c s IH]; [reflexivity |].
    cbn [all_in] in Hs. apply andb_true_iff in Hs as [Hc Hs].
    cbn [trimStart]. rewrite Hc. now apply IH. }
  now rewrite E.
Qed.

(** X4. The text [pickText] returns has no white space at its start nor at
    its end, is empty for a missing element and for a text of white space
    only, and is not changed by another [trim]. *)
Theorem pickText_is_trimmed (el : option string) :
  clean_end (first_char (pickText el)) /\
  clean_end (last_char (pickText el)) /\
  trim (pickText el) = pickText el /\
  (match el with
   | None => True
   | Some t => all_in is_space t = true
   end -> pickText el = EmptyString).
Proof.
  destruct el as [t |]; cbn [pickText]; [| repeat split].
  split; [apply trim_first |]. split; [apply trimEnd_last |]. split.
  - pose proof (trim_first t) as Hf. unfold trim in *.
    destruct (trimEnd (trimStart t)) as [| c u] eqn:E; [reflexivity |].
    rewrite (trimStart_clean c u Hf), <- E. apply trimEnd_again.
  - apply trim_blank.
Qed.

(** A string, or one of the two absent values that [|| ""] replaces. *)
Definition stringish (v : JsValue) : Prop :=
  match v with
  | VString _ | VNull | VUndefined => True
  | _ => False
  end.

Definition is_text (v : JsValue) : Prop := exists s, v = VString s.

Lemma or_empty_text v : stringish v -> is_text (js_or v (VString "")).
Proof.
  destruct v as [| | b | n | s]; cbn; try contradiction; intros _;
    try (now exists EmptyString).
  unfold js_or. cbn. destruct (negb (s =? "")%string);
    [now exists s | now exists EmptyString].
Qed.

Lemma or_null_stringish v : stringish v -> stringish (js_or v VNull).
Proof.
  destruct v as [| | b | n | s]; cbn; try contradiction; intros _; try exact I.
  unfold js_or. cbn. now destruct (negb (s =? "")%string).
Qed.

Lemma or_stringish a b : stringish a -> stringish b -> stringish (js_or a b).
Proof. intros Ha Hb. unfold js_or. now destruct (truthy a). Qed.

Lemma opt_trim_stringish o : stringish (opt_trim o).
Proof. now destruct o. Qed.

Lemma of_option_stringish o : stringish (of_option o).
Proof. now destruct o. Qed.

Lemma clean_website_stringish v : stringish v -> stringish (clean_website v).
Proof.
  destruct v as [| | b | n | s]; cbn; try contradiction; intros _; try exact I.
  destruct (nonempty s && includes s "http"); [| exact I].
  apply or_stringish; [apply of_option_stringish | exact I].
Qed.

Lemma clean_website_text v : is_text v -> is_text (clean_website v).
Proof.
  intros (w & ->). cbn [clean_website].
  destruct (nonempty w && includes w "http"); [| now exists w].
  destruct (Regex.match_first Regex.url_re w) as [m |]; [| now exists w].
  unfold js_or. cbn [of_option].
  destruct (truthy (VString m)); [now exists m | now exists w].
Qed.

Lemma rating_text v :
  is_text (if truthy v then VString (to_String v) else VString "").
Proof. destruct (truthy v); eexists; reflexivity. Qed.

Definition text_keys : list string :=
  ["name"; "mobile"; "address"; "website"; "description"; "rating"].

Lemma getBtnText_stringish d attrVal : stringish (getBtnText d attrVal).
Proof. unfold getBtnText. now destruct (find _ (buttons d)). Qed.

Lemma getAnchorText_stringish d attrVal : stringish (getAnchorText d attrVal).
Proof.
  unfold getAnchorText. destruct (find _ (anchors d)); [| exact I].
  apply or_stringish; [apply of_option_stringish | exact I].
Qed.

Ltac read_field :=
  lazy beta iota zeta delta
    [field record_of record_of_v4 extract_v1 extract_v2 extract_v3 extract_v4
     String.eqb Ascii.eqb Bool.eqb andb].

Ltac stringy :=
  repeat first
    [ exact I
    | apply or_null_stringish
    | apply or_stringish
    | apply opt_trim_stringish
    | apply of_option_stringish
    | apply clean_website_stringish
    | apply getBtnText_stringish
    | apply getAnchorText_stringish
    | match goal with
      | |- stringish (match ?x with _ => _ end) => destruct x
      end ].

(** X5. No text field of a record is null or undefined. In V1, V3 and V4
    the name, mobile, address, website, description and rating of a record
    are strings whatever the pane shows; so are the name, address, phone,
    website and rating of the place that V2 pushes. *)
Theorem record_fields_are_strings (d : Dom) (email : JsValue) :
  Forall (fun k => is_text (field k (record_of (extract_v1 d) email))) text_keys /\
  Forall (fun k => is_text (field k (record_of (extract_v3 d) email))) text_keys /\
  Forall (fun k => is_text (field k (record_of_v4 (extract_v4 d))))
         ("email" :: text_keys) /\
  Forall (fun k => is_text (field k (extract_v2 d)))
         ["name"; "address"; "phone"; "website"; "rating"].
Proof.
  unfold text_keys.
  repeat split; repeat (first [apply Forall_nil | apply Forall_cons]); read_field;
    first [ apply rating_text
          | now eexists
          | apply or_empty_text; stringy
          | apply clean_website_text, or_empty_text, of_option_stringish ].
Qed.

End Texts.

(* ===================================================================== *)
(** ** More on the runs *)
(* ===================================================================== *)

Section Batches.

Context {W : Type} `{Puppeteer W} `{Builtins}.

Ltac call_step :=
  eapply mute_bind with (P := fun _ => True);
  [ first [ apply mute_call | apply mute_wait | apply mute_set_email
          | apply mute_get_email ]; intros; exact I
  | intros ? _ ].

(** In V2, V3 and V4 a round that ends appends one record. *)
Lemma round_v2_one i (data : list JsObject) :
  mute (round_v2 i data) (fun data' => length data' = S (length data)).
Proof.
  unfold round_v2. do 4 call_step.
  apply mute_ret. rewrite length_app. cbn. lia.
Qed.

Lemma round_v3_one i (data : list JsObject) :
  mute (round_v3 i data) (fun data' => length data' = S (length data)).
Proof.
  unfold round_v3.
  eapply mute_bind with (P := fun _ => True).
  { apply mute_try_catch; [apply mute_call; intros; exact I |].
    intros e. call_step. apply mute_ret. exact I. }
  intros _ _. do 2 call_step.
  eapply mute_bind; [apply resolve_email_mute | intros _ _].
  call_step. apply mute_ret. rewrite length_app. cbn. lia.
Qed.

Lemma round_v4_one i (data : list JsObject) :
  mute (round_v4 i data) (fun data' => length data' = S (length data)).
Proof.
  unfold round_v4. call_step.
  eapply mute_bind with (P := fun _ => True).
  { apply mute_try_catch; [apply mute_call; intros; exact I |].
    intros e. apply mute_ret. exact I. }
  intros _ _. call_step. apply mute_ret. rewrite length_app. cbn. lia.
Qed.

Lemma rounds_exact (body : nat -> list JsObject -> @M W (list JsObject)) :
  (forall i s, mute (body i s) (fun s' => length s' = S (length s))) ->
  forall n i, mute (for_each n i body []) (fun s' => length s' = n).
Proof.
  intros Hbody n i.
  apply (mute_for_each (fun k s' => length s' = k) body) with (k := 0);
    [| reflexivity].
  intros k j s1 Hk. eapply mute_weaken; [apply Hbody |].
  cbn. intros s2 Hs2. lia.
Qed.

(** The [try] block of a guarded handler, when every round appends one
    record: nothing sent on an error, the batch of [take] records otherwise. *)
Definition Batch (v : Variant) (b : Body) : Post unit :=
  fun r _ t =>
    match r with
    | Throw _ => sent t = []
    | Ok _ =>
        exists polls n data,
          t = Launch :: map Count (polls ++ [n]) ++ [Send 200 (Success data)] /\
          length data = rounds (Math_min (of_nat n) (limit v b))
    end.

Definition Full (v : Variant) (b : Body) : Post unit :=
  fun _ _ t =>
    forall data, In (Success data) (sent t) ->
      exists polls n,
        counts t = polls ++ [n] /\
        length data = rounds (Math_min (of_nat n) (limit v b)).

Lemma guarded_batch v b (work : M unit) :
  run_from false [] work (Batch v b) ->
  run_from false [] (guarded work) (Full v b).
Proof.
  intros Hwork. unfold guarded.
  apply run_try_finally, run_try_catch.
  eapply run_weaken; [exact Hwork |].
  intros [[] | e] br t HW; cbn in HW.
  - destruct HW as (polls & n & data & -> & Hd).
    apply run_close. intros data' Hin.
    assert (Hs : forall u, sent ((Launch :: map Count (polls ++ [n]) ++
                                  [Send 200 (Success data)]) ++ u)
                           = Success data :: sent u).
    { intros u. cbn [app sent]. rewrite <- app_assoc, sent_counts. reflexivity. }
    assert (Hc : forall u, counts ((Launch :: map Count (polls ++ [n]) ++
                                    [Send 200 (Success data)]) ++ u)
                           = (polls ++ [n]) ++ counts u).
    { intros u. cbn [app counts]. rewrite <- app_assoc, counts_counts. reflexivity. }
    exists polls, n.
    destruct br.
    + rewrite Hs in Hin. rewrite Hc. cbn in *. rewrite app_nil_r.
      destruct Hin as [[= <-] | []]. auto.
    + rewrite <- (app_nil_r (_ :: _)) in Hin |- *. rewrite Hs in Hin. rewrite Hc.
      cbn in *. rewrite app_nil_r. destruct Hin as [[= <-] | []]. auto.
  - apply run_emit, run_close. intros data Hin.
    assert (Hs : sent ((t ++ [Send 200 (Failure e)]) ++ (if br then [Close] else []))
                 = [Failure e]).
    { rewrite !sent_app, HW. now destruct br. }
    destruct br; [| rewrite <- (app_nil_r (_ ++ _)) in Hin];
      rewrite Hs in Hin; destruct Hin as [Hin | []]; discriminate.
Qed.

(** The three guarded handlers have one shape. *)
Lemma batch_run v b url t1 feed t2 selector ms k selector'
      (round : nat -> list JsObject -> @M W (list JsObject)) :
  (forall i s, mute (round i s) (fun s' => length s' = S (length s))) ->
  run_from false []
    (bind launch_browser (fun _ =>
     bind (call newPage) (fun _ =>
     bind (call (goto url t1)) (fun _ =>
     bind (call (waitForSelector feed t2)) (fun _ =>
     bind (loadEnough_tries selector ms k (limit v b)) (fun _ =>
     bind (get_handles selector') (fun items =>
     bind (for_each (rounds (Math_min (of_nat items) (limit v b))) 0 round [])
          (fun data => res_json (Success data)))))))))
    (Batch v b).
Proof.
  intros Hround.
  apply run_bind, run_launch; [| intros e; reflexivity].
  apply run_bind, run_call; intros [[] | e]; [| reflexivity].
  apply run_bind, run_call; intros [[] | e]; [| reflexivity].
  apply run_bind, run_call; intros [[] | e]; [| reflexivity].
  apply run_bind. eapply run_weaken; [apply loadEnough_tries_run |].
  intros r br t (-> & polls & -> & Hlen).
  destruct r as [[] | e]; [| cbn; apply sent_only_counts].
  apply run_bind, run_get_handles; [intros n | intros e; cbn; apply sent_only_counts].
  apply run_bind. eapply run_weaken; [apply (rounds_exact _ Hround) |].
  intros r br t (-> & -> & Hdata).
  destruct r as [data | e];
    [| cbn; rewrite sent_app, sent_only_counts; reflexivity].
  apply run_emit. exists polls, n, data.
  split; [cbn; rewrite ?map_app, <- ?app_assoc; reflexivity | exact Hdata].
Qed.

Lemma scrape_v2_batch b : run_from false [] (scrape_v2 b) (Full V2 b).
Proof.
  unfold scrape_v2. destruct (negb (truthy (body_query b))).
  { apply run_emit. intros data [Hin | []]. discriminate. }
  apply guarded_batch. apply (batch_run V2 b), round_v2_one.
Qed.

Lemma scrape_v3_batch b : run_from false [] (scrape_v3 b) (Full V3 b).
Proof.
  unfold scrape_v3. destruct (negb (truthy (body_query b))).
  { apply run_emit. intros data [Hin | []]. discriminate. }
  apply guarded_batch. apply (batch_run V3 b), round_v3_one.
Qed.

Lemma scrape_v4_batch b : run_from false [] (scrape_v4 b) (Full V4 b).
Proof.
  unfold scrape_v4. destruct (negb (truthy (body_query b))).
  { apply run_emit. intros data [Hin | []]. discriminate. }
  apply guarded_batch. apply (batch_run V4 b), round_v4_one.
Qed.

(** X6. V2, V3 and V4 return a full batch or none: a results array has
    exactly as many records as the loop makes rounds, the whole numbers from
    0 that are below both the last count of the feed and the limit. That is
    the smaller of the count and the limit when the limit is an integer, the
    smaller of the count and the next integer above the limit when it is not
    (three records for a limit of 2.5 and a count of five), and none when the
    limit is not positive, whatever the browser answers. An error in any
    round leaves no results array at all. *)
Theorem guarded_batch_is_full (v : Variant) (b : Body) (w : W) (data : list JsObject) :
  guards v = true ->
  In (Success data) (sent (trace (snd (run v b w)))) ->
  exists polls n,
    counts (trace (snd (run v b w))) = polls ++ [n] /\
    match limit v b with
    | NaN => False
    | Num z => length data = Nat.min n (Z.to_nat z)
    | Frac whole _ _ => length data = Nat.min n (Z.to_nat (whole + 1))
    end.
Proof.
  intros Hg Hin.
  assert (Hfull : exists polls n,
             counts (trace (snd (run v b w))) = polls ++ [n] /\
             length data = rounds (Math_min (of_nat n) (limit v b))).
  { unfold run in *. destruct v; try discriminate; cbn [scrape] in *.
    - exact (scrape_v2_batch b (start w) eq_refl eq_refl data Hin).
    - exact (scrape_v3_batch b (start w) eq_refl eq_refl data Hin).
    - exact (scrape_v4_batch b (start w) eq_refl eq_refl data Hin). }
  destruct Hfull as (polls & n & Hc & Hlen).
  exists polls, n. split; [exact Hc |].
  rewrite rounds_min in Hlen by apply limit_not_nan.
  pose proof (limit_not_nan v b) as Hl.
  destruct (limit v b) as [| z | whole num rest]; [congruence | exact Hlen | exact Hlen].
Qed.

End Batches.

(** A limit of 2.5 on a feed of five: three records. *)
Lemma guarded_batch_is_full_witness :
  limit V2 (Sim.request "coffee shops" (VNumber (Frac 2 1 1))) = Frac 2 1 1 /\
  exists data polls,
    In (Success data)
       (sent (trace (snd (run V2 (Sim.request "coffee shops" (VNumber (Frac 2 1 1)))
                              (Sim.feed [Sim.pane "A"; Sim.pane "B"; Sim.pane "C";
                                         Sim.pane "D"; Sim.pane "E"] 5))))) /\
    counts (trace (snd (run V2 (Sim.request "coffee shops" (VNumber (Frac 2 1 1)))
                            (Sim.feed [Sim.pane "A"; Sim.pane "B"; Sim.pane "C";
                                       Sim.pane "D"; Sim.pane "E"] 5))))
    = polls ++ [5] /\
    length data = Nat.min 5 (Z.to_nat (2 + 1)).
Proof.
  split; [reflexivity |].
  assert (Hs : exists data,
             sent (trace (snd (run V2 (Sim.request "coffee shops" (VNumber (Frac 2 1 1)))
                                   (Sim.feed [Sim.pane "A"; Sim.pane "B"; Sim.pane "C";
                                              Sim.pane "D"; Sim.pane "E"] 5))))
             = [Success data])
    by (eexists; vm_compute; reflexivity).
  destruct Hs as (data & Hs).
  assert (Hin : In (Success data)
                   (sent (trace (snd (run V2 (Sim.request "coffee shops"
                                                (VNumber (Frac 2 1 1)))
                                         (Sim.feed [Sim.pane "A"; Sim.pane "B";
                                                    Sim.pane "C"; Sim.pane "D";
                                                    Sim.pane "E"] 5))))))
    by (rewrite Hs; left; reflexivity).
  destruct (guarded_batch_is_full V2 _ _ data eq_refl Hin) as (polls & n & Hc & Hlen).
  assert (Hcounts : counts (trace (snd (run V2 (Sim.request "coffee shops"
                                                  (VNumber (Frac 2 1 1)))
                                           (Sim.feed [Sim.pane "A"; Sim.pane "B";
                                                      Sim.pane "C"; Sim.pane "D";
                                                      Sim.pane "E"] 5))))
                    = [5] ++ [5])
    by (vm_compute; reflexivity).
  rewrite Hcounts in Hc. apply app_inj_tail in Hc. destruct Hc as [<- <-].
  exists data, [5]. exact (conj Hin (conj Hcounts Hlen)).
Defined.

(* ===================================================================== *)
(** ** Why a loader stops *)
(* ===================================================================== *)

Section Polls.

Context {W : Type} `{Puppeteer W} `{Builtins}.

(** The poll found fewer entries than asked. *)
Definition below (count : JsNumber) (n : nat) : Prop :=
  js_ge (of_nat n) count = false.

(** The last poll found as many entries as asked. *)
Definition reached (count : JsNumber) (polls : list nat) : Prop :=
  exists init n, polls = init ++ [n] /\ js_ge (of_nat n) count = true.

(** The last polls, six of them with the [stagnant] there were before the
    first, each found the count of the poll before it. *)
Definition stalled_from (seen stagnant : nat) (polls : list nat) : Prop :=
  exists m, m <= length polls /\
    (forall i, length polls - m <= i < length polls -> unchanged_from seen polls i) /\
    (m = 6 \/ (m = length polls /\ m + stagnant = 6)).

Definition stalled (polls : list nat) : Prop :=
  6 <= length polls /\
  forall i, length polls - 6 <= i < length polls -> unchanged_from 0 polls i.

Definition stops (count : JsNumber) (k : nat) (P : list nat -> Prop)
           (b : bool) (t : list Event) : Post unit :=
  fun r b' t' =>
    b' = b /\ exists polls,
      t' = t ++ map Count polls /\
      Forall (below count) (removelast polls) /\
      (r = Ok tt -> length polls < k -> reached count polls \/ P polls).

Lemma stops_nil count k P b t e : stops count k P b t (Throw e) b t.
Proof.
  split; [reflexivity |]. exists []. cbn. rewrite app_nil_r.
  repeat split; [constructor | discriminate].
Qed.

Lemma stops_one count k P b t r n :
  (r = Ok tt -> length [n] < k -> reached count [n] \/ P [n]) ->
  stops count k P b t r b (t ++ [Count n]).
Proof.
  intros Hr. split; [reflexivity |]. exists [n].
  repeat split; [constructor | exact Hr].
Qed.

Lemma removelast_cons_below count n polls :
  below count n -> Forall (below count) (removelast polls) ->
  Forall (below count) (removelast (n :: polls)).
Proof.
  intros Hn Hp. destruct polls as [| m polls]; [constructor |].
  change (removelast (n :: m :: polls)) with (n :: removelast (m :: polls)).
  now constructor.
Qed.

Lemma reached_cons count n polls :
  reached count polls -> reached count (n :: polls).
Proof. intros (init & m & -> & Hm). now exists (n :: init), m. Qed.

Lemma unchanged_cons seen n polls i :
  unchanged_from n polls i -> unchanged_from seen (n :: polls) (S i).
Proof. exact (fun Hi => Hi). Qed.

Lemma stalled_cons seen stagnant n polls :
  stagnant < 6 ->
  stalled_from n (if Nat.eqb n seen then S stagnant else 0) polls ->
  stalled_from seen stagnant (n :: polls).
Proof.
  intros Hs (m & Hm & Hun & Hcase). unfold stalled_from. cbn [length].
  destruct Hcase as [-> | [-> Hsum]].
  - exists 6. split; [lia |]. split; [| now left].
    intros [| i] Hi; [lia |]. apply unchanged_cons, Hun. lia.
  - destruct (Nat.eqb n seen) eqn:Heq.
    + apply Nat.eqb_eq in Heq. subst n.
      exists (S (length polls)). split; [lia |]. split; [| right; lia].
      intros [| i] Hi; [reflexivity |]. apply unchanged_cons, Hun. lia.
    + exists 6. split; [lia |]. split; [| now left].
      intros [| i] Hi; [lia |]. apply unchanged_cons, Hun. lia.
Qed.

Lemma loadEnough_tries_stops selector ms count k :
  forall b t,
    run_from b t (loadEnough_tries selector ms k count)
             (stops count k (fun _ => False) b t).
Proof.
  induction k as [| k IH]; intros b t; cbn [loadEnough_tries].
  - apply run_ret. split; [reflexivity |]. exists []. cbn. rewrite app_nil_r.
    repeat split; [constructor | intros _ Hlt; lia].
  - apply run_bind, run_count_cards; [| intros e; apply stops_nil].
    intros n. destruct (js_ge (of_nat n) count) eqn:Hge.
    { apply run_ret, stops_one. intros _ _. left. now exists [], n. }
    apply run_bind, run_call. intros [[] | e];
      [| apply stops_one; discriminate].
    apply run_bind, run_wait.
    eapply run_weaken; [apply (IH b (t ++ [Count n])) |].
    intros r b' t' (-> & polls & -> & Hbelow & Hend).
    split; [reflexivity |]. exists (n :: polls). cbn [map].
    rewrite <- app_assoc. split; [reflexivity |].
    split; [now apply removelast_cons_below |].
    intros Hr Hlen. cbn [length] in Hlen.
    destruct (Hend Hr ltac:(lia)) as [Hreached | []].
    left. now apply reached_cons.
Qed.

Lemma loadEnough_v1_loop_stops count k :
  forall seen stagnant b t, stagnant < 6 ->
    run_from b t (loadEnough_v1_loop k count seen stagnant)
             (stops count k (stalled_from seen stagnant) b t).
Proof.
  induction k as [| k IH]; intros seen stagnant b t Hs; cbn [loadEnough_v1_loop].
  - apply run_ret. split; [reflexivity |]. exists []. cbn. rewrite app_nil_r.
    repeat split; [constructor | intros _ Hlt; lia].
  - apply run_bind, run_count_cards; [| intros e; apply stops_nil].
    intros n. destruct (js_ge (of_nat n) count) eqn:Hge.
    { apply run_ret, stops_one. intros _ _. left. now exists [], n. }
    apply run_bind, run_call. intros [[] | e];
      [| apply stops_one; discriminate].
    apply run_bind, run_wait.
    destruct (Nat.leb 6 (if Nat.eqb n seen then S stagnant else 0)) eqn:Hstop.
    { apply run_ret, stops_one. intros _ _. right.
      apply Nat.leb_le in Hstop.
      destruct (Nat.eqb n seen) eqn:Heq; [| lia].
      apply Nat.eqb_eq in Heq. subst n.
      exists 1. cbn [length]. split; [lia |]. split; [| right; lia].
      intros [| i] Hi; [reflexivity | cbn [length] in Hi; lia]. }
    apply Nat.leb_gt in Hstop.
    eapply run_weaken; [apply (IH n _ b (t ++ [Count n]) Hstop) |].
    intros r b' t' (-> & polls & -> & Hbelow & Hend).
    split; [reflexivity |]. exists (n :: polls). cbn [map].
    rewrite <- app_assoc. split; [reflexivity |].
    split; [now apply removelast_cons_below |].
    intros Hr Hlen. cbn [length] in Hlen.
    destruct (Hend Hr ltac:(lia)) as [Hreached | Hstalled].
    + left. now apply reached_cons.
    + right. now apply stalled_cons.
Qed.

(** X7. A loader scrolls only after a poll that found fewer entries than
    asked: every poll but the last is below the count. And a loader that
    returns before the bound of its loop stopped for a reason: its last poll
    reached the count or, in V1 only, its last six polls each found the count
    of the poll before. *)
Theorem loader_stops_for_a_reason (v : Variant) (count : JsNumber) (st : St W) :
  exists polls,
    trace (snd (loader v count st)) = trace st ++ map Count polls /\
    Forall (below count) (removelast polls) /\
    (fst (loader v count st) = Ok tt -> length polls < tries v ->
     reached count polls \/ (v = V1 /\ stalled polls)).
Proof.
  assert (Htries : forall selector ms k,
             exists polls,
               trace (snd (loadEnough_tries selector ms k count st))
               = trace st ++ map Count polls /\
               Forall (below count) (removelast polls) /\
               (fst (loadEnough_tries selector ms k count st) = Ok tt ->
                length polls < k -> reached count polls)).
  { intros selector ms k.
    destruct (loadEnough_tries_stops selector ms count k (browser st) (trace st) st
                eq_refl eq_refl) as (_ & polls & Ht & Hbelow & Hend).
    exists polls. repeat split; [exact Ht | exact Hbelow |].
    intros Hr Hlen. destruct (Hend Hr Hlen) as [Hreached | []]. exact Hreached. }
  destruct v; cbn [loader tries].
  - destruct (loadEnough_v1_loop_stops count 40 0 0 (browser st) (trace st)
                ltac:(lia) st eq_refl eq_refl) as (_ & polls & Ht & Hbelow & Hend).
    exists polls. repeat split; [exact Ht | exact Hbelow |].
    intros Hr Hlen. destruct (Hend Hr Hlen) as [Hreached | Hstalled];
      [now left | right].
    split; [reflexivity |].
    destruct Hstalled as (m & Hm & Hun & [-> | [-> Hsix]]).
    + split; [exact Hm | exact Hun].
    + split; [lia |]. intros i Hi. apply Hun. lia.
  - destruct (Htries results_v2 1000%N 15) as (polls & Ht & Hbelow & Hend).
    exists polls. repeat split; [exact Ht | exact Hbelow |].
    intros Hr Hlen. left. now apply Hend.
  - destruct (Htries results_v3 800%N 20) as (polls & Ht & Hbelow & Hend).
    exists polls. repeat split; [exact Ht | exact Hbelow |].
    intros Hr Hlen. left. now apply Hend.
  - destruct (Htries results_v3 1200%N 20) as (polls & Ht & Hbelow & Hend).
    exists polls. repeat split; [exact Ht | exact Hbelow |].
    intros Hr Hlen. left. now apply Hend.
Qed.

End Polls.

(* ===================================================================== *)
(** ** Where the records come from *)
(* ===================================================================== *)

Section Records.

Context {W : Type} `{Puppeteer W} `{Builtins}.

Ltac call_step :=
  eapply mute_bind with (P := fun _ => True);
  [ first [ apply mute_call | apply mute_wait | apply mute_set_email
          | apply mute_get_email ]; intros; exact I
  | intros ? _ ].

(** What [email] holds after the crawl of a site: null, or an address with
    an @ that does not contain [example.] in lower case. *)
Definition clean_email (v : JsValue) : Prop :=
  v = VNull \/
  exists e, v = VString e /\ includes e "@" = true /\
            includes (toLowerCase e) "example." = false.

Lemma extracted_clean html : clean_email (of_option (extractEmailFromHtml html)).
Proof.
  destruct (extractEmailFromHtml html) as [e |] eqn:He; [| now left].
  right. exists e. split; [reflexivity |].
  rewrite extractEmail_first in He.
  assert (Hin : In e (filter not_placeholder
                        (Regex.match_all_from Regex.email_re 0 html))).
  { destruct (filter not_placeholder (Regex.match_all_from Regex.email_re 0 html));
      [discriminate | injection He as ->; now left]. }
  apply filter_In in Hin. destruct Hin as [Hin Hkeep].
  destruct (match_all_inv _ _ _ _ Hin) as (k & n & Hk & ->).
  split; [now apply email_match_has_at |].
  unfold not_placeholder in Hkeep. now apply negb_true_iff in Hkeep.
Qed.

Lemma leads_set_email v st (Q : Result unit -> St W -> Prop) :
  Q (Ok tt) {| world := world st; browser := browser st; email := v;
               trace := trace st |} ->
  leads (set_email v) st Q.
Proof. exact (fun HQ => HQ). Qed.

Lemma leads_get_email st (Q : Result JsValue -> St W -> Prop) :
  Q (Ok (email st)) st -> leads get_email st Q.
Proof. exact (fun HQ => HQ). Qed.

(** A fact on every run from every state is a fact of [mute]. *)
Lemma mute_of_leads {A} (m : @M W A) (Q : A -> Prop) :
  (forall st, leads m st
     (fun r st' => browser st' = browser st /\ trace st' = trace st /\
                   match r with Ok a => Q a | Throw _ => True end)) ->
  mute m Q.
Proof. intros Hm b t st <- <-. apply Hm. Qed.

(** The crawl touches neither [browser] nor the response and leaves a clean
    [email]; the world is the one it found when there is no website. *)
Definition crawled (website : JsValue) (st : St W) : Result unit -> St W -> Prop :=
  fun r st' =>
    r = Ok tt /\ browser st' = browser st /\ trace st' = trace st /\
    clean_email (email st') /\
    (truthy website = false -> world st' = world st /\ email st' = VNull).

Lemma resolve_email_leads website st :
  leads (resolve_email website) st (crawled website st).
Proof.
  unfold resolve_email. apply leads_bind, leads_set_email.
  destruct (truthy website) eqn:Hw.
  2: { apply leads_ret. repeat split; now left. }
  set (Inner := fun (_ : Result unit) (st' : St W) =>
                  browser st' = browser st /\ trace st' = trace st /\
                  clean_email (email st')).
  assert (Hend : forall r st', Inner r st' ->
             match r with
             | Ok a => crawled website st (Ok a) st'
             | Throw e => leads (ret tt) st' (crawled website st)
             end).
  { intros [[] | e] st' (Hb & Ht & He); [| apply leads_ret];
      (repeat split; [exact Hb | exact Ht | exact He | congruence | congruence]). }
  apply leads_try_catch. eapply leads_weaken; [| exact Hend].
  assert (Hnull : clean_email VNull) by now left.
  apply leads_bind, leads_call. intros [[] | e] w1 _;
    [| repeat split; exact Hnull].
  apply leads_bind, leads_call. intros [[] | e] w2 _;
    [| repeat split; exact Hnull].
  apply leads_bind, leads_call. intros [html | e] w3 _;
    [| repeat split; exact Hnull].
  apply leads_bind, leads_set_email. apply leads_bind, leads_get_email.
  cbn [email].
  pose proof (extracted_clean html) as Hfirst.
  set (first := of_option (extractEmailFromHtml html)) in *.
  apply leads_bind.
  eapply leads_weaken with (P := Inner).
  2: { intros [[] | e] st' (Hb & Ht & He); [| repeat split; assumption].
       apply leads_call. intros r w' _. repeat split; assumption. }
  destruct (negb (truthy first));
    [| apply leads_ret; repeat split; exact Hfirst].
  apply leads_bind, leads_call. intros [l | e] w4 _;
    [| repeat split; exact Hfirst].
  destruct (truthy (contactHref_of l));
    [| apply leads_ret; repeat split; exact Hfirst].
  apply leads_bind, leads_call. intros [url | e] w5 _;
    [| repeat split; exact Hfirst].
  apply leads_bind, leads_call. intros [[] | e] w6 _;
    [| repeat split; exact Hfirst].
  apply leads_bind, leads_call. intros [html2 | e] w7 _;
    [| repeat split; exact Hfirst].
  apply leads_set_email. repeat split. apply extracted_clean.
Qed.

(** The record of a results array, handler by handler: the fields read
    from a document the browser gave, and the [email] the crawl left. *)
Definition read_by (v : Variant) (r : JsObject) : Prop :=
  match v with
  | V1 => exists d, r = record_of (extract_v1 d) (VString "")
  | V2 => exists d, r = extract_v2 d
  | V3 => exists d e, clean_email e /\
                      r = record_of (extract_v3 d) (js_or e (VString ""))
  | V4 => exists d, r = record_of_v4 (extract_v4 d)
  end.

Lemma snoc_read v (data : list JsObject) r :
  Forall (read_by v) data -> read_by v r -> Forall (read_by v) (data ++ [r]).
Proof. intros Hd Hr. apply Forall_app. split; [exact Hd | now constructor]. Qed.

Lemma round_v1_reads i (s : list JsObject * JsValue) :
  Forall (read_by V1) (fst s) ->
  mute (round_v1 i s) (fun s' => Forall (read_by V1) (fst s')).
Proof.
  intros Hs. destruct s as [data lastName]. unfold round_v1.
  eapply mute_bind with (P := fun _ => True);
    [apply mute_call; intros; exact I | intros clicked _].
  destruct clicked; cbn [negb]; [| apply mute_ret; exact Hs].
  call_step.
  eapply mute_bind with (P := fun _ => True).
  { apply mute_try_catch.
    - call_step. call_step. apply mute_ret. exact I.
    - intros e. apply mute_ret. exact I. }
  intros [name |] _; [| apply mute_ret; exact Hs].
  destruct (negb (truthy name) || strict_eq name lastName);
    [apply mute_ret; exact Hs |].
  eapply mute_bind with (P := fun _ => True);
    [apply mute_call; intros; exact I | intros d _].
  apply mute_ret. cbn [fst]. apply snoc_read; [exact Hs | now exists d].
Qed.

Lemma round_v2_reads i (data : list JsObject) :
  Forall (read_by V2) data -> mute (round_v2 i data) (Forall (read_by V2)).
Proof.
  intros Hs. unfold round_v2. do 2 call_step.
  eapply mute_bind with (P := fun _ => True);
    [apply mute_call; intros; exact I | intros d _].
  call_step. apply mute_ret. apply snoc_read; [exact Hs | now exists d].
Qed.

Lemma round_v3_reads i (data : list JsObject) :
  Forall (read_by V3) data -> mute (round_v3 i data) (Forall (read_by V3)).
Proof.
  intros Hs. unfold round_v3.
  eapply mute_bind with (P := fun _ => True).
  { apply mute_try_catch; [apply mute_call; intros; exact I |].
    intros e. call_step. apply mute_ret. exact I. }
  intros _ _. call_step.
  eapply mute_bind with (P := fun _ => True);
    [apply mute_call; intros; exact I | intros d _].
  apply mute_of_leads. intros st.
  apply leads_bind. eapply leads_weaken; [apply resolve_email_leads |].
  intros r st' (-> & Hb & Ht & He & _).
  apply leads_bind, leads_get_email, leads_ret.
  split; [exact Hb |]. split; [exact Ht |].
  apply snoc_read; [exact Hs |]. now exists d, (email st').
Qed.

Lemma round_v4_reads i (data : list JsObject) :
  Forall (read_by V4) data -> mute (round_v4 i data) (Forall (read_by V4)).
Proof.
  intros Hs. unfold round_v4. call_step.
  eapply mute_bind with (P := fun _ => True).
  { apply mute_try_catch; [apply mute_call; intros; exact I |].
    intros e. apply mute_ret. exact I. }
  intros _ _.
  eapply mute_bind with (P := fun _ => True);
    [apply mute_call; intros; exact I | intros d _].
  apply mute_ret. apply snoc_read; [exact Hs | now exists d].
Qed.

Lemma rounds_read {T} (P : T -> Prop) (body : nat -> T -> @M W T) :
  (forall i s, P s -> mute (body i s) P) ->
  forall n i s, P s -> mute (for_each n i body s) P.
Proof.
  intros Hbody n i s Hs.
  apply (mute_for_each (fun _ => P) body) with (k := 0); [| exact Hs].
  intros _ j s1 Hs1. now apply Hbody.
Qed.

(** The records of every results array sent satisfy [P]. *)
Definition Reads (P : JsObject -> Prop) : Post unit :=
  fun _ _ t => forall data, In (Success data) (sent t) -> Forall P data.

(** The [try] block: nothing sent on an error, one array of such records
    otherwise. *)
Definition Gathered (P : JsObject -> Prop) : Post unit :=
  fun r _ t =>
    match r with
    | Throw _ => sent t = []
    | Ok _ => exists data, sent t = [Success data] /\ Forall P data
    end.

Lemma reads_closed P b t (r : Result unit) data :
  sent t = [Success data] -> Forall P data ->
  Reads P r b (if b then t ++ [Close] else t).
Proof.
  intros Hs Hd data' Hin.
  assert (Hsent : sent (if b then t ++ [Close] else t) = [Success data]).
  { destruct b; [| exact Hs]. rewrite sent_app, Hs. reflexivity. }
  rewrite Hsent in Hin. destruct Hin as [[= <-] | []]. exact Hd.
Qed.

Lemma guarded_reads P (work : M unit) :
  run_from false [] work (Gathered P) ->
  run_from false [] (guarded work) (Reads P).
Proof.
  intros Hwork. unfold guarded.
  apply run_try_finally, run_try_catch.
  eapply run_weaken; [exact Hwork |].
  intros [[] | e] br t HW; cbn in HW.
  - destruct HW as (data & Hs & Hd). apply run_close.
    now apply reads_closed with data.
  - apply run_emit, run_close. intros data Hin.
    assert (Hs : sent (if br then (t ++ [Send 200 (Failure e)]) ++ [Close]
                       else t ++ [Send 200 (Failure e)]) = [Failure e]).
    { destruct br; rewrite !sent_app, HW; reflexivity. }
    rewrite Hs in Hin. destruct Hin as [Hin | []]. discriminate.
Qed.

Ltac unsent :=
  cbn; rewrite ?sent_app, ?sent_only_counts; reflexivity.

Lemma work_reads P url t1 feed t2 selector ms k selector' count
      (round : nat -> list JsObject -> @M W (list JsObject)) :
  (forall i s, Forall P s -> mute (round i s) (Forall P)) ->
  run_from false []
    (bind launch_browser (fun _ =>
     bind (call newPage) (fun _ =>
     bind (call (goto url t1)) (fun _ =>
     bind (call (waitForSelector feed t2)) (fun _ =>
     bind (loadEnough_tries selector ms k count) (fun _ =>
     bind (get_handles selector') (fun items =>
     bind (for_each (rounds (Math_min (of_nat items) count)) 0 round [])
          (fun data => res_json (Success data)))))))))
    (Gathered P).
Proof.
  intros Hround.
  apply run_bind, run_launch; [| intros e; reflexivity].
  apply run_bind, run_call; intros [[] | e]; [| reflexivity].
  apply run_bind, run_call; intros [[] | e]; [| reflexivity].
  apply run_bind, run_call; intros [[] | e]; [| reflexivity].
  apply run_bind. eapply run_weaken; [apply loadEnough_tries_run |].
  intros r br t (-> & polls & -> & Hlen).
  destruct r as [[] | e]; [| unsent].
  apply run_bind, run_get_handles; [intros n | intros e; unsent].
  apply run_bind. eapply run_weaken;
    [apply (rounds_read (Forall P) round Hround); constructor |].
  intros r br t (-> & -> & Hdata).
  destruct r as [data | e]; [| unsent].
  apply run_emit. exists data. split; [unsent | exact Hdata].
Qed.

Lemma scrape_v1_reads b : run_from false [] (scrape_v1 b) (Reads (read_by V1)).
Proof.
  unfold scrape_v1.
  destruct (negb (truthy (body_query b))).
  { apply run_emit. intros data [Hin | []]. discriminate. }
  assert (Hnone : forall (r : Result unit) br t,
             sent t = [] -> Reads (read_by V1) r br t).
  { intros r br t Hs data Hin. rewrite Hs in Hin. destruct Hin. }
  apply run_bind, run_launch; [| intros e; now apply Hnone].
  apply run_bind, run_call; intros [[] | e]; [| now apply Hnone].
  apply run_bind, run_call; intros [[] | e]; [| now apply Hnone].
  apply run_bind. eapply run_weaken.
  { apply (mute_try_catch _ _ (fun _ => True)).
    - call_step. apply mute_call. intros; exact I.
    - intros e. apply mute_ret. exact I. }
  intros r br t (-> & -> & _).
  destruct r as [[] | e]; [| now apply Hnone].
  apply run_bind, run_call; intros [[] | e]; [| now apply Hnone].
  apply run_bind. eapply run_weaken; [apply loadEnough_v1_run |].
  intros r br t (-> & polls & -> & _).
  destruct r as [[] | e]; [| apply Hnone; unsent].
  apply run_bind, run_count_cards; [intros n | intros e; apply Hnone; unsent].
  apply run_bind. eapply run_weaken.
  { apply (rounds_read (fun s : list JsObject * JsValue => Forall (read_by V1) (fst s))
             round_v1 round_v1_reads). constructor. }
  intros r br t (-> & -> & Hdata).
  destruct r as [s | e]; [| apply Hnone; unsent].
  apply run_bind, run_emit, run_close.
  apply (reads_closed (read_by V1) true _ _ (fst s)); [unsent | exact Hdata].
Qed.

Lemma scrape_v2_reads b : run_from false [] (scrape_v2 b) (Reads (read_by V2)).
Proof.
  unfold scrape_v2. destruct (negb (truthy (body_query b))).
  { apply run_emit. intros data [Hin | []]. discriminate. }
  apply guarded_reads.
  apply (work_reads (read_by V2)), round_v2_reads.
Qed.

Lemma scrape_v3_reads b : run_from false [] (scrape_v3 b) (Reads (read_by V3)).
Proof.
  unfold scrape_v3. destruct (negb (truthy (body_query b))).
  { apply run_emit. intros data [Hin | []]. discriminate. }
  apply guarded_reads.
  apply (work_reads (read_by V3)), round_v3_reads.
Qed.

Lemma scrape_v4_reads b : run_from false [] (scrape_v4 b) (Reads (read_by V4)).
Proof.
  unfold scrape_v4. destruct (negb (truthy (body_query b))).
  { apply run_emit. intros data [Hin | []]. discriminate. }
  apply guarded_reads.
  apply (work_reads (read_by V4)), round_v4_reads.
Qed.

(** The [email] of a record, handler by handler. *)
Definition email_ok (v : Variant) (r : JsObject) : Prop :=
  match v with
  | V1 | V4 => field "email" r = VString ""
  | V2 => field "email" r = VUndefined
  | V3 => exists e, field "email" r = VString e /\
                    (e = EmptyString \/
                     (includes e "@" = true /\
                      includes (toLowerCase e) "example." = false))
  end.

Lemma read_email v r : read_by v r -> email_ok v r.
Proof.
  destruct v; cbn [read_by email_ok].
  - intros (d & ->). reflexivity.
  - intros (d & ->). reflexivity.
  - intros (d & e & He & ->).
    change (field "email" (record_of (extract_v3 d) (js_or e (VString ""))))
      with (js_or e (VString "")).
    destruct He as [-> | (a & -> & Hat & Hex)].
    + exists EmptyString. split; [reflexivity | now left].
    + exists a. destruct a as [| c a]; [discriminate |].
      split; [reflexivity | right; now split].
  - intros (d & ->). reflexivity.
Qed.

(** X9. The email of the records of a results array: always the empty
    string in V1 and V4, which never look for one; no such key in V2; in V3
    the empty string or an address with an @ that does not contain
    [example.] in lower case. *)
Theorem emails_of_the_results (v : Variant) (b : Body) (w : W) (data : list JsObject) :
  In (Success data) (sent (trace (snd (run v b w)))) -> Forall (email_ok v) data.
Proof.
  intros Hin.
  apply Forall_impl with (P := read_by v); [apply read_email |].
  revert Hin. unfold run. destruct v; cbn [scrape].
  - exact (scrape_v1_reads b (start w) eq_refl eq_refl data).
  - exact (scrape_v2_reads b (start w) eq_refl eq_refl data).
  - exact (scrape_v3_reads b (start w) eq_refl eq_refl data).
  - exact (scrape_v4_reads b (start w) eq_refl eq_refl data).
Qed.

(** X10. The crawl of a site never fails the round, whatever the site
    does: [resolve_email] returns normally, leaves [browser] and the response
    as they were, and leaves in [email] null or an address with an @ that
    does not contain [example.] in lower case. For a place without a website
    it makes no call at all and [email] is null. *)
Theorem crawl_never_fails (website : JsValue) (st : St W) :
  fst (resolve_email website st) = Ok tt /\
  browser (snd (resolve_email website st)) = browser st /\
  trace (snd (resolve_email website st)) = trace st /\
  clean_email (email (snd (resolve_email website st))) /\
  (truthy website = false ->
   world (snd (resolve_email website st)) = world st /\
   email (snd (resolve_email website st)) = VNull).
Proof. exact (resolve_email_leads website st). Qed.

Lemma leads_resolved {A} (op : W -> Result A * W) st (Q : Result A -> St W -> Prop) :
  resolves op -> (forall a st', Q (Ok a) st') -> leads (call op) st Q.
Proof.
  intros Hop HQ. apply leads_call. intros r w' E.
  destruct (Hop (world st)) as (a & w1 & E1). rewrite E1 in E.
  injection E as <- <-. apply HQ.
Qed.

Definition returns {A} : Result A -> St W -> Prop :=
  fun r _ => exists a, r = Ok a.

Lemma round_v1_returns i s st :
  resolves (clickIndex cards_v1 i) -> resolves snapshot ->
  leads (round_v1 i s) st returns.
Proof.
  intros Hclick Hsnap. destruct s as [data lastName]. unfold round_v1.
  apply leads_bind, leads_resolved; [exact Hclick |]. intros clicked st1.
  destruct clicked; cbn [negb]; [| apply leads_ret; now eexists].
  apply leads_bind, leads_wait. apply leads_bind.
  apply leads_weaken with (P := returns).
  { apply leads_try_catch.
    apply leads_bind, leads_call. intros [[] | e] w2 _;
      [| apply leads_ret; now eexists].
    apply leads_bind, leads_call. intros [d | e] w3 _;
      [| apply leads_ret; now eexists].
    apply leads_ret. now eexists. }
  intros r st2 (found & ->).
  destruct found as [name |]; [| apply leads_ret; now eexists].
  destruct (negb (truthy name) || strict_eq name lastName);
    [apply leads_ret; now eexists |].
  apply leads_bind, leads_resolved; [exact Hsnap |]. intros d st3.
  apply leads_ret. now eexists.
Qed.

Lemma round_v3_returns i data st :
  resolves (clickIndex results_v3 i) -> resolves snapshot ->
  leads (round_v3 i data) st returns.
Proof.
  intros Hclick Hsnap. unfold round_v3.
  apply leads_bind.
  apply leads_weaken with (P := returns).
  { apply leads_try_catch, leads_call. intros [[] | e] w1 _; [now eexists |].
    apply leads_bind, leads_resolved; [exact Hclick |]. intros clicked st1.
    apply leads_ret. now eexists. }
  intros r st1 ([] & ->).
  apply leads_bind, leads_wait.
  apply leads_bind, leads_resolved; [exact Hsnap |]. intros d st2.
  apply leads_bind. eapply leads_weaken; [apply resolve_email_leads |].
  intros r st3 (-> & _).
  apply leads_bind, leads_get_email, leads_ret. now eexists.
Qed.

Lemma round_v4_returns i data st :
  fst (clickHandle i (world st)) = Ok tt -> resolves snapshot ->
  leads (round_v4 i data) st returns.
Proof.
  intros Hclick Hsnap. unfold round_v4.
  apply leads_bind, leads_call. intros r w1 E. rewrite E in Hclick.
  cbn [fst] in Hclick. subst r.
  apply leads_bind.
  apply leads_weaken with (P := returns).
  { apply leads_try_catch, leads_call. intros [[] | e] w2 _; [now eexists |].
    apply leads_ret. now eexists. }
  intros r st2 ([] & ->).
  apply leads_bind, leads_resolved; [exact Hsnap |]. intros d st3.
  apply leads_ret. now eexists.
Qed.

(** X11. What a round survives. When the click by index and the read of
    the document resolve, a round of V1 and a round of V3 return, whatever
    else fails: in V1 the wait for the heading, in V3 the click on the handle
    and every call on the site of the business. A round of V4 returns when
    the click on the handle and the read resolve, the heading found or not. *)
Theorem rounds_survive (i : nat) (s : list JsObject * JsValue)
        (data : list JsObject) (st : St W) :
  (forall selector, resolves (clickIndex selector i)) ->
  resolves snapshot ->
  (exists s', fst (round_v1 i s st) = Ok s') /\
  (exists data', fst (round_v3 i data st) = Ok data') /\
  (fst (clickHandle i (world st)) = Ok tt ->
   exists data', fst (round_v4 i data st) = Ok data').
Proof.
  intros Hclick Hsnap. split; [| split].
  - exact (round_v1_returns i s st (Hclick _) Hsnap).
  - exact (round_v3_returns i data st (Hclick _) Hsnap).
  - intros Hhandle. exact (round_v4_returns i data st Hhandle Hsnap).
Qed.

End Records.

(** A feed of two entries, the first with a site that shows a placeholder
    address before its own. *)
Definition acme_feed : Sim.World :=
  {| Sim.sim_entries := [Sim.pane_with_website "Acme" "https://acme.test/";
                         Sim.pane "Bolt"];
     Sim.sim_loaded := 2; Sim.sim_batch := 2; Sim.sim_pane := None;
     Sim.sim_online := true; Sim.sim_feed := true;
     Sim.sim_sites := [("https://acme.test/",
                        "<p>info@example.com</p><p>sales@acme.test</p>")];
     Sim.sim_site := "" |}.

Lemma emails_of_the_results_witness :
  exists data,
    In (Success data)
       (sent (trace (snd (run V3 (Sim.request "bakery" (VNumber (Num 5))) acme_feed)))) /\
    map (field "email") data = [VString "sales@acme.test"; VString ""] /\
    Forall (email_ok V3) data.
Proof.
  assert (Hs : exists data,
             sent (trace (snd (run V3 (Sim.request "bakery" (VNumber (Num 5))) acme_feed)))
             = [Success data] /\
             map (field "email") data = [VString "sales@acme.test"; VString ""])
    by (eexists; split; vm_compute; reflexivity).
  destruct Hs as (data & Hs & Hmails).
  assert (Hin : In (Success data)
                   (sent (trace (snd (run V3 (Sim.request "bakery" (VNumber (Num 5)))
                                         acme_feed)))))
    by (rewrite Hs; left; reflexivity).
  exists data.
  exact (conj Hin (conj Hmails (emails_of_the_results V3 _ _ data Hin))).
Defined.

Lemma sim_click_resolves selector i : resolves (clickIndex selector i).
Proof.
  intros w. cbn. destruct (Sim.entry w i); eexists; eexists; reflexivity.
Qed.

Lemma sim_snapshot_resolves : resolves (@snapshot Sim.World _).
Proof. intros w. eexists. eexists. reflexivity. Qed.

Lemma rounds_survive_witness :
  let st := start (Sim.feed [Sim.pane "A"; Sim.pane "B"] 2) in
  (exists s', fst (round_v1 0 ([], VNull) st) = Ok s') /\
  (exists data', fst (round_v3 0 [] st) = Ok data') /\
  (exists data', fst (round_v4 0 [] st) = Ok data').
Proof.
  intros st.
  destruct (rounds_survive 0 ([], VNull) [] st
              (fun selector => sim_click_resolves selector 0) sim_snapshot_resolves)
    as (H1 & H3 & H4).
  exact (conj H1 (conj H3 (H4 eq_refl))).
Defined.

(* ===================================================================== *)
(** ** The middleware of the scrape route *)
(* ===================================================================== *)

(** [jwt.verify(token, JWT_SECRET)]: whether it returns a payload rather
    than throws. *)
Class Tokens : Type := {
  jwt_verify : string -> bool
}.

Section Auth.

Context {W : Type} `{Puppeteer W} `{Builtins} `{Tokens}.

Definition deny (message : string) : @M W unit :=
  emit (Send 401 (Failure message)).

(** [auth], server.js lines 57-68; [next] is the handler of the route. *)
Definition auth (authorization : option string) (next : M unit) : M unit :=
  let authHeader := or_empty authorization in
  let token :=
    if startsWith authHeader "Bearer " then VString (drop 7 authHeader) else VNull in
  if negb (truthy token) then deny "No token"
  else if jwt_verify (to_String token) then next
  else deny "Invalid token".

(** [app.post("/api/scrape", auth, async (req, res) => ...)] *)
Definition route (v : Variant) (authorization : option string) (b : Body) : M unit :=
  auth authorization (scrape v b).

Lemma drop_prefix pre s : drop (String.length pre) (pre ++ s) = s.
Proof. induction pre as [| c pre IH]; [now destruct s | exact IH]. Qed.

Lemma drop_bearer tok : drop 7 ("Bearer " ++ tok) = tok.
Proof. exact (drop_prefix "Bearer " tok). Qed.

Lemma bearer_token authorization :
  match authorization with
  | Some h => startsWith h "Bearer " = true /\ drop 7 h <> EmptyString
  | None => False
  end ->
  exists tok, authorization = Some ("Bearer " ++ tok)%string /\ tok <> EmptyString.
Proof.
  destruct authorization as [h |]; [| intros []].
  intros [Hs Hd]. destruct (startsWith_inv _ _ Hs) as (tok & ->).
  exists tok. split; [reflexivity |].
  now rewrite drop_bearer in Hd.
Qed.

(** What [auth] does, by the header. *)
Lemma auth_cases authorization (next : M unit) :
  (exists tok, authorization = Some ("Bearer " ++ tok)%string /\ tok <> EmptyString /\
               auth authorization next
               = if jwt_verify tok then next else deny "Invalid token")
  \/ ((forall tok, authorization = Some ("Bearer " ++ tok)%string -> tok = EmptyString) /\
      auth authorization next = deny "No token").
Proof.
  unfold auth.
  destruct authorization as [h |]; cbn [or_empty].
  2: { right. split; [discriminate | reflexivity]. }
  destruct (startsWith h "Bearer ") eqn:Hs.
  2: { right. split; [| reflexivity].
       intros tok [= ->].
       change (startsWith ("Bearer " ++ tok) "Bearer " = false) in Hs.
       now rewrite startsWith_app in Hs. }
  destruct (startsWith_inv _ _ Hs) as (tok & ->).
  rewrite drop_bearer.
  destruct tok as [| c tok].
  - right. split; [| reflexivity]. intros tok [= E]. now rewrite <- E.
  - left. exists (String c tok). repeat split. discriminate.
Qed.

(** X12. The middleware lets a request through exactly when its
    authorization header is [Bearer ] followed by a non-empty token that
    [jwt.verify] accepts. A header that is absent, that does not start with
    [Bearer ] (in that case, with the space) or that stops there is answered
    401 [No token] without the token being looked at; a token that
    [jwt.verify] refuses is answered 401 [Invalid token]. In both cases
    nothing else happens. *)
Theorem auth_lets_verified_tokens_through (authorization : option string)
        (next : M unit) (st : St W) :
  (forall tok, authorization = Some ("Bearer " ++ tok)%string -> tok <> EmptyString ->
     auth authorization next st
     = if jwt_verify tok then next st
       else (Ok tt, {| world := world st; browser := browser st; email := email st;
                       trace := trace st ++ [Send 401 (Failure "Invalid token")] |}))
  /\
  ((forall tok, authorization = Some ("Bearer " ++ tok)%string -> tok = EmptyString) ->
     auth authorization next st
     = (Ok tt, {| world := world st; browser := browser st; email := email st;
                  trace := trace st ++ [Send 401 (Failure "No token")] |})).
Proof.
  destruct (auth_cases authorization next)
    as [(tok & -> & Hne & Hauth) | (Hnone & Hauth)]; rewrite Hauth; split.
  - intros tok' [= E] _.
    assert (Heq : tok' = tok).
    { rewrite <- (drop_bearer tok'), <- (drop_bearer tok). now rewrite E. }
    subst tok'. now destruct (jwt_verify tok).
  - intros Hall. now destruct Hne; apply Hall.
  - intros tok E Hne. now destruct Hne; apply Hnone.
  - reflexivity.
Qed.

(** X13. No browser is launched for a request that does not carry a token
    that [jwt.verify] accepts: a run of the route in which the browser was
    launched, or a count of the feed taken, or a body sent with a status
    other than 401, had such a token in its header. *)
Theorem no_browser_without_a_token (v : Variant) (authorization : option string)
        (b : Body) (w : W) :
  (exists e, In e (trace (snd (route v authorization b (start w)))) /\
             forall message, e <> Send 401 (Failure message)) ->
  exists tok, authorization = Some ("Bearer " ++ tok)%string /\ tok <> EmptyString /\
              jwt_verify tok = true /\
              route v authorization b (start w) = run v b w.
Proof.
  intros (e & Hin & Hnot). unfold route in *.
  destruct (auth_cases authorization (scrape v b))
    as [(tok & -> & Hne & Hauth) | (Hnone & Hauth)]; rewrite Hauth in *.
  - exists tok. destruct (jwt_verify tok).
    + repeat split. exact Hne.
    + destruct Hin as [<- | []]. now destruct (Hnot "Invalid token").
  - destruct Hin as [<- | []]. now destruct (Hnot "No token").
Qed.

End Auth.

(** Tokens for the runs: one token is good. *)
#[global] Instance sim_tokens : Tokens := {
  jwt_verify tok := String.eqb tok "good"
}.

Lemma auth_lets_verified_tokens_through_witness :
  auth (Some "Bearer good") (scrape V2 (Sim.request "bakery" VUndefined))
       (start Sim.offline)
  = run V2 (Sim.request "bakery" VUndefined) Sim.offline /\
  sent (trace (snd (auth (Some "Bearer bad") (scrape V2 (Sim.request "bakery" VUndefined))
                         (start Sim.offline))))
  = [Failure "Invalid token"] /\
  sent (trace (snd (auth (Some "bearer good") (scrape V2 (Sim.request "bakery" VUndefined))
                         (start Sim.offline))))
  = [Failure "No token"].
Proof.
  split; [| split].
  - exact (proj1 (auth_lets_verified_tokens_through (Some "Bearer good")
                    (scrape V2 (Sim.request "bakery" VUndefined)) (start Sim.offline))
                 "good" eq_refl ltac:(discriminate)).
  - rewrite (proj1 (auth_lets_verified_tokens_through (Some "Bearer bad")
                      (scrape V2 (Sim.request "bakery" VUndefined)) (start Sim.offline))
                   "bad" eq_refl ltac:(discriminate)).
    reflexivity.
  - rewrite (proj2 (auth_lets_verified_tokens_through (Some "bearer good")
                      (scrape V2 (Sim.request "bakery" VUndefined)) (start Sim.offline))
                   ltac:(discriminate)).
    reflexivity.
Defined.

Lemma no_browser_without_a_token_witness :
  exists tok, Some "Bearer good" = Some ("Bearer " ++ tok)%string /\ tok <> EmptyString /\
              jwt_verify tok = true /\
              route V2 (Some "Bearer good") (Sim.request "bakery" VUndefined)
                    (start Sim.offline)
              = run V2 (Sim.request "bakery" VUndefined) Sim.offline.
Proof.
  apply (no_browser_without_a_token V2 (Some "Bearer good")
           (Sim.request "bakery" VUndefined) Sim.offline).
  exists (Send 200 (Failure "net::ERR_INTERNET_DISCONNECTED")).
  split; [vm_compute; auto | discriminate].
Defined.

(* ===================================================================== *)
(** ** The account routes *)
(* ===================================================================== *)

(** A library call of the account routes resolves, or rejects with an error
    of which the routes read the [code] only. *)
Inductive Outcome (A : Type) : Type :=
| Resolved (a : A)
| Rejected (code : JsValue).
Arguments Resolved {A} a.
Arguments Rejected {A} code.

(** The columns of a row of [users] that the login reads. *)
Record User : Type := {
  user_id : JsValue;
  user_username : JsValue;
  user_password : JsValue
}.

(** [bcrypt], [jsonwebtoken] and the pool of [db.js], as transitions of a
    state [D] of which nothing is assumed. *)
Class Accounts (D : Type) : Type := {
  (** [bcrypt.hash(password, 10)] *)
  bcrypt_hash : JsValue -> D -> Outcome string * D;
  (** [bcrypt.compare(password, user.password)] *)
  bcrypt_compare : JsValue -> JsValue -> D -> Outcome bool * D;
  (** [jwt.sign({ id, username }, JWT_SECRET, { expiresIn: "6h" })] *)
  jwt_sign : JsValue -> JsValue -> D -> Outcome string * D;
  (** the INSERT INTO users of the signup *)
  insert_user : JsValue -> JsValue -> JsValue -> string -> D -> Outcome unit * D;
  (** the SELECT of the login: [result.rows] *)
  select_user : JsValue -> D -> Outcome (list User) * D
}.

Inductive AccountBody : Type :=
| Created                        (* { success: true } *)
| Granted (token : string)       (* { success: true, token } *)
| Denied (message : string).     (* { success: false, message } *)

(** What a run of an account route does. *)
Inductive Act : Type :=
| Hash (password : JsValue)
| Insert (username email mobile : JsValue) (hash : string)
| Select (username : JsValue)
| Compare (password stored : JsValue)
| Sign (id username : JsValue)
| Reply (body : AccountBody).

Record SignupBody : Type := {
  su_username : JsValue;
  su_email : JsValue;
  su_mobile : JsValue;
  su_password : JsValue
}.

Record LoginBody : Type := {
  li_username : JsValue;
  li_password : JsValue
}.

Section AccountRoutes.

Context {D : Type} `{Accounts D}.

(** The state of the services and the acts so far. *)
Definition Acc (T : Type) : Type := D * list Act -> Outcome T * (D * list Act).

Definition a_ret {T} (x : T) : Acc T := fun s => (Resolved x, s).

Definition a_bind {T U} (m : Acc T) (k : T -> Acc U) : Acc U :=
  fun s =>
    match m s with
    | (Resolved x, s') => k x s'
    | (Rejected code, s') => (Rejected code, s')
    end.

Definition a_catch {T} (m : Acc T) (h : JsValue -> Acc T) : Acc T :=
  fun s =>
    match m s with
    | (Resolved x, s') => (Resolved x, s')
    | (Rejected code, s') => h code s'
    end.

(** A call, noted before it is made. *)
Definition a_call {T} (act : Act) (op : D -> Outcome T * D) : Acc T :=
  fun s =>
    let (r, d) := op (fst s) in (r, (d, snd s ++ [act])).

Definition reply (body : AccountBody) : Acc unit :=
  fun s => (Resolved tt, (fst s, snd s ++ [Reply body])).

(** [/api/signup], server.js lines 71-91 *)
Definition signup (b : SignupBody) : Acc unit :=
  let username := su_username b in
  let email := su_email b in
  let mobile := su_mobile b in
  let password := su_password b in
  a_catch
    (if negb (truthy username) || negb (truthy email) || negb (truthy mobile)
        || negb (truthy password)
     then reply (Denied "All fields are required")
     else
       a_bind (a_call (Hash password) (bcrypt_hash password)) (fun hash =>
       a_bind (a_call (Insert username email mobile hash)
                      (insert_user username email mobile hash)) (fun _ =>
       reply Created)))
    (fun code =>
       if strict_eq code (VString "23505")
       then reply (Denied "User/email/mobile already exists")
       else reply (Denied "Signup failed")).

(** [/api/login], server.js lines 93-107 *)
Definition login (b : LoginBody) : Acc unit :=
  let username := li_username b in
  let password := li_password b in
  a_catch
    (a_bind (a_call (Select username) (select_user username)) (fun rows =>
     match rows with
     | [] => reply (Denied "User not found")
     | user :: _ =>
         a_bind (a_call (Compare password (user_password user))
                        (bcrypt_compare password (user_password user))) (fun matched =>
         if negb matched then reply (Denied "Wrong password")
         else
           a_bind (a_call (Sign (user_id user) (user_username user))
                          (jwt_sign (user_id user) (user_username user))) (fun token =>
           reply (Granted token)))
     end))
    (fun _ => reply (Denied "Login failed")).

(** The bodies sent. *)
Fixpoint replies (log : list Act) : list AccountBody :=
  match log with
  | [] => []
  | Reply body :: log' => body :: replies log'
  | _ :: log' => replies log'
  end.

Definition complete (b : SignupBody) : bool :=
  truthy (su_username b) && truthy (su_email b) && truthy (su_mobile b)
  && truthy (su_password b).

Lemma complete_guard b :
  negb (truthy (su_username b)) || negb (truthy (su_email b))
  || negb (truthy (su_mobile b)) || negb (truthy (su_password b))
  = negb (complete b).
Proof.
  unfold complete.
  now destruct (truthy (su_username b)), (truthy (su_email b)),
    (truthy (su_mobile b)), (truthy (su_password b)).
Qed.

(** X14. The signup answers every request once and never throws. It
    calls nothing when one of the four fields is missing or falsy. What it
    inserts is the three fields as sent and the hash that [bcrypt] returned
    for the password, and it inserts once at most. It answers
    [{ success: true }] exactly when the hash and the insert both resolved,
    and [User/email/mobile already exists] exactly when one of them rejected
    with the code [23505]. *)
Theorem signup_stores_the_hash (b : SignupBody) (d : D) :
  let out := signup b (d, []) in
  let log := snd (snd out) in
  fst out = Resolved tt /\
  (exists calls body, log = calls ++ [Reply body] /\ replies calls = []) /\
  (complete b = false ->
   out = (Resolved tt, (d, [Reply (Denied "All fields are required")]))) /\
  (forall u e m h, In (Insert u e m h) log ->
     complete b = true /\
     u = su_username b /\ e = su_email b /\ m = su_mobile b /\
     fst (bcrypt_hash (su_password b) d) = Resolved h /\
     log = [Hash (su_password b); Insert u e m h; Reply (last (replies log) Created)]) /\
  (replies log = [Created] <->
   complete b = true /\
   exists h d1, bcrypt_hash (su_password b) d = (Resolved h, d1) /\
     fst (insert_user (su_username b) (su_email b) (su_mobile b) h d1) = Resolved tt) /\
  (replies log = [Denied "User/email/mobile already exists"] <->
   complete b = true /\
   exists code, strict_eq code (VString "23505") = true /\
     (fst (bcrypt_hash (su_password b) d) = Rejected code \/
      exists h d1, bcrypt_hash (su_password b) d = (Resolved h, d1) /\
        fst (insert_user (su_username b) (su_email b) (su_mobile b) h d1)
        = Rejected code)).
Proof.
  cbv zeta. unfold signup, a_catch, a_bind, a_call, reply.
  rewrite complete_guard.
  destruct (complete b) eqn:Hc; cbn [negb fst snd app].
  2: { split; [reflexivity |].
       split; [exists [], (Denied "All fields are required"); now split |].
       split; [reflexivity |].
       split; [intros u e m h [Hin | []]; discriminate |].
       split; (split; [intros E; discriminate | intros [E _]; discriminate]). }
  destruct (bcrypt_hash (su_password b) d) as [[h | code] d1] eqn:Hh;
    cbn [fst snd app].
  2: { destruct (strict_eq code (VString "23505")) eqn:Hcode; cbn [fst snd app replies].
       - split; [reflexivity |].
         split; [exists [Hash (su_password b)]; eexists; now split |].
         split; [discriminate |].
         split; [intros u e m h [Hin | [Hin | []]]; discriminate |].
         split; (split; [intros E; try discriminate | intros [_ E]]).
         + destruct E as (h & d2 & E & _). discriminate.
         + split; [reflexivity |]. exists code. split; [exact Hcode | now left].
         + reflexivity.
       - split; [reflexivity |].
         split; [exists [Hash (su_password b)]; eexists; now split |].
         split; [discriminate |].
         split; [intros u e m h [Hin | [Hin | []]]; discriminate |].
         split; (split; [intros E; try discriminate | intros [_ E]]).
         + destruct E as (h & d2 & E & _). discriminate.
         + destruct E as (code' & Hcode' & [E | (h & d2 & E & _)]);
             [| discriminate].
           injection E as <-. congruence. }
  destruct (insert_user (su_username b) (su_email b) (su_mobile b) h d1)
    as [[[] | code] d2] eqn:Hi; cbn [fst snd app replies].
  - split; [reflexivity |].
    split; [eexists [_; _]; eexists; now split |].
    split; [discriminate |].
    split.
    { intros u e m h' [Hin | [Hin | [Hin | []]]]; try discriminate.
      injection Hin as <- <- <- <-. repeat split. }
    split; (split; [intros E; try discriminate | intros [_ E]]).
    + split; [reflexivity |]. exists h, d1. split; [reflexivity |]. now rewrite Hi.
    + reflexivity.
    + destruct E as (code & _ & [E | (h' & d' & E & E')]); [discriminate |].
      injection E as <- <-. rewrite Hi in E'. discriminate.
  - destruct (strict_eq code (VString "23505")) eqn:Hcode; cbn [fst snd app replies].
    + split; [reflexivity |].
      split; [eexists [_; _]; eexists; now split |].
      split; [discriminate |].
      split.
      { intros u e m h' [Hin | [Hin | [Hin | []]]]; try discriminate.
        injection Hin as <- <- <- <-. repeat split. }
      split; (split; [intros E; try discriminate | intros [_ E]]).
      * destruct E as (h' & d' & E & E'). injection E as <- <-.
        rewrite Hi in E'. discriminate.
      * split; [reflexivity |]. exists code. split; [exact Hcode |].
        right. exists h, d1. split; [reflexivity |]. now rewrite Hi.
      * reflexivity.
    + split; [reflexivity |].
      split; [eexists [_; _]; eexists; now split |].
      split; [discriminate |].
      split.
      { intros u e m h' [Hin | [Hin | [Hin | []]]]; try discriminate.
        injection Hin as <- <- <- <-. repeat split. }
      split; (split; [intros E; try discriminate | intros [_ E]]).
      * destruct E as (h' & d' & E & E'). injection E as <- <-.
        rewrite Hi in E'. discriminate.
      * destruct E as (code' & Hcode' & [E | (h' & d' & E & E')]);
          [discriminate |].
        injection E as <- <-. rewrite Hi in E'. injection E' as <-. congruence.
Qed.

Ltac in_log :=
  repeat match goal with
         | H : In _ (_ :: _) |- _ => destruct H as [H | H]; try discriminate H
         | H : In _ [] |- _ => destruct H
         end.

Ltac settle :=
  repeat match goal with
         | H : exists _, _ |- _ => destruct H as (? & H)
         | H : _ /\ _ |- _ => destruct H as (? & H)
         | H : (_, _) = (_, _) |- _ => injection H as ? ?
         | H : Resolved _ = Resolved _ |- _ => injection H as ?
         | H : _ :: _ = _ :: _ |- _ => injection H as ? ?
         end;
  subst; cbn [fst snd] in *; try discriminate; try congruence.

(** X15. The login answers every request once and never throws; the
    query comes first. It compares the password sent with the stored
    password of the first row only, and it grants a token only when the
    query found a row and [bcrypt.compare] resolved to true for that row: the
    token is then the one [jwt.sign] returned for the id and the username of
    that row. [User not found] is the answer exactly when the query resolved
    with no row, [Wrong password] exactly when the comparison resolved to
    false. *)
Theorem login_grants_on_a_match (b : LoginBody) (d : D) :
  let out := login b (d, []) in
  let log := snd (snd out) in
  fst out = Resolved tt /\
  (exists calls body,
      log = Select (li_username b) :: calls ++ [Reply body] /\ replies calls = []) /\
  (forall password stored, In (Compare password stored) log ->
     password = li_password b /\
     exists user rows, fst (select_user (li_username b) d) = Resolved (user :: rows) /\
                       stored = user_password user) /\
  (forall token, In (Reply (Granted token)) log ->
     exists user rows d1 d2,
       select_user (li_username b) d = (Resolved (user :: rows), d1) /\
       bcrypt_compare (li_password b) (user_password user) d1 = (Resolved true, d2) /\
       fst (jwt_sign (user_id user) (user_username user) d2) = Resolved token) /\
  (replies log = [Denied "User not found"] <->
   fst (select_user (li_username b) d) = Resolved []) /\
  (replies log = [Denied "Wrong password"] <->
   exists user rows d1,
     select_user (li_username b) d = (Resolved (user :: rows), d1) /\
     fst (bcrypt_compare (li_password b) (user_password user) d1) = Resolved false).
Proof.
  cbv zeta. unfold login, a_catch, a_bind, a_call, reply. cbn [fst snd app].
  destruct (select_user (li_username b) d) as [[[| user rows] | code] d1] eqn:Hs;
    cbn [fst snd app replies].
  - split; [reflexivity |].
    split; [exists [], (Denied "User not found"); now split |].
    split; [intros; in_log |]. split; [intros; in_log |].
    split; (split; intros E; settle).
  - destruct (bcrypt_compare (li_password b) (user_password user) d1)
      as [[[|] | code] d2] eqn:Hm; cbn [negb fst snd app replies].
    + destruct (jwt_sign (user_id user) (user_username user) d2)
        as [[token | code] d3] eqn:Hj; cbn [fst snd app replies].
      * split; [reflexivity |].
        split; [eexists [_; _]; eexists; now split |].
        split.
        { intros password stored Hin. in_log. injection Hin as <- <-.
          split; [reflexivity |]. now exists user, rows. }
        split.
        { intros token' Hin. in_log. injection Hin as <-.
          exists user, rows, d1, d2. rewrite Hj. now repeat split. }
        split; (split; intros E; settle).
        rewrite Hm in *. settle.
      * split; [reflexivity |].
        split; [eexists [_; _]; eexists; now split |].
        split.
        { intros password stored Hin. in_log. injection Hin as <- <-.
          split; [reflexivity |]. now exists user, rows. }
        split; [intros; in_log |].
        split; (split; intros E; settle).
        rewrite Hm in *. settle.
    + split; [reflexivity |].
      split; [eexists [_]; eexists; now split |].
      split.
      { intros password stored Hin. in_log. injection Hin as <- <-.
        split; [reflexivity |]. now exists user, rows. }
      split; [intros; in_log |].
      split; (split; intros E; settle).
      exists user, rows, d1. rewrite Hm. now split.
    + split; [reflexivity |].
      split; [eexists [_]; eexists; now split |].
      split.
      { intros password stored Hin. in_log. injection Hin as <- <-.
        split; [reflexivity |]. now exists user, rows. }
      split; [intros; in_log |].
      split; (split; intros E; settle).
      rewrite Hm in *. settle.
  - split; [reflexivity |].
    split; [exists [], (Denied "Login failed"); now split |].
    split; [intros; in_log |]. split; [intros; in_log |].
    split; (split; intros E; settle).
Qed.

End AccountRoutes.

(* ===================================================================== *)
(** ** The shape of the results *)
(* ===================================================================== *)

Section Contract.

Context {W : Type} `{Puppeteer W} `{Builtins}.

Ltac read_field :=
  lazy beta iota zeta delta
    [field record_of record_of_v4 extract_v1 extract_v2 extract_v3 extract_v4
     String.eqb Ascii.eqb Bool.eqb andb].

Ltac stringy :=
  repeat first
    [ exact I
    | apply or_null_stringish
    | apply or_stringish
    | apply opt_trim_stringish
    | apply of_option_stringish
    | apply clean_website_stringish
    | apply getBtnText_stringish
    | apply getAnchorText_stringish
    | match goal with
      | |- stringish (match ?x with _ => _ end) => destruct x
      end ].

Ltac texts :=
  unfold text_keys;
  repeat (first [apply Forall_nil | apply Forall_cons]); read_field;
  first [ apply rating_text
        | now eexists
        | apply or_empty_text; stringy
        | apply clean_website_text, or_empty_text, of_option_stringish ].

(** The keys of a record, in the order of the object literal. *)
Definition record_keys : list string :=
  ["name"; "email"; "mobile"; "address"; "website"; "description"; "rating";
   "reviews"].

Definition place_keys : list string :=
  ["name"; "address"; "phone"; "website"; "rating"; "reviews"].

(** What a client finds in a record: in V1, V3 and V4 the eight keys, seven
    strings and a count; in V2 the six keys of the place, all strings. *)
Definition well_formed (v : Variant) (r : JsObject) : Prop :=
  match v with
  | V2 => map fst r = place_keys /\
          Forall (fun k => is_text (field k r)) place_keys
  | V1 | V3 | V4 =>
      map fst r = record_keys /\
      Forall (fun k => is_text (field k r)) ("email" :: text_keys) /\
      is_count (field "reviews" r)
  end.

Lemma clean_email_text e : clean_email e -> is_text (js_or e (VString "")).
Proof.
  intros [-> | (a & -> & _)]; [now exists EmptyString |].
  apply or_empty_text. exact I.
Qed.

Lemma reviews_v2_text bs : is_text (reviews_v2 bs).
Proof.
  unfold reviews_v2. destruct (find is_reviews_button bs) as [reviewsBtn |];
    [| now eexists].
  destruct (Regex.match_first Regex.count_re (or_empty (aria_label reviewsBtn)));
    now eexists.
Qed.

Lemma read_well_formed v r : read_by v r -> well_formed v r.
Proof.
  destruct v; cbn [read_by well_formed].
  - intros (d & ->). split; [reflexivity |]. split.
    + apply Forall_cons; [now eexists | texts].
    + change (field "reviews" (record_of (extract_v1 d) (VString "")))
        with (js_or (VNumber (reviews_v1 (buttons d))) (VNumber (Num 0))).
      apply reviews_v1_count.
  - intros (d & ->). split; [reflexivity |].
    unfold place_keys.
    repeat (first [apply Forall_nil | apply Forall_cons]); read_field;
      first [ apply reviews_v2_text
            | apply or_empty_text; stringy
            | apply clean_website_text, or_empty_text, of_option_stringish ].
  - intros (d & e & He & ->). split; [reflexivity |]. split.
    + apply Forall_cons; [now apply clean_email_text | texts].
    + change (field "reviews" (record_of (extract_v3 d) (js_or e (VString ""))))
        with (js_or (reviews_v3 (buttons d)) (VNumber (Num 0))).
      apply reviews_v3_count.
  - intros (d & ->). split; [reflexivity |]. split.
    + apply Forall_cons; [now eexists | texts].
    + change (field "reviews" (record_of_v4 (extract_v4 d)))
        with (js_or (reviews_v3 (buttons d)) (VNumber (Num 0))).
      apply reviews_v3_count.
Qed.

(** X16. Every record of every results array has the shape the client
    reads. In V1, V3 and V4 it has the eight keys name, email, mobile,
    address, website, description, rating and reviews, in that order; the
    first seven are strings, none null or undefined, and reviews is a
    non-negative integer. In V2 it is the place as read: six keys, no email,
    mobile or description, phone in place of mobile, and all six strings. *)
Theorem results_have_the_shape (v : Variant) (b : Body) (w : W) (data : list JsObject) :
  In (Success data) (sent (trace (snd (run v b w)))) -> Forall (well_formed v) data.
Proof.
  intros Hin.
  apply Forall_impl with (P := read_by v); [apply read_well_formed |].
  revert Hin. unfold run. destruct v; cbn [scrape].
  - exact (scrape_v1_reads b (start w) eq_refl eq_refl data).
  - exact (scrape_v2_reads b (start w) eq_refl eq_refl data).
  - exact (scrape_v3_reads b (start w) eq_refl eq_refl data).
  - exact (scrape_v4_reads b (start w) eq_refl eq_refl data).
Qed.

(** The trace of a run, read as a browser session. *)
Lemma not_in_counts (e : Event) cs :
  (forall n, e <> Count n) -> ~ In e (map Count cs).
Proof.
  intros He Hin. apply in_map_iff in Hin. destruct Hin as (n & Hn & _).
  now apply (He n).
Qed.

(** X17. The browser session of a request. A browser is launched once at
    most, before anything else the handler notes, and closed once at most,
    after everything else and only if it was launched. V1 closes the browser
    exactly when it sent a results array: when an error leaves V1, nothing
    was sent and no browser was closed. *)
Theorem browser_session (v : Variant) (b : Body) (w : W) :
  let r := fst (run v b w) in
  let t := trace (snd (run v b w)) in
  (In Launch t -> exists t', t = Launch :: t' /\ ~ In Launch t') /\
  (In Close t -> exists t', t = Launch :: t' ++ [Close] /\ ~ In Close t') /\
  (guards v = false ->
     (In Close t <-> exists data, sent t = [Success data]) /\
     (forall e, r = Throw e -> sent t = [] /\ ~ In Close t)).
Proof.
  cbv zeta.
  assert (Hno : forall (e : Event) cs u,
             (forall n, e <> Count n) -> In e (map Count cs ++ u) -> In e u).
  { intros e cs u He Hin. apply in_app_or in Hin. destruct Hin as [Hin | Hin];
      [now destruct (not_in_counts e cs He) | exact Hin]. }
  destruct (run_shape v b w) as [| e Hg | e Hg | e cs Hg Hcs | e cs Hg Hcs
                                  | polls n data Hp Hd].
  - split; [intros [Hin | []]; discriminate |].
    split; [intros [Hin | []]; discriminate |].
    intros _. split; [| intros e [=]].
    split; [intros [Hin | []]; discriminate | intros (data & Hs); discriminate].
  - split; [intros [Hin | []]; discriminate |].
    split; [intros [Hin | []]; discriminate |]. congruence.
  - split; [intros [] |]. split; [intros [] |].
    intros _. split; [| intros e' _; split; [reflexivity | intros []]].
    split; [intros [] | intros (data & Hs); discriminate].
  - split; [| split; [| congruence]].
    + intros _. eexists. split; [reflexivity |]. intros Hin.
      apply Hno in Hin; [| discriminate].
      destruct Hin as [Hin | [Hin | []]]; discriminate.
    + intros _. exists (map Count cs ++ [Send 200 (Failure e)]).
      split; [cbn; now rewrite <- app_assoc |].
      intros Hin. apply Hno in Hin; [| discriminate].
      destruct Hin as [Hin | []]; discriminate.
  - split; [| split].
    + intros _. eexists. split; [reflexivity |].
      now apply not_in_counts.
    + intros [Hin | Hin]; [discriminate |].
      now destruct (not_in_counts Close cs ltac:(discriminate)).
    + intros _. split; [| intros e' _; split].
      * split.
        -- intros [Hin | Hin]; [discriminate |].
           now destruct (not_in_counts Close cs ltac:(discriminate)).
        -- intros (data & Hs). cbn [sent] in Hs.
           rewrite sent_only_counts in Hs. discriminate.
      * cbn [sent]. apply sent_only_counts.
      * intros [Hin | Hin]; [discriminate |].
        now destruct (not_in_counts Close cs ltac:(discriminate)).
  - split; [| split].
    + intros _. eexists. split; [reflexivity |]. intros Hin.
      apply Hno in Hin; [| discriminate].
      destruct Hin as [Hin | [Hin | []]]; discriminate.
    + intros _. exists (map Count (polls ++ [n]) ++ [Send 200 (Success data)]).
      split; [cbn; now rewrite <- app_assoc |].
      intros Hin. apply Hno in Hin; [| discriminate].
      destruct Hin as [Hin | []]; discriminate.
    + intros _. split; [| intros e [=]].
      split.
      * intros _. exists data. cbn [sent]. now rewrite sent_counts.
      * intros _. right. apply in_or_app. right. right. now left.
Qed.

End Contract.

Lemma results_have_the_shape_witness :
  exists data,
    In (Success data)
       (sent (trace (snd (run V3 (Sim.request "bakery" (VNumber (Num 5))) acme_feed)))) /\
    Forall (well_formed V3) data.
Proof.
  assert (Hs : exists data,
             sent (trace (snd (run V3 (Sim.request "bakery" (VNumber (Num 5))) acme_feed)))
             = [Success data])
    by (eexists; vm_compute; reflexivity).
  destruct Hs as (data & Hs).
  assert (Hin : In (Success data)
                   (sent (trace (snd (run V3 (Sim.request "bakery" (VNumber (Num 5)))
                                         acme_feed)))))
    by (rewrite Hs; left; reflexivity).
  exists data.
  exact (conj Hin (results_have_the_shape V3 _ _ data Hin)).
Defined.

(* ===================================================================== *)
(** ** A feed that does not grow *)
(* ===================================================================== *)

Section Steady.

Context {W : Type} `{Puppeteer W} `{Builtins}.

(** The worlds [Inv] are those of a feed that shows [n] entries and keeps
    showing [n], however often it is scrolled and however long one waits. *)
Variable Inv : W -> Prop.
Variable n : nat.

Hypothesis steady_count :
  forall selector w, Inv w -> exists w', countAll selector w = (Ok n, w') /\ Inv w'.
Hypothesis steady_scroll :
  forall w, Inv w -> exists w', scrollFeed w = (Ok tt, w') /\ Inv w'.
Hypothesis steady_sleep : forall ms w, Inv w -> Inv (sleep ms w).

(** The loader returned after [k] polls that all found [n]. *)
Definition polled_steadily (k : nat) (st : St W) : Result unit -> St W -> Prop :=
  fun r st' =>
    r = Ok tt /\ trace st' = trace st ++ map Count (repeat n k) /\ Inv (world st').

Lemma leads_count_steady selector st (Q : Result nat -> St W -> Prop) :
  Inv (world st) ->
  (forall w', Inv w' ->
     Q (Ok n) {| world := w'; browser := browser st; email := email st;
                 trace := trace st ++ [Count n] |}) ->
  leads (count_cards selector) st Q.
Proof.
  intros Hi HQ. unfold count_cards.
  apply leads_bind, leads_call. intros r w' E.
  destruct (steady_count selector _ Hi) as (w1 & E1 & Hi1).
  rewrite E1 in E. injection E as <- <-.
  apply leads_bind, leads_emit, leads_ret. now apply HQ.
Qed.

Lemma leads_scroll_steady st (Q : Result unit -> St W -> Prop) :
  Inv (world st) ->
  (forall w', Inv w' ->
     Q (Ok tt) {| world := w'; browser := browser st; email := email st;
                  trace := trace st |}) ->
  leads (call scrollFeed) st Q.
Proof.
  intros Hi HQ. apply leads_call. intros r w' E.
  destruct (steady_scroll _ Hi) as (w1 & E1 & Hi1).
  rewrite E1 in E. injection E as <- <-. now apply HQ.
Qed.

Lemma repeat_snoc_trace (t : list Event) k :
  (t ++ [Count n]) ++ map Count (repeat n k) = t ++ map Count (repeat n (S k)).
Proof. now rewrite <- app_assoc. Qed.

Lemma tries_steady selector ms count k :
  below count n ->
  forall st, Inv (world st) ->
    leads (loadEnough_tries selector ms k count) st (polled_steadily k st).
Proof.
  intros Hbelow. induction k as [| k IH]; intros st Hi; cbn [loadEnough_tries].
  - apply leads_ret. repeat split; [cbn; now rewrite app_nil_r | exact Hi].
  - apply leads_bind, leads_count_steady; [exact Hi |]. intros w1 Hi1.
    unfold below in Hbelow. rewrite Hbelow.
    apply leads_bind, leads_scroll_steady; [exact Hi1 |]. intros w2 Hi2.
    apply leads_bind, leads_wait.
    eapply leads_weaken; [apply IH; cbn [world]; now apply steady_sleep |].
    intros r st' (-> & Ht & Hi'). cbn [trace] in Ht.
    repeat split; [| exact Hi']. now rewrite Ht, repeat_snoc_trace.
Qed.

(** The polls V1 makes before it gives up, from [seen] and [stagnant]. *)
Definition patience (seen stagnant : nat) : nat :=
  if Nat.eqb n seen then 6 - stagnant else 7.

Lemma v1_steady count k :
  below count n ->
  forall seen stagnant st,
    stagnant < 6 -> patience seen stagnant <= k -> Inv (world st) ->
    leads (loadEnough_v1_loop k count seen stagnant) st
          (polled_steadily (patience seen stagnant) st).
Proof.
  intros Hbelow. unfold patience.
  induction k as [| k IH]; intros seen stagnant st Hs Hk Hi.
  { destruct (Nat.eqb n seen); lia. }
  cbn [loadEnough_v1_loop].
  apply leads_bind, leads_count_steady; [exact Hi |]. intros w1 Hi1.
  unfold below in Hbelow. rewrite Hbelow.
  apply leads_bind, leads_scroll_steady; [exact Hi1 |]. intros w2 Hi2.
  apply leads_bind, leads_wait.
  destruct (Nat.leb 6 (if Nat.eqb n seen then S stagnant else 0)) eqn:Hstop.
  - apply Nat.leb_le in Hstop. destruct (Nat.eqb n seen); [| lia].
    replace (6 - stagnant) with 1 by lia.
    apply leads_ret. repeat split. cbn [world]. now apply steady_sleep.
  - apply Nat.leb_gt in Hstop.
    eapply leads_weaken.
    { apply (IH n (if Nat.eqb n seen then S stagnant else 0)); [exact Hstop | |].
      - rewrite Nat.eqb_refl. destruct (Nat.eqb n seen); lia.
      - cbn [world]. now apply steady_sleep. }
    rewrite Nat.eqb_refl.
    intros r st' (-> & Ht & Hi'). cbn [trace] in Ht.
    repeat split; [| exact Hi'].
    rewrite Ht, repeat_snoc_trace. f_equal. f_equal. f_equal.
    destruct (Nat.eqb n seen); lia.
Qed.

(** X18. On a feed that shows [n] entries, fewer than asked, and that no
    scroll makes grow, the loader of V2 polls fifteen times and those of V3
    and V4 twenty times, the bound of their loop; the loader of V1 gives up
    after seven polls, six when the feed is empty, as its counter of unchanged
    polls starts from a count of zero. Each of them then returns normally. *)
Theorem steady_feed_polls (v : Variant) (count : JsNumber) (st : St W) :
  below count n -> Inv (world st) ->
  fst (loader v count st) = Ok tt /\
  trace (snd (loader v count st))
  = trace st ++ map Count (repeat n (match v with
                                     | V1 => if Nat.eqb n 0 then 6 else 7
                                     | V2 => 15
                                     | V3 | V4 => 20
                                     end)) /\
  Inv (world (snd (loader v count st))).
Proof.
  intros Hbelow Hi. destruct v; cbn [loader].
  - exact (v1_steady count 40 Hbelow 0 0 st ltac:(lia)
             ltac:(unfold patience; destruct (Nat.eqb n 0); lia) Hi).
  - exact (tries_steady results_v2 1000%N count 15 Hbelow st Hi).
  - exact (tries_steady results_v3 800%N count 20 Hbelow st Hi).
  - exact (tries_steady results_v3 1200%N count 20 Hbelow st Hi).
Qed.

End Steady.

(** The feed of three entries, all rendered: asked for five, V1 polls seven
    times and V3 twenty. *)
Definition all_rendered (w : Sim.World) : Prop :=
  length (Sim.sim_entries w) = 3 /\ 3 <= Sim.sim_loaded w.

Lemma all_rendered_visible w : all_rendered w -> Sim.visible w = 3.
Proof. intros [Hl Hn]. unfold Sim.visible. lia. Qed.

Lemma steady_feed_polls_witness :
  let st := start (Sim.feed [Sim.pane "A"; Sim.pane "B"; Sim.pane "C"] 3) in
  (fst (loader V1 (Num 5) st) = Ok tt /\
   trace (snd (loader V1 (Num 5) st)) = trace st ++ map Count (repeat 3 7) /\
   all_rendered (world (snd (loader V1 (Num 5) st)))) /\
  (fst (loader V3 (Num 5) st) = Ok tt /\
   trace (snd (loader V3 (Num 5) st)) = trace st ++ map Count (repeat 3 20) /\
   all_rendered (world (snd (loader V3 (Num 5) st)))).
Proof.
  intros st.
  assert (Hcount : forall selector w, all_rendered w ->
             exists w', countAll selector w = (Ok 3, w') /\ all_rendered w').
  { intros selector w Hw. exists w. split; [| exact Hw].
    cbn. now rewrite (all_rendered_visible w Hw). }
  assert (Hscroll : forall w, all_rendered w ->
             exists w', scrollFeed w = (Ok tt, w') /\ all_rendered w').
  { intros w [Hl Hn]. eexists. split; [reflexivity |].
    split; [exact Hl | cbn; lia]. }
  assert (Hsleep : forall (ms : N) w, all_rendered w -> all_rendered (sleep ms w)).
  { intros ms w Hw. exact Hw. }
  assert (Hst : all_rendered (world st)) by (split; cbn; lia).
  split.
  - exact (steady_feed_polls all_rendered 3 Hcount Hscroll Hsleep V1 (Num 5) st
             eq_refl Hst).
  - exact (steady_feed_polls all_rendered 3 Hcount Hscroll Hsleep V3 (Num 5) st
             eq_refl Hst).
Defined.

(* ===================================================================== *)
(** ** The stall and the loaders that a request reaches *)
(* ===================================================================== *)

Section Stall.

Context {W : Type} `{Puppeteer W} `{Builtins}.



End Stall.


(* ===================================================================== *)
(** ** The documents behind the records *)
(* ===================================================================== *)

Section Provenance.

Context {W : Type} `{Puppeteer W} `{Builtins}.

(** One call of the browser, or some time passing, takes [w] to [w']. *)
Inductive step : W -> W -> Prop :=
| step_launch w r w' : launch w = (r, w') -> step w w'
| step_close w r w' : close w = (r, w') -> step w w'
| step_newPage w r w' : newPage w = (r, w') -> step w w'
| step_goto url ms w r w' : goto url ms w = (r, w') -> step w w'
| step_waitForSelector selector ms w r w' :
    waitForSelector selector ms w = (r, w') -> step w w'
| step_countAll selector w r w' : countAll selector w = (r, w') -> step w w'
| step_handles selector w r w' : handles selector w = (r, w') -> step w w'
| step_scrollFeed w r w' : scrollFeed w = (r, w') -> step w w'
| step_clickConsent w r w' : clickConsent w = (r, w') -> step w w'
| step_clickHandle i w r w' : clickHandle i w = (r, w') -> step w w'
| step_clickIndex selector i w r w' : clickIndex selector i w = (r, w') -> step w w'
| step_snapshot w r w' : snapshot w = (r, w') -> step w w'
| step_sleep ms w : step w (sleep ms w)
| step_siteOpen w r w' : siteOpen w = (r, w') -> step w w'
| step_siteGoto url ms w r w' : siteGoto url ms w = (r, w') -> step w w'
| step_siteContent w r w' : siteContent w = (r, w') -> step w w'
| step_siteAnchors w r w' : siteAnchors w = (r, w') -> step w w'
| step_siteResolve href w r w' : siteResolve href w = (r, w') -> step w w'
| step_siteClose w r w' : siteClose w = (r, w') -> step w w'.

(** The states of the browser that calls lead to from [w0]. *)
Inductive reach (w0 : W) : W -> Prop :=
| reach_start : reach w0 w0
| reach_step w w' : reach w0 w -> step w w' -> reach w0 w'.

(** A call of the browser: each of its results is a step. *)
Definition stepping {A} (op : W -> Result A * W) : Prop :=
  forall w r w', op w = (r, w') -> step w w'.

Ltac steps := intros ? ? ? ?; econstructor; eassumption.

Section From.

(** The state of the browser when the request arrives. *)
Variable w0 : W.

(** A document that the browser gave when read in a state reached from
    [w0]. *)
Definition given (d : Dom) : Prop :=
  exists w w', reach w0 w /\ snapshot w = (Ok d, w').

(** [run_from], on the states reached from [w0]. *)
Definition run_in {A} (b : bool) (t : list Event) (m : M A) (Q : Post A) : Prop :=
  forall st : St W, browser st = b -> trace st = t -> reach w0 (world st) ->
    reach w0 (world (snd (m st))) /\
    Q (fst (m st)) (browser (snd (m st))) (trace (snd (m st))).

Lemma in_ret {A} b t (a : A) (Q : Post A) :
  Q (Ok a) b t -> run_in b t (ret a) Q.
Proof. intros HQ st <- <- Hr. split; [exact Hr | exact HQ]. Qed.

Lemma in_bind {A B} b t (m : M A) (k : A -> M B) (Q : Post B) :
  run_in b t m
    (fun r b' t' =>
       match r with
       | Ok a => run_in b' t' (k a) Q
       | Throw e => Q (Throw e) b' t'
       end) ->
  run_in b t (bind m k) Q.
Proof.
  intros Hm st Hb Ht Hr. destruct (Hm st Hb Ht Hr) as [Hr' HQ]. unfold bind.
  destruct (m st) as [[a | e] st']; cbn in *.
  - apply HQ; [reflexivity | reflexivity | exact Hr'].
  - split; assumption.
Qed.

Lemma in_weaken {A} b t (m : M A) (P Q : Post A) :
  run_in b t m P -> (forall r b' t', P r b' t' -> Q r b' t') -> run_in b t m Q.
Proof.
  intros Hm HPQ st Hb Ht Hr. destruct (Hm st Hb Ht Hr) as [Hr' HP].
  split; [exact Hr' | now apply HPQ].
Qed.

Lemma in_call {A} b t (op : W -> Result A * W) (Q : Post A) :
  stepping op ->
  (forall w r w', reach w0 w -> op w = (r, w') -> Q r b t) ->
  run_in b t (call op) Q.
Proof.
  intros Hstep HQ st <- <- Hr. unfold call.
  destruct (op (world st)) as [r w'] eqn:E. cbn.
  split; [apply reach_step with (world st); [exact Hr | now apply (Hstep _ r)] |].
  now apply (HQ (world st) r w').
Qed.

Lemma in_wait b t ms (Q : Post unit) :
  Q (Ok tt) b t -> run_in b t (wait ms) Q.
Proof.
  intros HQ st <- <- Hr. split; [| exact HQ]. cbn.
  apply reach_step with (world st); [exact Hr | apply step_sleep].
Qed.

Lemma in_emit b t e (Q : Post unit) :
  Q (Ok tt) b (t ++ [e]) -> run_in b t (emit e) Q.
Proof. intros HQ st <- <- Hr. split; [exact Hr | exact HQ]. Qed.

Lemma in_try_catch {A} b t (m : M A) (h : string -> M A) (Q : Post A) :
  run_in b t m
    (fun r b' t' =>
       match r with
       | Ok a => Q (Ok a) b' t'
       | Throw e => run_in b' t' (h e) Q
       end) ->
  run_in b t (try_catch m h) Q.
Proof.
  intros Hm st Hb Ht Hr. destruct (Hm st Hb Ht Hr) as [Hr' HQ]. unfold try_catch.
  destruct (m st) as [[a | e] st']; cbn in *.
  - split; assumption.
  - apply HQ; [reflexivity | reflexivity | exact Hr'].
Qed.

Lemma in_try_finally {A} b t (m : M A) (f : M unit) (Q : Post A) :
  run_in b t m
    (fun r b' t' =>
       run_in b' t' f
         (fun rf b'' t'' =>
            match rf with
            | Ok _ => Q r b'' t''
            | Throw e => Q (Throw e) b'' t''
            end)) ->
  run_in b t (try_finally m f) Q.
Proof.
  intros Hm st Hb Ht Hr. destruct (Hm st Hb Ht Hr) as [Hr' HQ]. unfold try_finally.
  destruct (m st) as [r st']; cbn in *.
  destruct (HQ st' eq_refl eq_refl Hr') as [Hr'' HQ'].
  destruct (f st') as [[u | e] st'']; cbn in *; split; assumption.
Qed.

Lemma in_launch b t (Q : Post unit) :
  Q (Ok tt) true (t ++ [Launch]) -> (forall e, Q (Throw e) b t) ->
  run_in b t launch_browser Q.
Proof.
  intros Hok Hth. unfold launch_browser. apply in_bind, in_call; [steps |].
  intros w [[] | e] w' _ _; [| apply Hth].
  intros st <- <- Hr. split; [exact Hr | exact Hok].
Qed.

Lemma in_close b t (Q : Post unit) :
  Q (Ok tt) b (if b then t ++ [Close] else t) -> run_in b t close_browser Q.
Proof.
  intros HQ st Hb Ht Hr. unfold close_browser. rewrite Hb.
  destruct b.
  - revert st Hb Ht Hr. apply in_bind, in_emit, in_try_catch, in_call; [steps |].
    intros w [[] | e] w' _ _; [exact HQ | apply in_ret, HQ].
  - subst t. cbn. rewrite Hb. split; [exact Hr | exact HQ].
Qed.

(** Computations that stay within the states reached from [w0]. *)
Definition safe {A} (m : M A) : Prop :=
  forall st : St W, reach w0 (world st) -> reach w0 (world (snd (m st))).

Lemma safe_ret {A} (a : A) : safe (ret a).
Proof. intros st Hr. exact Hr. Qed.

Lemma safe_bind {A B} (m : M A) (k : A -> M B) :
  safe m -> (forall a, safe (k a)) -> safe (bind m k).
Proof.
  intros Hm Hk st Hr. specialize (Hm st Hr). unfold bind.
  destruct (m st) as [[a | e] st']; cbn in *; [now apply Hk | exact Hm].
Qed.

Lemma safe_call {A} (op : W -> Result A * W) : stepping op -> safe (call op).
Proof.
  intros Hstep st Hr. unfold call. destruct (op (world st)) as [r w'] eqn:E. cbn.
  apply reach_step with (world st); [exact Hr | now apply (Hstep _ r)].
Qed.

Lemma safe_wait ms : safe (wait ms).
Proof.
  intros st Hr. cbn. apply reach_step with (world st); [exact Hr | apply step_sleep].
Qed.

Lemma safe_emit e : safe (emit e).
Proof. intros st Hr. exact Hr. Qed.

Lemma safe_set_email v : safe (set_email v).
Proof. intros st Hr. exact Hr. Qed.

Lemma safe_get_email : safe get_email.
Proof. intros st Hr. exact Hr. Qed.

Lemma safe_try_catch {A} (m : M A) (h : string -> M A) :
  safe m -> (forall e, safe (h e)) -> safe (try_catch m h).
Proof.
  intros Hm Hh st Hr. specialize (Hm st Hr). unfold try_catch.
  destruct (m st) as [[a | e] st']; cbn in *; [exact Hm | now apply Hh].
Qed.

(** What is known of every run holds on the states reached from [w0]. *)
Lemma in_run {A} b t (m : M A) (Q : Post A) :
  run_from b t m Q -> safe m -> run_in b t m Q.
Proof. intros Hm Hs st Hb Ht Hr. split; [now apply Hs | now apply Hm]. Qed.

Ltac safely :=
  repeat first
    [ apply safe_ret
    | apply safe_wait
    | apply safe_emit
    | apply safe_set_email
    | apply safe_get_email
    | apply safe_call; steps
    | apply safe_bind; [| intros ?]
    | apply safe_try_catch; [| intros ?]
    | match goal with
      | |- safe (if ?c then _ else _) => destruct c
      | |- safe (match ?x with _ => _ end) => destruct x
      end ].

Lemma safe_count_cards selector : safe (count_cards selector).
Proof. unfold count_cards. safely. Qed.

Lemma safe_tries selector ms count k : safe (loadEnough_tries selector ms k count).
Proof.
  induction k as [| k IH]; cbn [loadEnough_tries]; [apply safe_ret |].
  apply safe_bind; [apply safe_count_cards | intros n].
  destruct (js_ge (of_nat n) count); [apply safe_ret |].
  apply safe_bind; [apply safe_call; steps | intros _].
  apply safe_bind; [apply safe_wait | intros _]. exact IH.
Qed.

Lemma safe_v1_loop count k :
  forall seen stagnant, safe (loadEnough_v1_loop k count seen stagnant).
Proof.
  induction k as [| k IH]; intros seen stagnant; cbn [loadEnough_v1_loop];
    [apply safe_ret |].
  apply safe_bind; [apply safe_count_cards | intros n].
  destruct (js_ge (of_nat n) count); [apply safe_ret |].
  apply safe_bind; [apply safe_call; steps | intros _].
  apply safe_bind; [apply safe_wait | intros _].
  destruct (Nat.leb 6 (if Nat.eqb n seen then S stagnant else 0));
    [apply safe_ret | apply IH].
Qed.

Lemma safe_resolve_email website : safe (resolve_email website).
Proof. unfold resolve_email. safely. Qed.

(** Computations that leave [browser] and the events as they are, on the
    states reached from [w0]. *)
Definition within {A} (m : M A) (Q : A -> Prop) : Prop :=
  forall b t,
    run_in b t m
      (fun r b' t' =>
         b' = b /\ t' = t /\ match r with Ok a => Q a | Throw _ => True end).

Lemma within_ret {A} (a : A) (Q : A -> Prop) : Q a -> within (ret a) Q.
Proof. intros HQ b t. apply in_ret. auto. Qed.

Lemma within_bind {A B} (m : M A) (k : A -> M B) P (Q : B -> Prop) :
  within m P -> (forall a, P a -> within (k a) Q) -> within (bind m k) Q.
Proof.
  intros Hm Hk b t. apply in_bind. eapply in_weaken; [apply Hm |].
  intros [a | e] b' t' (-> & -> & HP); [| auto].
  apply (Hk a HP).
Qed.

Lemma within_weaken {A} (m : M A) (P Q : A -> Prop) :
  within m P -> (forall a, P a -> Q a) -> within m Q.
Proof.
  intros Hm HPQ b t. eapply in_weaken; [apply Hm |].
  intros [a | e] b' t' (-> & -> & HP); auto.
Qed.

Lemma within_mute {A} (m : M A) (Q : A -> Prop) : mute m Q -> safe m -> within m Q.
Proof. intros Hm Hs b t. apply in_run; [apply Hm | exact Hs]. Qed.

(** The read of the document: what it returns was given. *)
Lemma within_snapshot : within (call snapshot) given.
Proof.
  intros b t. apply in_call; [steps |].
  intros w [d | e] w' Hr E; [| auto].
  repeat split. now exists w, w'.
Qed.

Lemma within_for_each {T} (P : T -> Prop) (body : nat -> T -> M T) :
  (forall i s, P s -> within (body i s) P) ->
  forall n i s, P s -> within (for_each n i body s) P.
Proof.
  intros Hbody. induction n as [| n IH]; intros i s Hs; cbn [for_each].
  - now apply within_ret.
  - eapply within_bind; [apply (Hbody i s Hs) |].
    intros s' Hs'. now apply IH.
Qed.

(** A step of which nothing is kept. *)
Ltac pass :=
  eapply within_bind with (P := fun _ => True);
  [ apply within_mute;
    [ first [ apply mute_call | apply mute_wait ]; intros; exact I
    | first [ apply safe_call; steps | apply safe_wait ] ]
  | intros ? _ ].

(** The record of a results array, handler by handler: the fields read
    from a document that was given, and in V3 the [email] the crawl left. *)
Definition read_from (v : Variant) (r : JsObject) : Prop :=
  match v with
  | V1 => exists d, given d /\ r = record_of (extract_v1 d) (VString "")
  | V2 => exists d, given d /\ r = extract_v2 d
  | V3 => exists d e, given d /\ clean_email e /\
                      r = record_of (extract_v3 d) (js_or e (VString ""))
  | V4 => exists d, given d /\ r = record_of_v4 (extract_v4 d)
  end.

Lemma snoc_from v (data : list JsObject) r :
  Forall (read_from v) data -> read_from v r -> Forall (read_from v) (data ++ [r]).
Proof. intros Hd Hr. apply Forall_app. split; [exact Hd | now constructor]. Qed.

Lemma round_v1_from i (s : list JsObject * JsValue) :
  Forall (read_from V1) (fst s) ->
  within (round_v1 i s) (fun s' => Forall (read_from V1) (fst s')).
Proof.
  intros Hs. destruct s as [data lastName]. unfold round_v1.
  pass. match goal with c : bool |- _ => destruct c end; cbn [negb];
    [| apply within_ret; exact Hs].
  pass.
  eapply within_bind with (P := fun _ => True).
  { apply within_mute.
    - apply mute_try_catch.
      + eapply mute_bind with (P := fun _ => True);
          [apply mute_call; intros; exact I | intros ? _].
        eapply mute_bind with (P := fun _ => True);
          [apply mute_call; intros; exact I | intros ? _].
        apply mute_ret. exact I.
      + intros e. apply mute_ret. exact I.
    - safely. }
  intros [name |] _; [| apply within_ret; exact Hs].
  destruct (negb (truthy name) || strict_eq name lastName);
    [apply within_ret; exact Hs |].
  eapply within_bind; [apply within_snapshot | intros d Hd].
  apply within_ret. cbn [fst]. apply snoc_from; [exact Hs | now exists d].
Qed.

Lemma round_v2_from i (data : list JsObject) :
  Forall (read_from V2) data -> within (round_v2 i data) (Forall (read_from V2)).
Proof.
  intros Hs. unfold round_v2. pass. pass.
  eapply within_bind; [apply within_snapshot | intros d Hd].
  pass. apply within_ret. apply snoc_from; [exact Hs | now exists d].
Qed.

(** The crawl and the read of [email], from a state reached from [w0]. *)
Lemma within_crawl website (f : JsValue -> list JsObject) :
  within (bind (resolve_email website) (fun _ => bind get_email (fun e => ret (f e))))
         (fun s' => exists e, clean_email e /\ s' = f e).
Proof.
  intros b t st Hb Ht Hr.
  pose proof (safe_resolve_email website st Hr) as Hr'.
  destruct (resolve_email_leads website st) as (Hok & Hb' & Ht' & He & _).
  unfold bind. destruct (resolve_email website st) as [r st'] eqn:E.
  cbn [fst snd] in *. subst r. cbn.
  split; [exact Hr' |]. split; [congruence |]. split; [congruence |].
  now exists (email st').
Qed.

Lemma round_v3_from i (data : list JsObject) :
  Forall (read_from V3) data -> within (round_v3 i data) (Forall (read_from V3)).
Proof.
  intros Hs. unfold round_v3.
  eapply within_bind with (P := fun _ => True).
  { apply within_mute.
    - apply mute_try_catch; [apply mute_call; intros; exact I |].
      intros e. eapply mute_bind with (P := fun _ => True);
        [apply mute_call; intros; exact I | intros ? _].
      apply mute_ret. exact I.
    - safely. }
  intros _ _. pass.
  eapply within_bind; [apply within_snapshot | intros d Hd].
  eapply within_weaken;
    [apply (within_crawl (field "website" (extract_v3 d))
              (fun e => data ++ [record_of (extract_v3 d) (js_or e (VString ""))])) |].
  intros s' (e & He & ->).
  apply snoc_from; [exact Hs | now exists d, e].
Qed.

Lemma round_v4_from i (data : list JsObject) :
  Forall (read_from V4) data -> within (round_v4 i data) (Forall (read_from V4)).
Proof.
  intros Hs. unfold round_v4. pass.
  eapply within_bind with (P := fun _ => True).
  { apply within_mute.
    - apply mute_try_catch; [apply mute_call; intros; exact I |].
      intros e. apply mute_ret. exact I.
    - safely. }
  intros _ _.
  eapply within_bind; [apply within_snapshot | intros d Hd].
  apply within_ret. apply snoc_from; [exact Hs | now exists d].
Qed.

Lemma guarded_from P (work : M unit) :
  run_in false [] work (Gathered P) ->
  run_in false [] (guarded work) (Reads P).
Proof.
  intros Hwork. unfold guarded.
  apply in_try_finally, in_try_catch.
  eapply in_weaken; [exact Hwork |].
  intros [[] | e] br t HW; cbn in HW.
  - destruct HW as (data & Hs & Hd). apply in_close.
    now apply reads_closed with data.
  - apply in_emit, in_close. intros data Hin.
    assert (Hs : sent (if br then (t ++ [Send 200 (Failure e)]) ++ [Close]
                       else t ++ [Send 200 (Failure e)]) = [Failure e]).
    { destruct br; rewrite !sent_app, HW; reflexivity. }
    rewrite Hs in Hin. destruct Hin as [Hin | []]. discriminate.
Qed.

Ltac unsent :=
  cbn; rewrite ?sent_app, ?sent_only_counts; reflexivity.

Ltac called :=
  apply in_bind, in_call; [steps |]; intros ? [[] | ?] ? _ _.

Lemma work_from P url t1 feed t2 selector ms k selector' count
      (round : nat -> list JsObject -> @M W (list JsObject)) :
  (forall i s, Forall P s -> within (round i s) (Forall P)) ->
  run_in false []
    (bind launch_browser (fun _ =>
     bind (call newPage) (fun _ =>
     bind (call (goto url t1)) (fun _ =>
     bind (call (waitForSelector feed t2)) (fun _ =>
     bind (loadEnough_tries selector ms k count) (fun _ =>
     bind (get_handles selector') (fun items =>
     bind (for_each (rounds (Math_min (of_nat items) count)) 0 round [])
          (fun data => res_json (Success data)))))))))
    (Gathered P).
Proof.
  intros Hround.
  apply in_bind, in_launch; [| intros e; reflexivity].
  called; [| reflexivity]. called; [| reflexivity]. called; [| reflexivity].
  apply in_bind. eapply in_weaken;
    [apply in_run; [apply loadEnough_tries_run | apply safe_tries] |].
  intros r br t (-> & polls & -> & Hlen).
  destruct r as [[] | e]; [| unsent].
  apply in_bind. eapply in_weaken.
  { apply in_run; [| unfold get_handles; safely].
    apply (run_get_handles _ _ _
             (fun r b' t' => b' = true /\
                match r with
                | Ok _ => exists n, t' = (([] ++ [Launch]) ++ map Count polls) ++ [Count n]
                | Throw _ => t' = ([] ++ [Launch]) ++ map Count polls
                end)).
    - intros n. split; [reflexivity | now exists n].
    - intros e. split; reflexivity. }
  intros r br t (-> & Ht).
  destruct r as [items | e]; [destruct Ht as (n & ->) | subst t; unsent].
  apply in_bind. eapply in_weaken;
    [apply (within_for_each (Forall P) round Hround); constructor |].
  intros r br t (-> & -> & Hdata).
  destruct r as [data | e]; [| unsent].
  apply in_emit. exists data. split; [unsent | exact Hdata].
Qed.

Lemma scrape_v1_from b : run_in false [] (scrape_v1 b) (Reads (read_from V1)).
Proof.
  unfold scrape_v1.
  destruct (negb (truthy (body_query b))).
  { apply in_emit. intros data [Hin | []]. discriminate. }
  assert (Hnone : forall (r : Result unit) br t,
             sent t = [] -> Reads (read_from V1) r br t).
  { intros r br t Hs data Hin. rewrite Hs in Hin. destruct Hin. }
  apply in_bind, in_launch; [| intros e; now apply Hnone].
  called; [| now apply Hnone]. called; [| now apply Hnone].
  apply in_bind. eapply in_weaken.
  { apply in_run.
    - apply (mute_try_catch _ _ (fun _ => True)).
      + eapply mute_bind with (P := fun _ => True);
          [apply mute_call; intros; exact I | intros ? _].
        apply mute_call. intros; exact I.
      + intros e. apply mute_ret. exact I.
    - safely. }
  intros r br t (-> & -> & _).
  destruct r as [[] | e]; [| now apply Hnone].
  called; [| now apply Hnone].
  apply in_bind. eapply in_weaken;
    [apply in_run; [apply loadEnough_v1_run | apply safe_v1_loop] |].
  intros r br t (-> & polls & -> & _).
  destruct r as [[] | e]; [| apply Hnone; unsent].
  apply in_bind. eapply in_weaken.
  { apply in_run; [| apply safe_count_cards].
    apply (run_count_cards _ _ _
             (fun r b' t' => b' = true /\
                match r with
                | Ok _ => exists n, t' = (([] ++ [Launch]) ++ map Count polls) ++ [Count n]
                | Throw _ => t' = ([] ++ [Launch]) ++ map Count polls
                end)).
    - intros n. split; [reflexivity | now exists n].
    - intros e. split; reflexivity. }
  intros r br t (-> & Ht).
  destruct r as [items | e];
    [destruct Ht as (n & ->) | subst t; apply Hnone; unsent].
  apply in_bind. eapply in_weaken.
  { apply (within_for_each
             (fun s : list JsObject * JsValue => Forall (read_from V1) (fst s))
             round_v1 round_v1_from). constructor. }
  intros r br t (-> & -> & Hdata).
  destruct r as [s | e]; [| apply Hnone; unsent].
  apply in_bind, in_emit, in_close.
  apply (reads_closed (read_from V1) true _ _ (fst s)); [unsent | exact Hdata].
Qed.

Lemma scrape_v2_from b : run_in false [] (scrape_v2 b) (Reads (read_from V2)).
Proof.
  unfold scrape_v2. destruct (negb (truthy (body_query b))).
  { apply in_emit. intros data [Hin | []]. discriminate. }
  apply guarded_from.
  apply (work_from (read_from V2)), round_v2_from.
Qed.

Lemma scrape_v3_from b : run_in false [] (scrape_v3 b) (Reads (read_from V3)).
Proof.
  unfold scrape_v3. destruct (negb (truthy (body_query b))).
  { apply in_emit. intros data [Hin | []]. discriminate. }
  apply guarded_from.
  apply (work_from (read_from V3)), round_v3_from.
Qed.

Lemma scrape_v4_from b : run_in false [] (scrape_v4 b) (Reads (read_from V4)).
Proof.
  unfold scrape_v4. destruct (negb (truthy (body_query b))).
  { apply in_emit. intros data [Hin | []]. discriminate. }
  apply guarded_from.
  apply (work_from (read_from V4)), round_v4_from.
Qed.

End From.

(** X8. Every record of every results array sent was read from a
    document the browser gave in this request: there is a state of the
    browser, reached from the one the request found by calls of the browser,
    in which the read of the document returned a document of which the record
    is what the handler's reader makes. In V3 the email beside it is what the
    crawl of the site left. No record is made up, and none comes from a
    document the browser never showed. *)
Theorem every_record_was_read (v : Variant) (b : Body) (w : W) (data : list JsObject) :
  In (Success data) (sent (trace (snd (run v b w)))) -> Forall (read_from w v) data.
Proof.
  unfold run. destruct v; cbn [scrape].
  - exact (proj2 (scrape_v1_from w b (start w) eq_refl eq_refl (reach_start w)) data).
  - exact (proj2 (scrape_v2_from w b (start w) eq_refl eq_refl (reach_start w)) data).
  - exact (proj2 (scrape_v3_from w b (start w) eq_refl eq_refl (reach_start w)) data).
  - exact (proj2 (scrape_v4_from w b (start w) eq_refl eq_refl (reach_start w)) data).
Qed.

End Provenance.

Lemma every_record_was_read_witness :
  exists data,
    In (Success data)
       (sent (trace (snd (run V3 (Sim.request "coffee shops" (VNumber (Num 2)))
                              (Sim.feed [Sim.pane "A"; Sim.pane "B"; Sim.pane "C"] 3))))) /\
    Forall (read_from (Sim.feed [Sim.pane "A"; Sim.pane "B"; Sim.pane "C"] 3) V3) data.
Proof.
  assert (Hs : exists data,
             sent (trace (snd (run V3 (Sim.request "coffee shops" (VNumber (Num 2)))
                                   (Sim.feed [Sim.pane "A"; Sim.pane "B"; Sim.pane "C"] 3))))
             = [Success data])
    by (eexists; vm_compute; reflexivity).
  destruct Hs as (data & Hs).
  assert (Hin : In (Success data)
                   (sent (trace (snd (run V3 (Sim.request "coffee shops" (VNumber (Num 2)))
                                         (Sim.feed [Sim.pane "A"; Sim.pane "B"; Sim.pane "C"] 3))))))
    by (rewrite Hs; left; reflexivity).
  exists data.
  exact (conj Hin (every_record_was_read V3 _ _ data Hin)).
Defined.
